(** * AIS target prioritizer: kinematics, classification and ingestion

    A shallow embedding of [ais-utils.mjs] (delta ingestion, range and
    bearing, CPA/TCPA, alarm classification and priority order) together
    with the constants of [shared/constants.mjs].

    JavaScript numbers are IEEE 754 binary64 values; they are embedded as
    Rocq's primitive [float]s, so every arithmetic step below rounds the
    way the engine's does.  [null] and [undefined] are both [None] of an
    option type: the source only ever tests them with [== null], [!= null]
    and [??], which do not tell them apart. *)

From Stdlib Require Import ZArith List String Ascii Bool Lia.
From Stdlib Require Import Floats.
Import ListNotations.


(* ================================================================== *)
(** * JavaScript numbers *)
(* ================================================================== *)

Module Num.

Local Open Scope float_scope.

(** [Math.PI], the binary64 value nearest to pi (3.141592653589793). *)
Definition Math_PI : float := 0x1.921fb54442d18p+1.

(** The integer [n] as a number (exact for [|n| <= 2^53]). *)
Definition of_Z (n : Z) : float :=
  SF2Prim (binary_normalize prec emax n 0 false).

(** [Math.round]: the integer nearest to [x], ties towards +Infinity; the
    sign of a zero result is the sign of [x]; NaN, infinities and values
    that are already integers are returned unchanged. *)
Definition Math_round (x : float) : float :=
  match Prim2SF x with
  | S754_finite s m e =>
      if (0 <=? e)%Z then x
      else
        let n := ((2 * cond_Zopp s (Zpos m) + 2 ^ (- e)) / 2 ^ (1 - e))%Z in
        if (n =? 0)%Z then (if s then neg_zero else zero) else of_Z n
  | _ => x
  end.

(** The sign bit of a number ([false] for NaN). *)
Definition sign_bit (x : float) : bool :=
  match Prim2SF x with
  | S754_zero s | S754_infinity s | S754_finite s _ _ => s
  | S754_nan => false
  end.

(** [Math.max] and [Math.min] of two arguments: NaN if either is NaN, and
    [+0] is larger than [-0]. *)
Definition Math_max (a b : float) : float :=
  if is_nan a || is_nan b then nan
  else if a <? b then b
  else if b <? a then a
  else if sign_bit a then b else a.

Definition Math_min (a b : float) : float :=
  if is_nan a || is_nan b then nan
  else if a <? b then a
  else if b <? a then b
  else if sign_bit a then a else b.

Definition Math_abs (x : float) : float := abs x.
Definition Math_sqrt (x : float) : float := sqrt x.

(** [x % y]: the remainder of the truncating division, with the sign of
    the dividend; it is computed exactly. *)
Definition js_rem (x y : float) : float :=
  match Prim2SF x, Prim2SF y with
  | S754_nan, _ | _, S754_nan => nan
  | S754_infinity _, _ => nan
  | _, S754_zero _ => nan
  | S754_zero _, _ => x
  | S754_finite _ _ _, S754_infinity _ => x
  | S754_finite sx mx ex, S754_finite _ my ey =>
      let e := Z.min ex ey in
      let r := ((Zpos mx * 2 ^ (ex - e)) mod (Zpos my * 2 ^ (ey - e)))%Z in
      if (r =? 0)%Z then (if sx then neg_zero else zero)
      else SF2Prim (binary_normalize prec emax (cond_Zopp sx r) e false)
  end.

(** Relational operators; [x > y] is [y < x] and [x >= y] is [y <= x]. *)
Definition lt (x y : float) : bool := x <? y.
Definition gt (x y : float) : bool := y <? x.
Definition ge (x y : float) : bool := y <=? x.

(** [x === 0] on numbers ([-0 === 0] holds). *)
Definition is_zero_num (x : float) : bool := x =? 0.

(** [!x] on a number: true for [0], [-0] and NaN. *)
Definition falsy (x : float) : bool := is_nan x || is_zero_num x.

(** [Number.isFinite]. *)
Definition Number_isFinite (x : float) : bool := is_finite x.

(** [x] is an integer number (finite, no fractional part). *)
Definition is_integer (x : float) : bool :=
  match Prim2SF x with
  | S754_zero _ => true
  | S754_finite _ m e =>
      if (0 <=? e)%Z then true else (Zpos m mod 2 ^ (- e) =? 0)%Z
  | _ => false
  end.

End Num.

(** The transcendental functions of [Math].  ECMAScript leaves their
    values implementation-approximated, so they are an interface of the
    host; the code below is parametric in it. *)
Class MathLib : Type := {
  Math_sin : float -> float;
  Math_cos : float -> float;
  Math_tan : float -> float;
  Math_log : float -> float;
  Math_atan2 : float -> float -> float
}.

(** The special values ECMAScript fixes for every implementation, as far
    as the bearing computation meets them. *)
Record MathLibConforms (M : MathLib) : Prop := {
  tan_zero : Math_tan 0%float = 0%float;
  log_nan : Math_log nan = nan;
  atan2_nan_r : forall y, Math_atan2 y nan = nan
}.

(* ================================================================== *)
(** * Constants ([shared/constants.mjs]) *)
(* ================================================================== *)

Module Const.
Local Open Scope float_scope.

Definition METERS_PER_NM : float := 1852.
(** 1.94384 *)
Definition KNOTS_PER_M_PER_S : float := 0x1.f19f7f8ca8199p+0.
Definition TARGET_MAX_AGE : float := 30 * 60.
Definition LOST_TARGET_WARNING_AGE : float := 10 * 60.
Definition TCPA_MAX_SECONDS : float := 3 * 3600.

Module PRIORITY_ORDER.
Definition DANGER : float := 10000.
Definition WARNING : float := 20000.
Definition CLOSING : float := 30000.
Definition DIVERGING : float := 40000.
Definition NO_RANGE : float := 50000.
End PRIORITY_ORDER.

Module PRIORITY_WEIGHTS.
Definition HAS_TCPA_BONUS : float := 1000.
Definition TCPA_WEIGHT : float := 1000.
Definition CPA_WEIGHT : float := 2000.
Definition RANGE_WEIGHT_PER_NM : float := 100.
Definition RANGE_WEIGHT_MAX : float := 5000.
Definition ORDER_MIN : float := -99999.
Definition ORDER_MAX : float := 99999.
End PRIORITY_WEIGHTS.

End Const.

(* ================================================================== *)
(** * Data model *)
(* ================================================================== *)

(** JSON values carried by a delta. *)
#[local] Set Warnings "-register-all".
Inductive JSON : Type :=
| JNull
| JUndefined
| JBool (b : bool)
| JNum (n : float)
| JStr (s : string)
| JArr (l : list JSON)
| JObj (kv : list (string * JSON)).

Inductive AlarmState : Type := danger_state | warning_state.

(** Exceptions the embedded code can raise. *)
Inductive exn : Type :=
| TypeError (what : string)
| Error (message : string).

(** A target object.  The fields the calculations read and write are
    typed; the remaining reported fields ([name], [callsign], [imo], ...)
    are kept as written in the property bag [info].  A field that was
    never assigned ([undefined]) is [None]. *)
Record Target : Type := mkTarget {
  mmsi : string;
  context : option string;
  latitude : option float;
  longitude : option float;
  sog : option float;
  cog : option float;
  lastSeenDate : option float;
  info : list (string * JSON);
  x : option float;
  y : option float;
  vx : option float;
  vy : option float;
  range : option float;
  bearing : option float;
  cpa : option float;
  tcpa : option float;
  guardAlarm : option bool;
  collisionAlarm : option bool;
  collisionWarning : option bool;
  sartAlarm : option bool;
  mobAlarm : option bool;
  epirbAlarm : option bool;
  alarmState : option AlarmState;
  alarmType : option string;
  order : option float;
  lastSeen : option float;
  isLost : option bool;
  isValid : option bool
}.

Definition set_context (v : option string) (t : Target) : Target :=
  mkTarget
    (t.(mmsi)) v (t.(latitude)) (t.(longitude)) (t.(sog)) (t.(cog))
    (t.(lastSeenDate)) (t.(info)) (t.(x)) (t.(y)) (t.(vx)) (t.(vy))
    (t.(range)) (t.(bearing)) (t.(cpa)) (t.(tcpa)) (t.(guardAlarm))
    (t.(collisionAlarm)) (t.(collisionWarning)) (t.(sartAlarm))
    (t.(mobAlarm)) (t.(epirbAlarm)) (t.(alarmState)) (t.(alarmType))
    (t.(order)) (t.(lastSeen)) (t.(isLost)) (t.(isValid)).

Definition set_latitude (v : option float) (t : Target) : Target :=
  mkTarget
    (t.(mmsi)) (t.(context)) v (t.(longitude)) (t.(sog)) (t.(cog))
    (t.(lastSeenDate)) (t.(info)) (t.(x)) (t.(y)) (t.(vx)) (t.(vy))
    (t.(range)) (t.(bearing)) (t.(cpa)) (t.(tcpa)) (t.(guardAlarm))
    (t.(collisionAlarm)) (t.(collisionWarning)) (t.(sartAlarm))
    (t.(mobAlarm)) (t.(epirbAlarm)) (t.(alarmState)) (t.(alarmType))
    (t.(order)) (t.(lastSeen)) (t.(isLost)) (t.(isValid)).

Definition set_longitude (v : option float) (t : Target) : Target :=
  mkTarget
    (t.(mmsi)) (t.(context)) (t.(latitude)) v (t.(sog)) (t.(cog))
    (t.(lastSeenDate)) (t.(info)) (t.(x)) (t.(y)) (t.(vx)) (t.(vy))
    (t.(range)) (t.(bearing)) (t.(cpa)) (t.(tcpa)) (t.(guardAlarm))
    (t.(collisionAlarm)) (t.(collisionWarning)) (t.(sartAlarm))
    (t.(mobAlarm)) (t.(epirbAlarm)) (t.(alarmState)) (t.(alarmType))
    (t.(order)) (t.(lastSeen)) (t.(isLost)) (t.(isValid)).

Definition set_sog (v : option float) (t : Target) : Target :=
  mkTarget
    (t.(mmsi)) (t.(context)) (t.(latitude)) (t.(longitude)) v (t.(cog))
    (t.(lastSeenDate)) (t.(info)) (t.(x)) (t.(y)) (t.(vx)) (t.(vy))
    (t.(range)) (t.(bearing)) (t.(cpa)) (t.(tcpa)) (t.(guardAlarm))
    (t.(collisionAlarm)) (t.(collisionWarning)) (t.(sartAlarm))
    (t.(mobAlarm)) (t.(epirbAlarm)) (t.(alarmState)) (t.(alarmType))
    (t.(order)) (t.(lastSeen)) (t.(isLost)) (t.(isValid)).

Definition set_cog (v : option float) (t : Target) : Target :=
  mkTarget
    (t.(mmsi)) (t.(context)) (t.(latitude)) (t.(longitude)) (t.(sog)) v
    (t.(lastSeenDate)) (t.(info)) (t.(x)) (t.(y)) (t.(vx)) (t.(vy))
    (t.(range)) (t.(bearing)) (t.(cpa)) (t.(tcpa)) (t.(guardAlarm))
    (t.(collisionAlarm)) (t.(collisionWarning)) (t.(sartAlarm))
    (t.(mobAlarm)) (t.(epirbAlarm)) (t.(alarmState)) (t.(alarmType))
    (t.(order)) (t.(lastSeen)) (t.(isLost)) (t.(isValid)).

Definition set_lastSeenDate (v : option float) (t : Target) : Target :=
  mkTarget
    (t.(mmsi)) (t.(context)) (t.(latitude)) (t.(longitude)) (t.(sog))
    (t.(cog)) v (t.(info)) (t.(x)) (t.(y)) (t.(vx)) (t.(vy)) (t.(range))
    (t.(bearing)) (t.(cpa)) (t.(tcpa)) (t.(guardAlarm)) (t.(collisionAlarm))
    (t.(collisionWarning)) (t.(sartAlarm)) (t.(mobAlarm)) (t.(epirbAlarm))
    (t.(alarmState)) (t.(alarmType)) (t.(order)) (t.(lastSeen)) (t.(isLost))
    (t.(isValid)).

Definition set_info (v : list (string * JSON)) (t : Target) : Target :=
  mkTarget
    (t.(mmsi)) (t.(context)) (t.(latitude)) (t.(longitude)) (t.(sog))
    (t.(cog)) (t.(lastSeenDate)) v (t.(x)) (t.(y)) (t.(vx)) (t.(vy))
    (t.(range)) (t.(bearing)) (t.(cpa)) (t.(tcpa)) (t.(guardAlarm))
    (t.(collisionAlarm)) (t.(collisionWarning)) (t.(sartAlarm))
    (t.(mobAlarm)) (t.(epirbAlarm)) (t.(alarmState)) (t.(alarmType))
    (t.(order)) (t.(lastSeen)) (t.(isLost)) (t.(isValid)).

Definition set_x (v : option float) (t : Target) : Target :=
  mkTarget
    (t.(mmsi)) (t.(context)) (t.(latitude)) (t.(longitude)) (t.(sog))
    (t.(cog)) (t.(lastSeenDate)) (t.(info)) v (t.(y)) (t.(vx)) (t.(vy))
    (t.(range)) (t.(bearing)) (t.(cpa)) (t.(tcpa)) (t.(guardAlarm))
    (t.(collisionAlarm)) (t.(collisionWarning)) (t.(sartAlarm))
    (t.(mobAlarm)) (t.(epirbAlarm)) (t.(alarmState)) (t.(alarmType))
    (t.(order)) (t.(lastSeen)) (t.(isLost)) (t.(isValid)).

Definition set_y (v : option float) (t : Target) : Target :=
  mkTarget
    (t.(mmsi)) (t.(context)) (t.(latitude)) (t.(longitude)) (t.(sog))
    (t.(cog)) (t.(lastSeenDate)) (t.(info)) (t.(x)) v (t.(vx)) (t.(vy))
    (t.(range)) (t.(bearing)) (t.(cpa)) (t.(tcpa)) (t.(guardAlarm))
    (t.(collisionAlarm)) (t.(collisionWarning)) (t.(sartAlarm))
    (t.(mobAlarm)) (t.(epirbAlarm)) (t.(alarmState)) (t.(alarmType))
    (t.(order)) (t.(lastSeen)) (t.(isLost)) (t.(isValid)).

Definition set_vx (v : option float) (t : Target) : Target :=
  mkTarget
    (t.(mmsi)) (t.(context)) (t.(latitude)) (t.(longitude)) (t.(sog))
    (t.(cog)) (t.(lastSeenDate)) (t.(info)) (t.(x)) (t.(y)) v (t.(vy))
    (t.(range)) (t.(bearing)) (t.(cpa)) (t.(tcpa)) (t.(guardAlarm))
    (t.(collisionAlarm)) (t.(collisionWarning)) (t.(sartAlarm))
    (t.(mobAlarm)) (t.(epirbAlarm)) (t.(alarmState)) (t.(alarmType))
    (t.(order)) (t.(lastSeen)) (t.(isLost)) (t.(isValid)).

Definition set_vy (v : option float) (t : Target) : Target :=
  mkTarget
    (t.(mmsi)) (t.(context)) (t.(latitude)) (t.(longitude)) (t.(sog))
    (t.(cog)) (t.(lastSeenDate)) (t.(info)) (t.(x)) (t.(y)) (t.(vx)) v
    (t.(range)) (t.(bearing)) (t.(cpa)) (t.(tcpa)) (t.(guardAlarm))
    (t.(collisionAlarm)) (t.(collisionWarning)) (t.(sartAlarm))
    (t.(mobAlarm)) (t.(epirbAlarm)) (t.(alarmState)) (t.(alarmType))
    (t.(order)) (t.(lastSeen)) (t.(isLost)) (t.(isValid)).

Definition set_range (v : option float) (t : Target) : Target :=
  mkTarget
    (t.(mmsi)) (t.(context)) (t.(latitude)) (t.(longitude)) (t.(sog))
    (t.(cog)) (t.(lastSeenDate)) (t.(info)) (t.(x)) (t.(y)) (t.(vx)) (t.(vy))
    v (t.(bearing)) (t.(cpa)) (t.(tcpa)) (t.(guardAlarm))
    (t.(collisionAlarm)) (t.(collisionWarning)) (t.(sartAlarm))
    (t.(mobAlarm)) (t.(epirbAlarm)) (t.(alarmState)) (t.(alarmType))
    (t.(order)) (t.(lastSeen)) (t.(isLost)) (t.(isValid)).

Definition set_bearing (v : option float) (t : Target) : Target :=
  mkTarget
    (t.(mmsi)) (t.(context)) (t.(latitude)) (t.(longitude)) (t.(sog))
    (t.(cog)) (t.(lastSeenDate)) (t.(info)) (t.(x)) (t.(y)) (t.(vx)) (t.(vy))
    (t.(range)) v (t.(cpa)) (t.(tcpa)) (t.(guardAlarm)) (t.(collisionAlarm))
    (t.(collisionWarning)) (t.(sartAlarm)) (t.(mobAlarm)) (t.(epirbAlarm))
    (t.(alarmState)) (t.(alarmType)) (t.(order)) (t.(lastSeen)) (t.(isLost))
    (t.(isValid)).

Definition set_cpa (v : option float) (t : Target) : Target :=
  mkTarget
    (t.(mmsi)) (t.(context)) (t.(latitude)) (t.(longitude)) (t.(sog))
    (t.(cog)) (t.(lastSeenDate)) (t.(info)) (t.(x)) (t.(y)) (t.(vx)) (t.(vy))
    (t.(range)) (t.(bearing)) v (t.(tcpa)) (t.(guardAlarm))
    (t.(collisionAlarm)) (t.(collisionWarning)) (t.(sartAlarm))
    (t.(mobAlarm)) (t.(epirbAlarm)) (t.(alarmState)) (t.(alarmType))
    (t.(order)) (t.(lastSeen)) (t.(isLost)) (t.(isValid)).

Definition set_tcpa (v : option float) (t : Target) : Target :=
  mkTarget
    (t.(mmsi)) (t.(context)) (t.(latitude)) (t.(longitude)) (t.(sog))
    (t.(cog)) (t.(lastSeenDate)) (t.(info)) (t.(x)) (t.(y)) (t.(vx)) (t.(vy))
    (t.(range)) (t.(bearing)) (t.(cpa)) v (t.(guardAlarm))
    (t.(collisionAlarm)) (t.(collisionWarning)) (t.(sartAlarm))
    (t.(mobAlarm)) (t.(epirbAlarm)) (t.(alarmState)) (t.(alarmType))
    (t.(order)) (t.(lastSeen)) (t.(isLost)) (t.(isValid)).

Definition set_guardAlarm (v : option bool) (t : Target) : Target :=
  mkTarget
    (t.(mmsi)) (t.(context)) (t.(latitude)) (t.(longitude)) (t.(sog))
    (t.(cog)) (t.(lastSeenDate)) (t.(info)) (t.(x)) (t.(y)) (t.(vx)) (t.(vy))
    (t.(range)) (t.(bearing)) (t.(cpa)) (t.(tcpa)) v (t.(collisionAlarm))
    (t.(collisionWarning)) (t.(sartAlarm)) (t.(mobAlarm)) (t.(epirbAlarm))
    (t.(alarmState)) (t.(alarmType)) (t.(order)) (t.(lastSeen)) (t.(isLost))
    (t.(isValid)).

Definition set_collisionAlarm (v : option bool) (t : Target) : Target :=
  mkTarget
    (t.(mmsi)) (t.(context)) (t.(latitude)) (t.(longitude)) (t.(sog))
    (t.(cog)) (t.(lastSeenDate)) (t.(info)) (t.(x)) (t.(y)) (t.(vx)) (t.(vy))
    (t.(range)) (t.(bearing)) (t.(cpa)) (t.(tcpa)) (t.(guardAlarm)) v
    (t.(collisionWarning)) (t.(sartAlarm)) (t.(mobAlarm)) (t.(epirbAlarm))
    (t.(alarmState)) (t.(alarmType)) (t.(order)) (t.(lastSeen)) (t.(isLost))
    (t.(isValid)).

Definition set_collisionWarning (v : option bool) (t : Target) : Target :=
  mkTarget
    (t.(mmsi)) (t.(context)) (t.(latitude)) (t.(longitude)) (t.(sog))
    (t.(cog)) (t.(lastSeenDate)) (t.(info)) (t.(x)) (t.(y)) (t.(vx)) (t.(vy))
    (t.(range)) (t.(bearing)) (t.(cpa)) (t.(tcpa)) (t.(guardAlarm))
    (t.(collisionAlarm)) v (t.(sartAlarm)) (t.(mobAlarm)) (t.(epirbAlarm))
    (t.(alarmState)) (t.(alarmType)) (t.(order)) (t.(lastSeen)) (t.(isLost))
    (t.(isValid)).

Definition set_sartAlarm (v : option bool) (t : Target) : Target :=
  mkTarget
    (t.(mmsi)) (t.(context)) (t.(latitude)) (t.(longitude)) (t.(sog))
    (t.(cog)) (t.(lastSeenDate)) (t.(info)) (t.(x)) (t.(y)) (t.(vx)) (t.(vy))
    (t.(range)) (t.(bearing)) (t.(cpa)) (t.(tcpa)) (t.(guardAlarm))
    (t.(collisionAlarm)) (t.(collisionWarning)) v (t.(mobAlarm))
    (t.(epirbAlarm)) (t.(alarmState)) (t.(alarmType)) (t.(order))
    (t.(lastSeen)) (t.(isLost)) (t.(isValid)).

Definition set_mobAlarm (v : option bool) (t : Target) : Target :=
  mkTarget
    (t.(mmsi)) (t.(context)) (t.(latitude)) (t.(longitude)) (t.(sog))
    (t.(cog)) (t.(lastSeenDate)) (t.(info)) (t.(x)) (t.(y)) (t.(vx)) (t.(vy))
    (t.(range)) (t.(bearing)) (t.(cpa)) (t.(tcpa)) (t.(guardAlarm))
    (t.(collisionAlarm)) (t.(collisionWarning)) (t.(sartAlarm)) v
    (t.(epirbAlarm)) (t.(alarmState)) (t.(alarmType)) (t.(order))
    (t.(lastSeen)) (t.(isLost)) (t.(isValid)).

Definition set_epirbAlarm (v : option bool) (t : Target) : Target :=
  mkTarget
    (t.(mmsi)) (t.(context)) (t.(latitude)) (t.(longitude)) (t.(sog))
    (t.(cog)) (t.(lastSeenDate)) (t.(info)) (t.(x)) (t.(y)) (t.(vx)) (t.(vy))
    (t.(range)) (t.(bearing)) (t.(cpa)) (t.(tcpa)) (t.(guardAlarm))
    (t.(collisionAlarm)) (t.(collisionWarning)) (t.(sartAlarm))
    (t.(mobAlarm)) v (t.(alarmState)) (t.(alarmType)) (t.(order))
    (t.(lastSeen)) (t.(isLost)) (t.(isValid)).

Definition set_alarmState (v : option AlarmState) (t : Target) : Target :=
  mkTarget
    (t.(mmsi)) (t.(context)) (t.(latitude)) (t.(longitude)) (t.(sog))
    (t.(cog)) (t.(lastSeenDate)) (t.(info)) (t.(x)) (t.(y)) (t.(vx)) (t.(vy))
    (t.(range)) (t.(bearing)) (t.(cpa)) (t.(tcpa)) (t.(guardAlarm))
    (t.(collisionAlarm)) (t.(collisionWarning)) (t.(sartAlarm))
    (t.(mobAlarm)) (t.(epirbAlarm)) v (t.(alarmType)) (t.(order))
    (t.(lastSeen)) (t.(isLost)) (t.(isValid)).

Definition set_alarmType (v : option string) (t : Target) : Target :=
  mkTarget
    (t.(mmsi)) (t.(context)) (t.(latitude)) (t.(longitude)) (t.(sog))
    (t.(cog)) (t.(lastSeenDate)) (t.(info)) (t.(x)) (t.(y)) (t.(vx)) (t.(vy))
    (t.(range)) (t.(bearing)) (t.(cpa)) (t.(tcpa)) (t.(guardAlarm))
    (t.(collisionAlarm)) (t.(collisionWarning)) (t.(sartAlarm))
    (t.(mobAlarm)) (t.(epirbAlarm)) (t.(alarmState)) v (t.(order))
    (t.(lastSeen)) (t.(isLost)) (t.(isValid)).

Definition set_order (v : option float) (t : Target) : Target :=
  mkTarget
    (t.(mmsi)) (t.(context)) (t.(latitude)) (t.(longitude)) (t.(sog))
    (t.(cog)) (t.(lastSeenDate)) (t.(info)) (t.(x)) (t.(y)) (t.(vx)) (t.(vy))
    (t.(range)) (t.(bearing)) (t.(cpa)) (t.(tcpa)) (t.(guardAlarm))
    (t.(collisionAlarm)) (t.(collisionWarning)) (t.(sartAlarm))
    (t.(mobAlarm)) (t.(epirbAlarm)) (t.(alarmState)) (t.(alarmType)) v
    (t.(lastSeen)) (t.(isLost)) (t.(isValid)).

Definition set_lastSeen (v : option float) (t : Target) : Target :=
  mkTarget
    (t.(mmsi)) (t.(context)) (t.(latitude)) (t.(longitude)) (t.(sog))
    (t.(cog)) (t.(lastSeenDate)) (t.(info)) (t.(x)) (t.(y)) (t.(vx)) (t.(vy))
    (t.(range)) (t.(bearing)) (t.(cpa)) (t.(tcpa)) (t.(guardAlarm))
    (t.(collisionAlarm)) (t.(collisionWarning)) (t.(sartAlarm))
    (t.(mobAlarm)) (t.(epirbAlarm)) (t.(alarmState)) (t.(alarmType))
    (t.(order)) v (t.(isLost)) (t.(isValid)).

Definition set_isLost (v : option bool) (t : Target) : Target :=
  mkTarget
    (t.(mmsi)) (t.(context)) (t.(latitude)) (t.(longitude)) (t.(sog))
    (t.(cog)) (t.(lastSeenDate)) (t.(info)) (t.(x)) (t.(y)) (t.(vx)) (t.(vy))
    (t.(range)) (t.(bearing)) (t.(cpa)) (t.(tcpa)) (t.(guardAlarm))
    (t.(collisionAlarm)) (t.(collisionWarning)) (t.(sartAlarm))
    (t.(mobAlarm)) (t.(epirbAlarm)) (t.(alarmState)) (t.(alarmType))
    (t.(order)) (t.(lastSeen)) v (t.(isValid)).

Definition set_isValid (v : option bool) (t : Target) : Target :=
  mkTarget
    (t.(mmsi)) (t.(context)) (t.(latitude)) (t.(longitude)) (t.(sog))
    (t.(cog)) (t.(lastSeenDate)) (t.(info)) (t.(x)) (t.(y)) (t.(vx)) (t.(vy))
    (t.(range)) (t.(bearing)) (t.(cpa)) (t.(tcpa)) (t.(guardAlarm))
    (t.(collisionAlarm)) (t.(collisionWarning)) (t.(sartAlarm))
    (t.(mobAlarm)) (t.(epirbAlarm)) (t.(alarmState)) (t.(alarmType))
    (t.(order)) (t.(lastSeen)) (t.(isLost)) v.


(** Threshold groups of a collision profile.  A number missing from a
    group reads as [undefined], which the arithmetic of the classifier
    turns into NaN; such a group is written here with [nan]. *)
Record Threshold : Type := mkThreshold {
  thr_cpa : float;     (* nautical miles *)
  thr_tcpa : float;    (* seconds *)
  thr_speed : float    (* knots *)
}.

Record GuardZone : Type := mkGuardZone {
  guard_range : float; (* nautical miles *)
  guard_speed : float  (* knots *)
}.

(** A named profile; each group may be missing from the object. *)
Record Profile : Type := mkProfile {
  warning : option Threshold;
  danger : option Threshold;
  guard : option GuardZone
}.

(** The [collisionProfiles] object: the [current] selector and the named
    profiles. *)
Record CollisionProfiles : Type := mkCollisionProfiles {
  current : string;
  profiles : list (string * Profile)
}.

Fixpoint assoc {A : Type} (k : string) (l : list (string * A)) : option A :=
  match l with
  | [] => None
  | (k', v) :: l' => if String.eqb k k' then Some v else assoc k l'
  end.

(* ================================================================== *)
(** * Kinematics *)
(* ================================================================== *)

Module Kinematics.
Import Num Const.
Local Open Scope float_scope.

Definition toRadians (v : float) : float := (v * Math_PI) / 180.
Definition toDegrees (v : float) : float := (v * 180) / Math_PI.

(** Planar 2-vectors of [updateCpa]. *)
Record vec : Type := mkVec { vec_x : float; vec_y : float }.

Definition dot (u v : vec) : float := u.(vec_x) * v.(vec_x) + u.(vec_y) * v.(vec_y).
Definition norm (v : vec) : float := Math_sqrt (dot v v).
Definition dist (u v : vec) : float :=
  norm (mkVec (u.(vec_x) - v.(vec_x)) (u.(vec_y) - v.(vec_y))).

Definition clear_cpa (target : Target) : Target :=
  set_tcpa None (set_cpa None target).

(** [updateCpa(selfTarget, target)]; returns the updated target. *)
Definition updateCpa (selfTarget target : Target) : Target :=
  match selfTarget.(x), selfTarget.(y), selfTarget.(vx), selfTarget.(vy),
        target.(x), target.(y), target.(vx), target.(vy) with
  | Some sx, Some sy, Some svx, Some svy, Some tx, Some ty, Some tvx, Some tvy =>
      let dv := mkVec (tvx - svx) (tvy - svy) in
      let dv2 := dot dv dv in
      if lt dv2 0x1.5798ee2308c3ap-27 (* 0.00000001 *) then clear_cpa target
      else
        let w0 := mkVec (tx - sx) (ty - sy) in
        let tcpa := (- dot w0 dv) / dv2 in
        if falsy tcpa || lt tcpa 0 || gt tcpa TCPA_MAX_SECONDS
        then clear_cpa target
        else
          let p1 := mkVec (sx + tcpa * svx) (sy + tcpa * svy) in
          let p2 := mkVec (tx + tcpa * tvx) (ty + tcpa * tvy) in
          let cpa := dist p1 p2 in
          if negb (Number_isFinite cpa) || negb (Number_isFinite tcpa)
          then clear_cpa target
          else set_tcpa (Some (Math_round tcpa))
                 (set_cpa (Some (Math_round cpa)) target)
  | _, _, _, _, _, _, _, _ => clear_cpa target
  end.

Section WithMath.
Context {M : MathLib}.

Definition getDistanceFromLatLonInMeters (lat1 lon1 lat2 lon2 : float) : float :=
  let R := 6371000 in
  let dLat := toRadians (lat2 - lat1) in
  let dLon := toRadians (lon2 - lon1) in
  let a :=
    Math_sin (dLat / 2) * Math_sin (dLat / 2) +
    Math_cos (toRadians lat1) * Math_cos (toRadians lat2) *
      Math_sin (dLon / 2) * Math_sin (dLon / 2) in
  let c := 2 * Math_atan2 (Math_sqrt a) (Math_sqrt (1 - a)) in
  R * c.

(** The longitude difference after the wrap of [getRhumbLineBearing]. *)
Definition wrapLon (diffLon : float) : float :=
  if gt (Math_abs diffLon) Math_PI then
    if gt diffLon 0 then (Math_PI * 2 - diffLon) * -1
    else Math_PI * 2 + diffLon
  else diffLon.

Definition getRhumbLineBearing (lat1 lon1 lat2 lon2 : float) : float :=
  let diffLon := toRadians (lon2 - lon1) in
  let diffPhi :=
    Math_log (Math_tan (toRadians lat2 / 2 + Math_PI / 4) /
              Math_tan (toRadians lat1 / 2 + Math_PI / 4)) in
  let diffLon := wrapLon diffLon in
  js_rem (toDegrees (Math_atan2 diffLon diffPhi) + 360) 360.

(** The bearing as stored: rounded, and 360 or more folded to 0. *)
Definition foldBearing (b : float) : float := if ge b 360 then 0 else b.

Definition calculateRangeAndBearing (selfTarget target : Target) : Target :=
  match selfTarget.(latitude), selfTarget.(longitude),
        target.(latitude), target.(longitude) with
  | Some slat, Some slon, Some tlat, Some tlon =>
      let target :=
        set_range
          (Some (Math_round (getDistanceFromLatLonInMeters slat slon tlat tlon)))
          target in
      let b := Math_round (getRhumbLineBearing slat slon tlat tlon) in
      set_bearing (Some (foldBearing b)) target
  | _, _, _, _ => set_bearing None (set_range None target)
  end.

End WithMath.
End Kinematics.

(* ================================================================== *)
(** * Statements that mutate a target and may throw *)
(* ================================================================== *)

(** A computation on the target being mutated: it ends normally with a
    value or abruptly with an exception, and in both cases leaves the
    target as mutated so far. *)
Definition Exec (A : Type) : Type := Target -> (exn + A) * Target.

Definition ret {A : Type} (a : A) : Exec A := fun t => (inr a, t).
Definition throw {A : Type} (e : exn) : Exec A := fun t => (inl e, t).
Definition bind {A B : Type} (c : Exec A) (k : A -> Exec B) : Exec B :=
  fun t =>
    match c t with
    | (inr a, t') => k a t'
    | (inl e, t') => (inl e, t')
    end.
Definition get : Exec Target := fun t => (inr t, t).
Definition modify (f : Target -> Target) : Exec unit := fun t => (inr tt, f t).
(** An expression that reads the target and may throw. *)
Definition eval {A : Type} (f : Target -> exn + A) : Exec A :=
  fun t => (f t, t).

Declare Scope exec_scope.
Delimit Scope exec_scope with exec.
Notation "x <- c ;; k" := (bind c (fun x => k))
  (at level 61, c at next level, right associativity) : exec_scope.
Notation "c ;; k" := (bind c (fun _ => k))
  (at level 61, right associativity) : exec_scope.

(** [try { body } catch (err) { handler }]: the handler runs on the target
    as the body left it. *)
Definition tryCatch (body : Exec unit) (handler : exn -> Exec unit) : Exec unit :=
  fun t =>
    match body t with
    | (inl e, t') => handler e t'
    | (inr u, t') => (inr u, t')
    end.

(** [console.error(...)]: logging does not touch the target. *)
Definition console_error (e : exn) : Exec unit := ret tt.

(* ================================================================== *)
(** * Risk classifier and priority ranker *)
(* ================================================================== *)

Module Classifier.
Import Num Const.
Local Open Scope float_scope.

(** Property reads on the profile object; reading through [undefined]
    throws a [TypeError]. *)
Definition activeProfile (cp : option CollisionProfiles) : exn + Profile :=
  match cp with
  | None => inl (TypeError "collisionProfiles")
  | Some cp =>
      match assoc cp.(current) cp.(profiles) with
      | Some p => inr p
      | None => inl (TypeError "collisionProfiles[collisionProfiles.current]")
      end
  end.

Definition guardOf (cp : option CollisionProfiles) : exn + GuardZone :=
  match activeProfile cp with
  | inl e => inl e
  | inr p => match p.(guard) with
             | Some g => inr g
             | None => inl (TypeError "guard")
             end
  end.

Definition dangerOf (cp : option CollisionProfiles) : exn + Threshold :=
  match activeProfile cp with
  | inl e => inl e
  | inr p => match p.(danger) with
             | Some d => inr d
             | None => inl (TypeError "danger")
             end
  end.

Definition warningOf (cp : option CollisionProfiles) : exn + Threshold :=
  match activeProfile cp with
  | inl e => inl e
  | inr p => match p.(warning) with
             | Some w => inr w
             | None => inl (TypeError "warning")
             end
  end.

(** [v != null && v < limit]-style tests on an optional number. *)
Definition known_lt (v : option float) (limit : float) : bool :=
  match v with Some r => lt r limit | None => false end.
Definition known_gt (v : option float) (limit : float) : bool :=
  match v with Some r => gt r limit | None => false end.
Definition is_null {A : Type} (v : option A) : bool :=
  match v with Some _ => false | None => true end.

(** The speed gate: [speed === 0 || (sog != null && sog > speed / KNOTS_PER_M_PER_S)]. *)
Definition speedGate (sog : option float) (speed : float) : bool :=
  is_zero_num speed || known_gt sog (speed / KNOTS_PER_M_PER_S).

(** The right-hand side of [target.guardAlarm = ...].  [&&] evaluates its
    right operand, and with it the profile reads, only when the left one
    is true. *)
Definition guardAlarmExpr (cp : option CollisionProfiles) (t : Target)
  : exn + bool :=
  match t.(range) with
  | None => inr false
  | Some r =>
      match guardOf cp with
      | inl e => inl e
      | inr g =>
          inr (lt r (g.(guard_range) * METERS_PER_NM)
               && speedGate t.(sog) g.(guard_speed))
      end
  end.

(** The right-hand side shared by [collisionAlarm] (group [danger]) and
    [collisionWarning] (group [warning]). *)
Definition collisionExpr (group : exn + Threshold) (t : Target) : exn + bool :=
  match t.(cpa) with
  | None => inr false
  | Some c =>
      match group with
      | inl e => inl e
      | inr th =>
          if lt c (th.(thr_cpa) * METERS_PER_NM) then
            match t.(tcpa) with
            | None => inr false
            | Some tc =>
                inr (gt tc 0 && lt tc th.(thr_tcpa)
                     && speedGate t.(sog) th.(thr_speed))
            end
          else inr false
      end
  end.

Definition flag (b : option bool) : bool :=
  match b with Some true => true | _ => false end.

Definition anyDanger (t : Target) : bool :=
  flag t.(guardAlarm) || flag t.(collisionAlarm) || flag t.(sartAlarm)
  || flag t.(mobAlarm) || flag t.(epirbAlarm).

(** [target.tcpa != null && target.tcpa > 0] and the like. *)
Definition positive (v : option float) : bool := known_gt v 0.

(** The [alarmState]/[order] branch. *)
Definition setBase (t : Target) : Target :=
  if anyDanger t then
    set_order (Some PRIORITY_ORDER.DANGER) (set_alarmState (Some danger_state) t)
  else if flag t.(collisionWarning) then
    set_order (Some PRIORITY_ORDER.WARNING) (set_alarmState (Some warning_state) t)
  else if positive t.(tcpa) then
    set_order (Some PRIORITY_ORDER.CLOSING) (set_alarmState None t)
  else
    set_order (Some PRIORITY_ORDER.DIVERGING) (set_alarmState None t).

(** [alarms.join(",")], or [null] for the empty list. *)
Definition alarmList (t : Target) : list string :=
  (if flag t.(guardAlarm) then ["guard"%string] else [])
  ++ (if flag t.(collisionAlarm) || flag t.(collisionWarning)
      then ["cpa"%string] else [])
  ++ (if flag t.(sartAlarm) then ["sart"%string] else [])
  ++ (if flag t.(mobAlarm) then ["mob"%string] else [])
  ++ (if flag t.(epirbAlarm) then ["epirb"%string] else []).

Definition setAlarmType (t : Target) : Target :=
  match alarmList t with
  | [] => set_alarmType None t
  | l => set_alarmType (Some (String.concat "," l)) t
  end.

(** [target.order] as a number (it has just been assigned one). *)
Definition orderNum (t : Target) : float :=
  match t.(order) with Some o => o | None => nan end.

Definition addOrder (d : float) (t : Target) : Target :=
  set_order (Some (orderNum t + d)) t.
Definition subOrder (d : float) (t : Target) : Target :=
  set_order (Some (orderNum t - d)) t.

Definition tcpaAdjust (tc : float) : float :=
  Math_max 0
    (Math_round
       (PRIORITY_WEIGHTS.TCPA_WEIGHT
        - (PRIORITY_WEIGHTS.TCPA_WEIGHT * tc) / 3600)).

Definition cpaAdjust (c : float) : float :=
  Math_max 0
    (Math_round
       (PRIORITY_WEIGHTS.CPA_WEIGHT
        - (PRIORITY_WEIGHTS.CPA_WEIGHT * c) / 5 / METERS_PER_NM)).

Definition rangeAdjust (r : float) : float :=
  Math_min PRIORITY_WEIGHTS.RANGE_WEIGHT_MAX
    (Math_round ((PRIORITY_WEIGHTS.RANGE_WEIGHT_PER_NM * r) / METERS_PER_NM)).

Definition applyTcpa (t : Target) : Target :=
  match t.(tcpa) with
  | Some tc =>
      if gt tc 0 then
        subOrder (tcpaAdjust tc) (subOrder PRIORITY_WEIGHTS.HAS_TCPA_BONUS t)
      else t
  | None => t
  end.

Definition applyCpa (t : Target) : Target :=
  match t.(cpa) with
  | Some c => if gt c 0 then subOrder (cpaAdjust c) t else t
  | None => t
  end.

Definition applyRange (t : Target) : Target :=
  match t.(range) with
  | Some r => if gt r 0 then addOrder (rangeAdjust r) t else t
  | None => t
  end.

Definition applyNoRange (t : Target) : Target :=
  if is_null t.(range) then addOrder PRIORITY_ORDER.NO_RANGE t else t.

Definition clampOrder (t : Target) : Target :=
  set_order
    (Some (Math_max PRIORITY_WEIGHTS.ORDER_MIN
             (Math_min PRIORITY_WEIGHTS.ORDER_MAX (orderNum t)))) t.

Definition startsWith (s p : string) : bool := String.prefix p s.

Local Open Scope exec_scope.

(** The body of the [try] block of [evaluateAlarms], statement by
    statement. *)
Definition evaluateAlarms_body (cp : option CollisionProfiles) : Exec unit :=
  g <- eval (guardAlarmExpr cp) ;;
  modify (set_guardAlarm (Some g)) ;;
  a <- eval (collisionExpr (dangerOf cp)) ;;
  modify (set_collisionAlarm (Some a)) ;;
  w <- eval (collisionExpr (warningOf cp)) ;;
  modify (set_collisionWarning (Some w)) ;;
  modify (fun t => set_sartAlarm (Some (startsWith t.(mmsi) "970")) t) ;;
  modify (fun t => set_mobAlarm (Some (startsWith t.(mmsi) "972")) t) ;;
  modify (fun t => set_epirbAlarm (Some (startsWith t.(mmsi) "974")) t) ;;
  modify setBase ;;
  modify setAlarmType ;;
  modify applyTcpa ;;
  modify applyCpa ;;
  modify applyRange ;;
  modify applyNoRange ;;
  modify clampOrder.

(** [evaluateAlarms(target, collisionProfiles)] as a statement, and the
    target it leaves. *)
Definition evaluateAlarms_exec (cp : option CollisionProfiles) : Exec unit :=
  tryCatch (evaluateAlarms_body cp) console_error.

Definition evaluateAlarms (target : Target) (cp : option CollisionProfiles)
  : Target :=
  snd (evaluateAlarms_exec cp target).

End Classifier.

(* ================================================================== *)
(** * Per-tick recompute *)
(* ================================================================== *)

(** The target store: target objects live in a heap and are referred to
    by address, so that the [selfTarget] argument and the entry of the
    [targets] map for the own vessel are one object, as in the callers. *)
Definition ref := nat.

Record Store : Type := mkStore {
  heap : ref -> Target;
  next : ref;                       (* next free address *)
  entries : list (string * ref)     (* the [targets] Map, in insertion order *)
}.

Definition heap_set (h : ref -> Target) (r : ref) (t : Target) : ref -> Target :=
  fun r' => if Nat.eqb r' r then t else h r'.

Definition with_heap (h : ref -> Target) (st : Store) : Store :=
  mkStore h st.(next) st.(entries).

Module Recompute.
Import Num Const Kinematics Classifier.
Local Open Scope float_scope.

Section WithMath.
Context {M : MathLib}.

(** [a ?? 0]. *)
Definition orZero (a : option float) : float :=
  match a with Some v => v | None => 0 end.

(** [Date.now() - target.lastSeenDate]; the subtraction of [undefined] is NaN. *)
Definition elapsedMs (now : float) (lastSeenDate : option float) : float :=
  match lastSeenDate with Some d => now - d | None => nan end.

Definition ageSeconds (now : float) (lastSeenDate : option float) : float :=
  let lastSeen := Math_round (elapsedMs now lastSeenDate / 1000) in
  if lt lastSeen 0 then 0 else lastSeen.

(** The validity test at the end of [updateSingleTargetDerivedData]. *)
Definition validity (target : Target) (TARGET_MAX_AGE : float) : bool :=
  if is_null target.(latitude) || is_null target.(longitude)
     || known_gt target.(lastSeen) TARGET_MAX_AGE
  then false else true.

(** [updateSingleTargetDerivedData(target, selfTarget, collisionProfiles,
    TARGET_MAX_AGE)]; [now] is what [Date.now()] returns during the call.
    The display strings and the country lookup it also stores are not
    part of the model. *)
Definition updateSingleTargetDerivedData
    (target selfTarget : Target) (collisionProfiles : option CollisionProfiles)
    (TARGET_MAX_AGE : float) (now : float) : Target :=
  let lat := orZero target.(latitude) in
  let lon := orZero target.(longitude) in
  let sog := orZero target.(sog) in
  let cog := orZero target.(cog) in
  let selfLat := orZero selfTarget.(latitude) in
  let clampedSelfLat :=
    Math_max (-0x1.679999999999ap+6) (* -89.9 *)
      (Math_min 0x1.679999999999ap+6 (* 89.9 *) selfLat) in
  let target := set_y (Some (lat * 111120)) target in
  let target :=
    set_x (Some (lon * 111120 * Math_cos (toRadians clampedSelfLat))) target in
  let target := set_vy (Some (sog * Math_cos cog)) target in
  let target := set_vx (Some (sog * Math_sin cog)) target in
  let target :=
    if negb (String.eqb target.(mmsi) selfTarget.(mmsi)) then
      let target := calculateRangeAndBearing selfTarget target in
      let target := updateCpa selfTarget target in
      evaluateAlarms target collisionProfiles
    else target in
  let lastSeen := ageSeconds now target.(lastSeenDate) in
  let target := set_lastSeen (Some lastSeen) target in
  let target := set_isLost (Some (gt lastSeen LOST_TARGET_WARNING_AGE)) target in
  set_isValid (Some (validity target TARGET_MAX_AGE)) target.

(** The [targets.forEach] of [updateDerivedData]; [clock i] is the value
    of [Date.now()] at the [i]-th update of the tick. *)
Fixpoint forEachTarget (es : list (string * ref)) (self : ref)
    (cp : option CollisionProfiles) (TARGET_MAX_AGE : float)
    (clock : nat -> float) (i : nat) (h : ref -> Target) : ref -> Target :=
  match es with
  | [] => h
  | (key, r) :: es' =>
      if negb (String.eqb key (h self).(mmsi)) then
        forEachTarget es' self cp TARGET_MAX_AGE clock (S i)
          (heap_set h r
             (updateSingleTargetDerivedData (h r) (h self) cp TARGET_MAX_AGE
                (clock i)))
      else forEachTarget es' self cp TARGET_MAX_AGE clock i h
  end.

Definition NO_DATA : exn :=
  Error "No GPS position available (no data for our own vessel)".
Definition INVALID_DATA : exn :=
  Error "No GPS position available (data is invalid)".

(** [updateDerivedData(targets, selfTarget, collisionProfiles,
    TARGET_MAX_AGE)].  [selfTarget] is the address of the own vessel's
    object, or [None] when the argument is [undefined]. *)
Definition updateDerivedData (st : Store) (selfTarget : option ref)
    (cp : option CollisionProfiles) (TARGET_MAX_AGE : float)
    (clock : nat -> float) : (exn + unit) * Store :=
  match selfTarget with
  | None => (inl NO_DATA, st)
  | Some self =>
      let h := st.(heap) in
      let h1 :=
        heap_set h self
          (updateSingleTargetDerivedData (h self) (h self) cp TARGET_MAX_AGE
             (clock 0%nat)) in
      if negb (flag (h1 self).(isValid)) then (inl INVALID_DATA, with_heap h1 st)
      else
        (inr tt,
         with_heap
           (forEachTarget st.(entries) self cp TARGET_MAX_AGE clock 1%nat h1) st)
  end.

End WithMath.
End Recompute.

(* ================================================================== *)
(** * Delta ingestion *)
(* ================================================================== *)

(** A SignalK delta.  [upd_timestamp] is the time value (milliseconds)
    that [new Date(update.timestamp)] has, NaN for a missing or
    unparsable timestamp. *)
Record PathValue : Type := mkPathValue { pv_path : string; pv_value : JSON }.
Record Update : Type := mkUpdate {
  upd_timestamp : float;
  upd_values : option (list PathValue)
}.
Record Delta : Type := mkDelta {
  delta_context : option string;
  delta_updates : option (list Update)
}.

Module Ingest.
Local Open Scope string_scope.

(** [v.key]: a [TypeError] on [null] and [undefined], the own property of
    an object, [undefined] on anything else (none of the keys read here
    is a property of a primitive or of an array). *)
Definition getProp (v : JSON) (key : string) : exn + JSON :=
  match v with
  | JNull | JUndefined => inl (TypeError key)
  | JObj kv => inr (match assoc key kv with Some x => x | None => JUndefined end)
  | _ => inr JUndefined
  end.

(** [v?.key]. *)
Definition getPropOpt (v : JSON) (key : string) : JSON :=
  match getProp v key with inr x => x | inl _ => JUndefined end.

Definition truthy (v : JSON) : bool :=
  match v with
  | JNull | JUndefined => false
  | JBool b => b
  | JNum n => negb (Num.falsy n)
  | JStr s => negb (String.eqb s "")
  | JArr _ | JObj _ => true
  end.

(** A numeric leaf as stored in a typed field: SignalK has numbers or
    [null] there. *)
Definition asNumber (v : JSON) : option float :=
  match v with JNum n => Some n | _ => None end.

Definition lower (c : ascii) : ascii :=
  let n := nat_of_ascii c in
  if Nat.leb 65 n && Nat.leb n 90 then ascii_of_nat (n + 32) else c.

(** [s.replace(/imo/i, "")]: the first occurrence of "imo", in any
    letter case, removed. *)
Fixpoint removeImo (s : string) : string :=
  match s with
  | String a (String b (String c rest as tl2) as tl1) =>
      if Ascii.eqb (lower a) "i" && Ascii.eqb (lower b) "m"
         && Ascii.eqb (lower c) "o"
      then rest else String a (removeImo tl1)
  | _ => s
  end.

Fixpoint setProp (key : string) (v : JSON) (kv : list (string * JSON))
  : list (string * JSON) :=
  match kv with
  | [] => [(key, v)]
  | (k, x) :: kv' =>
      if String.eqb key k then (k, v) :: kv' else (k, x) :: setProp key v kv'
  end.

Definition setInfo (key : string) (v : JSON) (t : Target) : Target :=
  set_info (setProp key v t.(info)) t.

Local Open Scope exec_scope.

Definition assign (key : string) (v : JSON) : Exec unit := modify (setInfo key v).

(** The [case ""] branch. *)
Definition applyRoot (v : JSON) : Exec unit :=
  name <- eval (fun _ => getProp v "name") ;;
  if truthy name then assign "name" name
  else
    let callsign := getPropOpt (getPropOpt v "communication") "callsignVhf" in
    if truthy callsign then assign "callsign" callsign
    else
      let imo := getPropOpt (getPropOpt v "registrations") "imo" in
      if truthy imo then
        match imo with
        | JStr s => assign "imo" (JStr (removeImo s))
        | _ => throw (TypeError "replace")
        end
      else ret tt.

(** One [{path, value}] pair: the [switch] of [processDelta]. *)
Definition applyValue (timestamp : float) (pv : PathValue) : Exec unit :=
  let v := pv.(pv_value) in
  let p := pv.(pv_path) in
  if String.eqb p "" then applyRoot v
  else if String.eqb p "navigation.position" then
    lat <- eval (fun _ => getProp v "latitude") ;;
    modify (set_latitude (asNumber lat)) ;;
    lon <- eval (fun _ => getProp v "longitude") ;;
    modify (set_longitude (asNumber lon)) ;;
    modify (set_lastSeenDate (Some timestamp)) ;;
    assign "needsRecalc" (JBool true)
  else if String.eqb p "navigation.courseOverGroundTrue" then
    modify (set_cog (asNumber v)) ;; assign "needsRecalc" (JBool true)
  else if String.eqb p "navigation.speedOverGround" then
    modify (set_sog (asNumber v)) ;; assign "needsRecalc" (JBool true)
  else if String.eqb p "navigation.magneticVariation" then assign "magvar" v
  else if String.eqb p "navigation.headingTrue" then assign "hdg" v
  else if String.eqb p "navigation.rateOfTurn" then assign "rot" v
  else if String.eqb p "design.aisShipType" then
    id <- eval (fun _ => getProp v "id") ;;
    assign "typeId" id ;;
    name <- eval (fun _ => getProp v "name") ;;
    assign "type" name
  else if String.eqb p "navigation.state" then assign "status" v
  else if String.eqb p "sensors.ais.class" then assign "aisClass" v
  else if String.eqb p "navigation.destination.commonName" then
    assign "destination" v
  else if String.eqb p "design.length" then
    overall <- eval (fun _ => getProp v "overall") ;;
    assign "length" overall
  else if String.eqb p "design.beam" then assign "beam" v
  else if String.eqb p "design.draft" then
    cur <- eval (fun _ => getProp v "current") ;;
    assign "draft" cur
  else if String.eqb p "atonType" then
    id <- eval (fun _ => getProp v "id") ;;
    assign "typeId" id ;;
    name <- eval (fun _ => getProp v "name") ;;
    assign "type" name ;;
    t <- get ;;
    match assoc "status" t.(info) with
    | None | Some JNull | Some JUndefined => assign "status" (JStr "default")
    | Some _ => ret tt
    end
  else if String.eqb p "offPosition" then
    assign "isOffPosition" (JNum (if truthy v then 1 else 0)%float)
  else if String.eqb p "virtual" then
    assign "isVirtual" (JNum (if truthy v then 1 else 0)%float)
  else ret tt.

Fixpoint applyValues (timestamp : float) (vs : list PathValue) : Exec unit :=
  match vs with
  | [] => ret tt
  | pv :: vs' => applyValue timestamp pv ;; applyValues timestamp vs'
  end.

Fixpoint applyUpdates (us : list Update) : Exec unit :=
  match us with
  | [] => ret tt
  | u :: us' =>
      match u.(upd_values) with
      | None => applyUpdates us'
      | Some vs => applyValues u.(upd_timestamp) vs ;; applyUpdates us'
      end
  end.

Local Close Scope exec_scope.

(** [context.slice(-9)]. *)
Definition slice9 (s : string) : string :=
  String.substring (String.length s - 9) 9 s.

Definition isDigit (c : ascii) : bool :=
  let n := nat_of_ascii c in Nat.leb 48 n && Nat.leb n 57.

Fixpoint allDigits (s : string) : bool :=
  match s with
  | EmptyString => true
  | String c s' => isDigit c && allDigits s'
  end.

(** [/^[0-9]{9}$/.test(mmsi)]. *)
Definition isMmsi (s : string) : bool :=
  Nat.eqb (String.length s) 9 && allDigits s.

(** [{ sog: 0, cog: 0, mmsi: mmsi, needsRecalc: true }]. *)
Definition newTarget (mmsi : string) : Target :=
  mkTarget mmsi None None None (Some 0%float) (Some 0%float) None
    [("needsRecalc", JBool true)]
    None None None None None None None None
    None None None None None None None None None None None None.

(** [targets.get(mmsi)] and [targets.set(mmsi, target)]. *)
Definition mapGet (st : Store) (mmsi : string) : option ref :=
  assoc mmsi st.(entries).

Fixpoint setEntry (key : string) (r : ref) (es : list (string * ref))
  : list (string * ref) :=
  match es with
  | [] => [(key, r)]
  | (k, x) :: es' =>
      if String.eqb key k then (k, r) :: es' else (k, x) :: setEntry key r es'
  end.

Definition mapSet (mmsi : string) (r : ref) (st : Store) : Store :=
  mkStore st.(heap) st.(next) (setEntry mmsi r st.(entries)).

Definition mapHas (st : Store) (mmsi : string) : bool :=
  match mapGet st mmsi with Some _ => true | None => false end.

(** [processDelta(delta, targets)]: the outcome ([null] is [None]) and
    the store after the call. *)
Definition processDelta (delta : Delta) (st : Store)
  : (exn + option string) * Store :=
  match delta.(delta_context) with
  | None => (inr None, st)
  | Some ctx =>
      if String.eqb ctx "" then (inr None, st)
      else
        let mmsi := slice9 ctx in
        if negb (isMmsi mmsi) then (inr None, st)
        else
          (* let target = targets.get(mmsi); if (!target) target = {...} *)
          let '(r, st) :=
            match mapGet st mmsi with
            | Some r => (r, st)
            | None =>
                (st.(next),
                 mkStore (heap_set st.(heap) st.(next) (newTarget mmsi))
                   (S st.(next)) st.(entries))
            end in
          let st :=
            with_heap
              (heap_set st.(heap) r (set_context (Some ctx) (st.(heap) r))) st in
          match delta.(delta_updates) with
          | None => (inr (Some mmsi), st)
          | Some us =>
              let '(res, t) := applyUpdates us (st.(heap) r) in
              let st := with_heap (heap_set st.(heap) r t) st in
              match res with
              | inl e => (inl e, st)
              | inr _ => (inr (Some mmsi), mapSet mmsi r st)
              end
          end
  end.

End Ingest.

(* ================================================================== *)
(** * Specification vocabulary *)
(* ================================================================== *)

(** ** Binary64 numbers as [spec_float]s *)

Module FloatSpec.
Local Open Scope Z_scope.

(** The number of binary digits of a mantissa. *)
Definition digits (p : positive) : Z := Zpos (digits2_pos p).

(** The canonical exponent of a binary64 number with [e] as the exponent
    of its leading digit plus one. *)
Definition fexp64 (e : Z) : Z := Z.max (e - 53) (-1074).

(** The mantissa of [m * 2^e] at exponent [f]. *)
Definition rescale (m : positive) (e f : Z) : positive :=
  Z.to_pos (Z.shiftl (Zpos m) (e - f)).

(** The sign of a rounded result is the sign given, and it is a number. *)
Inductive signed (s : bool) : spec_float -> Prop :=
| signed_zero : signed s (S754_zero s)
| signed_infinity : signed s (S754_infinity s)
| signed_finite m e : signed s (S754_finite s m e).

(** A number of at most [2^K]. *)
Definition atMost (K : Z) (sf : spec_float) : Prop :=
  match sf with
  | S754_nan => False
  | S754_zero _ => True
  | S754_infinity s => s = true
  | S754_finite s m e => s = true \/ (e <= K /\ Zpos m <= 2 ^ (K - e))
  end.

(** The canonical form of the integer [p] (below [2^53]) with sign [s]. *)
Definition intSF (s : bool) (p : positive) : spec_float :=
  S754_finite s (rescale p 0 (digits p - 53)) (digits p - 53).

(** The canonical form of an integer. *)
Definition Z2SF (n : Z) : spec_float :=
  match n with
  | Z0 => S754_zero false
  | Zpos p => intSF false p
  | Zneg p => intSF true p
  end.

End FloatSpec.

(** ** Closest point of approach *)

Module CpaSpec.
Import Num Const Kinematics.
Local Open Scope float_scope.

(** The eight planar fields [updateCpa] reads. *)
Record CpaInput : Type := mkCpaInput {
  in_sx : float; in_sy : float; in_svx : float; in_svy : float;
  in_tx : float; in_ty : float; in_tvx : float; in_tvy : float
}.

Definition planar (selfTarget target : Target) (i : CpaInput) : Prop :=
  selfTarget.(x) = Some i.(in_sx) /\ selfTarget.(y) = Some i.(in_sy) /\
  selfTarget.(vx) = Some i.(in_svx) /\ selfTarget.(vy) = Some i.(in_svy) /\
  target.(x) = Some i.(in_tx) /\ target.(y) = Some i.(in_ty) /\
  target.(vx) = Some i.(in_tvx) /\ target.(vy) = Some i.(in_tvy).

Definition relVelocity (i : CpaInput) : vec :=
  mkVec (i.(in_tvx) - i.(in_svx)) (i.(in_tvy) - i.(in_svy)).

Definition relPosition (i : CpaInput) : vec :=
  mkVec (i.(in_tx) - i.(in_sx)) (i.(in_ty) - i.(in_sy)).

Definition rawTcpa (i : CpaInput) : float :=
  (- dot (relPosition i) (relVelocity i)) / dot (relVelocity i) (relVelocity i).

Definition rawCpa (i : CpaInput) : float :=
  let t := rawTcpa i in
  dist (mkVec (i.(in_sx) + t * i.(in_svx)) (i.(in_sy) + t * i.(in_svy)))
       (mkVec (i.(in_tx) + t * i.(in_tvx)) (i.(in_ty) + t * i.(in_tvy))).

(** Zero, negative, non-finite or beyond the horizon. *)
Definition rejectedTcpa (t : float) : bool :=
  is_zero_num t || lt t 0 || negb (Number_isFinite t) || gt t TCPA_MAX_SECONDS.

(** What the specification's wording has [updateCpa] store, as (cpa, tcpa):
    the distance is stored whatever it is. *)
Definition cpaAsClaimed (i : CpaInput) : option float * option float :=
  if lt (dot (relVelocity i) (relVelocity i)) 0x1.5798ee2308c3ap-27 then (None, None)
  else if rejectedTcpa (rawTcpa i) then (None, None)
  else (Some (Math_round (rawCpa i)), Some (Math_round (rawTcpa i))).

(** What the source stores: the same, except that a distance that is not
    finite clears both. *)
Definition cpaAmended (i : CpaInput) : option float * option float :=
  if lt (dot (relVelocity i) (relVelocity i)) 0x1.5798ee2308c3ap-27 then (None, None)
  else if rejectedTcpa (rawTcpa i) then (None, None)
  else if negb (Number_isFinite (rawCpa i)) then (None, None)
  else (Some (Math_round (rawCpa i)), Some (Math_round (rawTcpa i))).

End CpaSpec.

(** ** Classification *)

Module ClassifierSpec.
Import Num Const Classifier.
Local Open Scope float_scope.

(** The three identity flags, set from the MMSI prefix. *)
Definition withIdFlags (t : Target) : Target :=
  set_epirbAlarm (Some (startsWith t.(mmsi) "974"))
    (set_mobAlarm (Some (startsWith t.(mmsi) "972"))
      (set_sartAlarm (Some (startsWith t.(mmsi) "970")) t)).

(** The statements after the three threshold tests; none of them throws. *)
Definition rank (t : Target) : Target :=
  clampOrder (applyNoRange (applyRange (applyCpa (applyTcpa (setAlarmType (setBase
    (withIdFlags t))))))).

(** The body stops at one of the three threshold tests: the exception
    raised and the target as left. *)
Inductive Abrupt (cp : option CollisionProfiles) (t : Target)
  : exn -> Target -> Prop :=
| stop_guard e :
    guardAlarmExpr cp t = inl e -> Abrupt cp t e t
| stop_danger g e :
    guardAlarmExpr cp t = inr g ->
    collisionExpr (dangerOf cp) t = inl e ->
    Abrupt cp t e (set_guardAlarm (Some g) t)
| stop_warning g a e :
    guardAlarmExpr cp t = inr g ->
    collisionExpr (dangerOf cp) t = inr a ->
    collisionExpr (warningOf cp) t = inl e ->
    Abrupt cp t e (set_collisionAlarm (Some a) (set_guardAlarm (Some g) t)).

(** The body runs to its end. *)
Definition Completes (cp : option CollisionProfiles) (t t' : Target) : Prop :=
  exists g a w,
    guardAlarmExpr cp t = inr g /\ collisionExpr (dangerOf cp) t = inr a /\
    collisionExpr (warningOf cp) t = inr w /\
    t' = rank (set_collisionWarning (Some w)
           (set_collisionAlarm (Some a) (set_guardAlarm (Some g) t))).

(** The fields the classifier only reads. *)
Definition sameInputs (t t' : Target) : Prop :=
  t'.(mmsi) = t.(mmsi) /\ t'.(context) = t.(context) /\
  t'.(latitude) = t.(latitude) /\ t'.(longitude) = t.(longitude) /\
  t'.(sog) = t.(sog) /\ t'.(cog) = t.(cog) /\
  t'.(lastSeenDate) = t.(lastSeenDate) /\ t'.(info) = t.(info) /\
  t'.(x) = t.(x) /\ t'.(y) = t.(y) /\ t'.(vx) = t.(vx) /\ t'.(vy) = t.(vy) /\
  t'.(range) = t.(range) /\ t'.(bearing) = t.(bearing) /\
  t'.(cpa) = t.(cpa) /\ t'.(tcpa) = t.(tcpa) /\
  t'.(lastSeen) = t.(lastSeen) /\ t'.(isLost) = t.(isLost) /\
  t'.(isValid) = t.(isValid).

(** The six alarm flags, which the ranking steps only read. *)
Definition sameFlags (t t' : Target) : Prop :=
  t'.(guardAlarm) = t.(guardAlarm) /\ t'.(collisionAlarm) = t.(collisionAlarm) /\
  t'.(collisionWarning) = t.(collisionWarning) /\
  t'.(sartAlarm) = t.(sartAlarm) /\ t'.(mobAlarm) = t.(mobAlarm) /\
  t'.(epirbAlarm) = t.(epirbAlarm).

(** ** The guard alarm *)
Definition inGuardZone (t : Target) (g : GuardZone) : Prop :=
  (exists r, t.(range) = Some r /\
             lt r (g.(guard_range) * METERS_PER_NM) = true) /\
  (is_zero_num g.(guard_speed) = true \/
   exists s, t.(sog) = Some s /\
             gt s (g.(guard_speed) / KNOTS_PER_M_PER_S) = true).

(** ** Exceptions *)
(** The fields assigned after the three threshold tests. *)
Definition sameLateFields (t t' : Target) : Prop :=
  t'.(collisionWarning) = t.(collisionWarning) /\
  t'.(sartAlarm) = t.(sartAlarm) /\ t'.(mobAlarm) = t.(mobAlarm) /\
  t'.(epirbAlarm) = t.(epirbAlarm) /\ t'.(alarmState) = t.(alarmState) /\
  t'.(alarmType) = t.(alarmType) /\ t'.(order) = t.(order).

(** The active profile exists and has its three threshold groups. *)
Definition wellFormed (cp : option CollisionProfiles) : Prop :=
  exists g d w, guardOf cp = inr g /\ dangerOf cp = inr d /\ warningOf cp = inr w.

(** The order computation as a function of the base value and of the
    three quantities it reads. *)
Definition baseOrder (t : Target) : float :=
  if anyDanger t then PRIORITY_ORDER.DANGER
  else if flag t.(collisionWarning) then PRIORITY_ORDER.WARNING
  else if positive t.(tcpa) then PRIORITY_ORDER.CLOSING
  else PRIORITY_ORDER.DIVERGING.

Definition tcpaStep (tc : option float) (o : float) : float :=
  match tc with
  | Some v =>
      if gt v 0 then o - PRIORITY_WEIGHTS.HAS_TCPA_BONUS - tcpaAdjust v else o
  | None => o
  end.

Definition cpaStep (c : option float) (o : float) : float :=
  match c with
  | Some v => if gt v 0 then o - cpaAdjust v else o
  | None => o
  end.

Definition rangeStep (r : option float) (o : float) : float :=
  match r with
  | Some v => if gt v 0 then o + rangeAdjust v else o
  | None => o
  end.

Definition noRangeStep (r : option float) (o : float) : float :=
  if is_null r then o + PRIORITY_ORDER.NO_RANGE else o.

Definition clampStep (o : float) : float :=
  Math_max PRIORITY_WEIGHTS.ORDER_MIN (Math_min PRIORITY_WEIGHTS.ORDER_MAX o).

Definition orderFrom (b : float) (tc c r : option float) : float :=
  clampStep (noRangeStep r (rangeStep r (cpaStep c (tcpaStep tc b)))).

(** ** The steps on integer orders *)
Definition shifts (step : float -> float) (lo hi : Z) : Prop :=
  exists d, (lo <= d <= hi)%Z /\
    forall B, (5000 <= B <= 200000)%Z -> step (of_Z B) = of_Z (B + d).

End ClassifierSpec.

(** ** Recompute *)

Module RecomputeSpec.
Import Num Const Kinematics Classifier Recompute.
Local Open Scope float_scope.

Section WithMath.
Context {M : MathLib}.

(** The reported fields, which no step of the recompute writes. *)
Definition sameReport (t t' : Target) : Prop :=
  t'.(mmsi) = t.(mmsi) /\ t'.(latitude) = t.(latitude) /\
  t'.(longitude) = t.(longitude) /\ t'.(sog) = t.(sog) /\
  t'.(cog) = t.(cog) /\ t'.(lastSeenDate) = t.(lastSeenDate).

(** The target after the classification step of
    [updateSingleTargetDerivedData]. *)
Definition classified (target selfTarget : Target)
    (cp : option CollisionProfiles) : Target :=
  let target := set_y (Some (orZero target.(latitude) * 111120)) target in
  let target :=
    set_x (Some (orZero target.(longitude) * 111120 *
                 Math_cos (Kinematics.toRadians
                   (Math_max (-0x1.679999999999ap+6)
                      (Math_min 0x1.679999999999ap+6
                         (orZero selfTarget.(latitude)))))))
      target in
  let target := set_vy (Some (orZero target.(sog) * Math_cos (orZero target.(cog)))) target in
  let target := set_vx (Some (orZero target.(sog) * Math_sin (orZero target.(cog)))) target in
  if negb (String.eqb target.(mmsi) selfTarget.(mmsi)) then
    evaluateAlarms (updateCpa selfTarget (calculateRangeAndBearing selfTarget target)) cp
  else target.

(** ** Range and bearing *)
Definition known (v : option float) : Prop := v <> None.

Definition bothFixes (selfTarget target : Target) : Prop :=
  known selfTarget.(latitude) /\ known selfTarget.(longitude) /\
  known target.(latitude) /\ known target.(longitude).


End WithMath.
End RecomputeSpec.

(** ** Bearing *)

Module BearingSpec.
Import Num.
Local Open Scope float_scope.

(** A whole number of degrees from 0 to 359. *)
Definition wholeDegrees (b : float) : Prop :=
  is_integer b = true /\ (0 <=? b) = true /\ (b <? 360) = true.

End BearingSpec.

(** ** Inputs used in examples *)

Module Samples.
Local Open Scope string_scope.
Local Open Scope float_scope.

(** First-order stand-ins for the host's functions, used to run examples. *)
Definition linearMath : MathLib :=
  {| Math_sin := fun v => v;
     Math_cos := fun _ => 1;
     Math_tan := fun v => v;
     Math_log := fun v => v - 1;
     Math_atan2 := fun a b => a / b |}.

(** A target with a position report and nothing derived yet. *)
Definition reported (mmsi : string) (lat lon : option float)
    (lastSeenDate : option float) : Target :=
  mkTarget mmsi None lat lon (Some 0) (Some 0) lastSeenDate []
    None None None None None None None None
    None None None None None None None None None None None None.

(** A target with planar position and velocity. *)
Definition moving (mmsi : string) (px py pvx pvy : float) : Target :=
  set_vy (Some pvy) (set_vx (Some pvx) (set_y (Some py) (set_x (Some px)
    (reported mmsi (Some 0) (Some 0) None)))).

(** A target as the kinematics engine hands it to the classifier. *)
Definition tracked (mmsi : string) (r c tc : option float) : Target :=
  set_tcpa tc (set_cpa c (set_range r (reported mmsi (Some 0) (Some 0) None))).

Definition ownShip : Target := moving "000000001" 0 0 0 0.

Definition ownShipInput (px py pvx pvy : float) : CpaSpec.CpaInput :=
  CpaSpec.mkCpaInput 0 0 0 0 px py pvx pvy.

(** 100 m west and 30 m north, steaming east at 1 m/s. *)
Definition crossing : Target := moving "123456789" (-100) 30 1 0.

(** 1 m west and 2^700 m north, steaming east at 1 m/s. *)
Definition farNorth : Target := moving "123456789" (-1) 0x1p+700 1 0.

Definition harbor : Profile :=
  mkProfile (Some (mkThreshold 0.5 600 0.5)) (Some (mkThreshold 0.125 300 3))
    (Some (mkGuardZone 0.5 0)).

Definition harborProfiles : option CollisionProfiles :=
  Some (mkCollisionProfiles "harbor" [("harbor", harbor)]).

(** A profile object whose active profile has a guard group only. *)
Definition guardOnlyProfiles : option CollisionProfiles :=
  Some (mkCollisionProfiles "harbor"
          [("harbor", mkProfile None None (Some (mkGuardZone 0.5 0)))]).

Definition nearby : Target := tracked "123456789" (Some 556) (Some 30) (Some 100).

Definition sart : Target := tracked "970123456" (Some 5000) None None.

Definition vessel : Target := tracked "123456789" (Some 5000) None None.

Definition emptyStore : Store := mkStore (fun _ => reported "" None None None) 0%nat [].

Definition contextOnly : Delta :=
  mkDelta (Some "vessels.urn:mrn:imo:mmsi:123456789") None.

Definition nullPosition : Delta :=
  mkDelta (Some "vessels.urn:mrn:imo:mmsi:123456789")
    (Some [mkUpdate 0 (Some [mkPathValue "navigation.position" JNull])]).

(** A store whose own vessel (address 0) has no position yet. *)
Definition noFixStore : Store :=
  mkStore (fun r => match r with
                    | O => reported "000000001" None None (Some 0)
                    | S _ => reported "123456789" (Some 39) (Some (-75)) (Some 0)
                    end)
    2%nat [("000000001", 0%nat); ("123456789", 1%nat)].

Definition southPole (mmsi : string) (lon : float) : Target :=
  reported mmsi (Some (-90)) (Some lon) (Some 0).

Definition equator : Target := reported "123456789" (Some 0) (Some 0) (Some 0).

Definition ownFix : Target := reported "000000001" (Some 39) (Some (-75)) (Some 0).

End Samples.

(* ================================================================== *)
(** * Maritime identification digits *)
(* ================================================================== *)

Module Mid.
Import Classifier.
Local Open Scope string_scope.

(** [getMid(mmsi)]: the three digits of the MMSI that name the flag
    state, found behind the prefix that names the kind of station.
    [substring(a, b)] is clipped to the string, as [String.substring]
    is. *)
Definition getMid (mmsi : string) : string :=
  if startsWith mmsi "111" || startsWith mmsi "970" then
    String.substring 3 3 mmsi
  else if startsWith mmsi "00" || startsWith mmsi "98" || startsWith mmsi "99"
  then String.substring 2 3 mmsi
  else if startsWith mmsi "0" || startsWith mmsi "8" then
    String.substring 1 3 mmsi
  else String.substring 0 3 mmsi.

End Mid.

(* ================================================================== *)
(** * The plugin ([index.mjs]) *)
(* ================================================================== *)

Module Plugin.
Import Num Ingest.
Local Open Scope string_scope.
Local Open Scope float_scope.

(** [target.alarmIsMuted], one of the untyped properties of a target. *)
Definition alarmIsMuted (t : Target) : JSON :=
  match assoc "alarmIsMuted" t.(info) with
  | Some v => v
  | None => JUndefined
  end.




(** What a route answers. *)
Inductive Response : Type :=
| BadRequest (error : string)   (* [res.status(400).json({ error })] *)
| NotFound (error : string)     (* [res.status(404).json({ error })] *)
| Success.                      (* [res.json({ success: true })] *)

Definition isUndefined (v : JSON) : bool :=
  match v with JUndefined => true | _ => false end.

(** [PUT /setAlarmIsMuted] with the request body [body]. *)
Definition setAlarmIsMuted (body : JSON) (st : Store)
  : (exn + Response) * Store :=
  match getProp body "mmsi", getProp body "alarmIsMuted" with
  | inr mmsi, inr muted =>
      if negb (truthy mmsi) || isUndefined muted then
        (inr (BadRequest "mmsi and alarmIsMuted required"), st)
      else
        match mmsi with
        | JStr m =>
            if isMmsi m then
              match mapGet st m with
              | Some r =>
                  (inr Success,
                   with_heap
                     (heap_set st.(heap) r
                        (setInfo "alarmIsMuted" (JBool (truthy muted))
                           (st.(heap) r))) st)
              | None => (inr (NotFound "Target not found"), st)
              end
            else (inr (BadRequest "Invalid MMSI format (must be 9 digits)"), st)
        | _ => (inr (BadRequest "Invalid MMSI format (must be 9 digits)"), st)
        end
  | inl e, _ | _, inl e => (inl e, st)
  end.

(** The publish thresholds of [shared/constants.mjs]. *)
Module PUBLISH_THRESHOLDS.
Definition CPA_METERS : float := 10.
Definition TCPA_SECONDS : float := 5.
Definition RANGE_METERS : float := 10.
Definition BEARING_DEGREES : float := 1.
End PUBLISH_THRESHOLDS.

(** A property that holds a value of type [A], [null], or was never
    assigned.  [hasTargetDataChanged] tells the last two apart. *)
Inductive slot (A : Type) : Type :=
| Undefined
| Null
| Val (a : A).
Arguments Undefined {A}.
Arguments Null {A}.
Arguments Val {A} a.

(** The properties of a target that [hasTargetDataChanged] reads: the
    five current values and what was published last. *)
Record PublishFields : Type := mkPublishFields {
  p_cpa : slot float;
  p_tcpa : slot float;
  p_range : slot float;
  p_bearing : slot float;
  p_alarmState : slot AlarmState;
  lastPublishedCpa : slot float;
  lastPublishedTcpa : slot float;
  lastPublishedRange : slot float;
  lastPublishedBearing : slot float;
  lastPublishedAlarmState : slot AlarmState
}.

(** [v == null]. *)
Definition nullish {A : Type} (v : slot A) : bool :=
  match v with Val _ => false | _ => true end.

(** [a !== b] on alarm states. *)
Definition differs (a b : slot AlarmState) : bool :=
  match a, b with
  | Undefined, Undefined | Null, Null => false
  | Val danger_state, Val danger_state => false
  | Val warning_state, Val warning_state => false
  | _, _ => true
  end.

(** [cur != null && last != null && Math.abs(cur - last) > threshold]. *)
Definition movedBy (cur last : slot float) (threshold : float) : bool :=
  match cur, last with
  | Val c, Val l => gt (Math_abs (c - l)) threshold
  | _, _ => false
  end.

Definition hasTargetDataChanged (t : PublishFields) : bool :=
  match t.(lastPublishedCpa) with
  | Undefined => true
  | _ =>
      if differs t.(p_alarmState) t.(lastPublishedAlarmState) then true
      else if movedBy t.(p_cpa) t.(lastPublishedCpa) PUBLISH_THRESHOLDS.CPA_METERS
      then true
      else if movedBy t.(p_tcpa) t.(lastPublishedTcpa)
                PUBLISH_THRESHOLDS.TCPA_SECONDS
      then true
      else if movedBy t.(p_range) t.(lastPublishedRange)
                PUBLISH_THRESHOLDS.RANGE_METERS
      then true
      else if movedBy t.(p_bearing) t.(lastPublishedBearing)
                PUBLISH_THRESHOLDS.BEARING_DEGREES
      then true
      else if negb (Bool.eqb (nullish t.(p_cpa)) (nullish t.(lastPublishedCpa)))
              || negb (Bool.eqb (nullish t.(p_tcpa))
                         (nullish t.(lastPublishedTcpa)))
      then true
      else false
  end.

(** The five assignments of [refreshDataModel] after a target was
    published. *)
Definition storeLastPublished (t : PublishFields) : PublishFields :=
  mkPublishFields t.(p_cpa) t.(p_tcpa) t.(p_range) t.(p_bearing)
    t.(p_alarmState)
    t.(p_cpa) t.(p_tcpa) t.(p_range) t.(p_bearing) t.(p_alarmState).

End Plugin.

(* ================================================================== *)
(** * Further vocabulary *)
(* ================================================================== *)

(** ** The order of the binary64 numbers *)

Module OrderSpec.

(** NaN or a number whose sign bit is clear. *)
Definition unsigned (sf : spec_float) : Prop :=
  sf = S754_nan \/ FloatSpec.signed false sf.

(** The place of a number in the order of the binary64 numbers: its class
    (negative infinity, negative, zero, positive, positive infinity), then
    its exponent, then its mantissa, the last two negated for a negative
    number. *)
Definition place (f : spec_float) : Z * Z * Z :=
  match f with
  | S754_infinity true => (-2, 0, 0)
  | S754_finite true m e => (-1, - e, - Zpos m)
  | S754_zero _ | S754_nan => (0, 0, 0)
  | S754_finite false m e => (1, e, Zpos m)
  | S754_infinity false => (2, 0, 0)
  end%Z.

(** A zero of either sign, or NaN: what [!v] is true of. *)
Definition zeroish (sf : spec_float) : Prop :=
  match sf with S754_zero _ | S754_nan => True | _ => False end.

(** The lexicographic order of places. *)
Definition before (p q : Z * Z * Z) : Prop :=
  let '(a, b, c) := p in
  let '(a', b', c') := q in
  (a < a' \/ (a = a' /\ (b < b' \/ (b = b' /\ c < c'))))%Z.

End OrderSpec.

(** ** The target store *)

Module StoreSpec.
Import Ingest.

(** Every entry of the map points below the next free address, at an
    object whose [mmsi] is the key. *)
Definition keyed (st : Store) : Prop :=
  forall k r, In (k, r) st.(entries) ->
    (st.(heap) r).(mmsi) = k /\ r < st.(next).

(** The id a delta is about: the last nine characters of its context, when
    they are nine digits. *)
Definition targetId (delta : Delta) : option string :=
  match delta.(delta_context) with
  | Some ctx => if isMmsi (slice9 ctx) then Some (slice9 ctx) else None
  | None => None
  end.

(** The object a delta for [id] is merged into, and where it lives. *)
Definition mergeInto (st : Store) (id : string) : Target :=
  match mapGet st id with
  | Some r => st.(heap) r
  | None => newTarget id
  end.

Definition placeOf (st : Store) (id : string) : ref :=
  match mapGet st id with
  | Some r => r
  | None => st.(next)
  end.

(** The fields the recompute derives; ingestion leaves them alone. *)
Definition sameDerived (t t' : Target) : Prop :=
  t'.(mmsi) = t.(mmsi) /\
  t'.(x) = t.(x) /\ t'.(y) = t.(y) /\ t'.(vx) = t.(vx) /\ t'.(vy) = t.(vy) /\
  t'.(range) = t.(range) /\ t'.(bearing) = t.(bearing) /\
  t'.(cpa) = t.(cpa) /\ t'.(tcpa) = t.(tcpa) /\
  t'.(guardAlarm) = t.(guardAlarm) /\
  t'.(collisionAlarm) = t.(collisionAlarm) /\
  t'.(collisionWarning) = t.(collisionWarning) /\
  t'.(sartAlarm) = t.(sartAlarm) /\ t'.(mobAlarm) = t.(mobAlarm) /\
  t'.(epirbAlarm) = t.(epirbAlarm) /\
  t'.(alarmState) = t.(alarmState) /\ t'.(alarmType) = t.(alarmType) /\
  t'.(order) = t.(order) /\
  t'.(lastSeen) = t.(lastSeen) /\ t'.(isLost) = t.(isLost) /\
  t'.(isValid) = t.(isValid).

(** No key occurs twice, as in a [Map]. *)
Definition uniqueKeys (st : Store) : Prop := NoDup (map fst st.(entries)).


(** A statement that leaves the derived fields of the target alone,
    however it ends. *)
Definition Quiet {A : Type} (c : Exec A) : Prop :=
  forall t, sameDerived t (snd (c t)).

(** A delta with one update that carries one value. *)
Definition single (ctx : string) (timestamp : float) (path : string)
    (value : JSON) : Delta :=
  mkDelta (Some ctx) (Some [mkUpdate timestamp (Some [mkPathValue path value])]).

End StoreSpec.

(** ** Classification *)

Module VerdictSpec.
Import Num Const Classifier.
Local Open Scope string_scope.

(** The MMSI is that of a distress beacon: AIS-SART, MOB device or
    EPIRB. *)
Definition isBeacon (t : Target) : bool :=
  startsWith t.(mmsi) "970" || startsWith t.(mmsi) "972"
  || startsWith t.(mmsi) "974".

(** The state that goes with the flags. *)
Definition stateOf (t : Target) : option AlarmState :=
  if anyDanger t then Some danger_state
  else if flag t.(collisionWarning) then Some warning_state
  else None.

(** The fields [evaluateAlarms] writes. *)
Definition sameVerdict (t t' : Target) : Prop :=
  t'.(guardAlarm) = t.(guardAlarm) /\
  t'.(collisionAlarm) = t.(collisionAlarm) /\
  t'.(collisionWarning) = t.(collisionWarning) /\
  t'.(sartAlarm) = t.(sartAlarm) /\ t'.(mobAlarm) = t.(mobAlarm) /\
  t'.(epirbAlarm) = t.(epirbAlarm) /\
  t'.(alarmState) = t.(alarmState) /\ t'.(alarmType) = t.(alarmType) /\
  t'.(order) = t.(order).

End VerdictSpec.

(** ** Further inputs used in examples *)

Module Fleet.
Import Samples.


End Fleet.

(* ================================================================== *)
(** * Proofs *)
(* ================================================================== *)

Ltac split_all := repeat match goal with |- _ /\ _ => split end.

Ltac break_frame :=
  repeat match goal with
         | |- context [if ?c then _ else _] => destruct c eqn:?
         | |- context [match ?v with _ => _ end] => destruct v eqn:?
         end;
  split_all; simpl; congruence.

Ltac step_frame f := unfold f, Classifier.addOrder, Classifier.subOrder; break_frame.

(** ** Classifying a number *)

Module FloatFacts.
Local Open Scope float_scope.

Lemma SFcompare_refl (s : spec_float) :
  s <> S754_nan -> SFcompare s s = Some Eq.
Proof.
  destruct s as [[]|[]| |[] m e]; simpl; try congruence; intros _;
    rewrite Z.compare_refl, Pos.compare_cont_refl; reflexivity.
Qed.

Lemma is_nan_spec (x : float) :
  is_nan x = match Prim2SF x with S754_nan => true | _ => false end.
Proof.
  unfold is_nan. rewrite eqb_spec. unfold SFeqb.
  destruct (Prim2SF x) eqn:E; try reflexivity;
    rewrite SFcompare_refl by discriminate; reflexivity.
Qed.

Lemma is_infinity_spec (x : float) :
  is_infinity x = match Prim2SF x with S754_infinity _ => true | _ => false end.
Proof.
  unfold is_infinity. rewrite eqb_spec, abs_spec.
  change (Prim2SF infinity) with (S754_infinity false).
  destruct (Prim2SF x) as [[]|[]| |[] m e]; reflexivity.
Qed.

Lemma is_finite_spec (x : float) :
  is_finite x =
  match Prim2SF x with S754_zero _ | S754_finite _ _ _ => true | _ => false end.
Proof.
  unfold is_finite. rewrite is_nan_spec, is_infinity_spec.
  destruct (Prim2SF x); reflexivity.
Qed.

End FloatFacts.

(** ** Rounding to binary64 *)

Module Rounding.
Import FloatSpec.
Local Open Scope Z_scope.

Lemma digits_pos p : 0 < digits p.
Proof. unfold digits. lia. Qed.

Lemma digits_bounds p : 2 ^ (digits p - 1) <= Zpos p < 2 ^ digits p.
Proof.
  unfold digits. induction p as [p IH|p IH|]; simpl digits2_pos.
  - rewrite Pos2Z.inj_succ.
    replace (Z.succ (Z.pos (digits2_pos p)) - 1) with (Z.pos (digits2_pos p)) by lia.
    rewrite Z.pow_succ_r by lia.
    assert (2 ^ Z.pos (digits2_pos p) = 2 * 2 ^ (Z.pos (digits2_pos p) - 1)).
    { rewrite <- Z.pow_succ_r by lia. f_equal. lia. }
    lia.
  - rewrite Pos2Z.inj_succ.
    replace (Z.succ (Z.pos (digits2_pos p)) - 1) with (Z.pos (digits2_pos p)) by lia.
    rewrite Z.pow_succ_r by lia.
    assert (2 ^ Z.pos (digits2_pos p) = 2 * 2 ^ (Z.pos (digits2_pos p) - 1)).
    { rewrite <- Z.pow_succ_r by lia. f_equal. lia. }
    lia.
  - simpl. lia.
Qed.

Lemma digits_unique p k : 2 ^ (k - 1) <= Zpos p < 2 ^ k -> digits p = k.
Proof.
  intros [Hlo Hhi]. pose proof (digits_bounds p) as [Dlo Dhi].
  pose proof (digits_pos p).
  assert (0 < k).
  { destruct (Z_lt_le_dec 0 k) as [|Hk]; [assumption|]. exfalso.
    destruct (Z.eq_dec k 0) as [->|Hk0]; [simpl in Hhi; lia|].
    rewrite Z.pow_neg_r in Hhi by lia. lia. }
  destruct (Z_lt_le_dec (digits p) k) as [Hlt|Hge].
  - exfalso. assert (2 ^ digits p <= 2 ^ (k - 1)) by (apply Z.pow_le_mono_r; lia). lia.
  - destruct (Z_lt_le_dec k (digits p)) as [Hlt|Hge'].
    + exfalso. assert (2 ^ k <= 2 ^ (digits p - 1)) by (apply Z.pow_le_mono_r; lia). lia.
    + lia.
Qed.

Lemma iter_pos_nat {A : Type} (f : A -> A) (n : positive) (a : A) :
  iter_pos f n a = Nat.iter (Pos.to_nat n) f a.
Proof.
  revert a. induction n as [n IH|n IH|]; intros a; simpl iter_pos.
  - rewrite !IH. rewrite Pos2Nat.inj_xI.
    rewrite <- Nat.iter_add. rewrite <- Nat.iter_succ_r. f_equal. lia.
  - rewrite !IH. rewrite Pos2Nat.inj_xO.
    rewrite <- Nat.iter_add. f_equal. lia.
  - reflexivity.
Qed.

Lemma shr_1_m mrs : 0 <= shr_m mrs -> shr_m (shr_1 mrs) = shr_m mrs / 2.
Proof.
  destruct mrs as [m r s]. simpl. intros Hm.
  destruct m as [|[p|p|]|p]; cbn [shr_1 shr_m]; try lia; try reflexivity.
  - apply Z.div_unique with (r := 1); lia.
  - apply Z.div_unique with (r := 0); lia.
Qed.

Lemma shr_iter_m (k : nat) mrs :
  0 <= shr_m mrs ->
  shr_m (Nat.iter k shr_1 mrs) = shr_m mrs / 2 ^ Z.of_nat k.
Proof.
  intros Hm. induction k as [|k IH].
  - simpl. now rewrite Z.div_1_r.
  - rewrite Nat.iter_succ. rewrite shr_1_m.
    + rewrite IH. rewrite Nat2Z.inj_succ, Z.pow_succ_r by lia.
      rewrite Z.div_div by lia. f_equal. lia.
    + rewrite IH. apply Z.div_pos; lia.
Qed.

Lemma shr_1_exact m :
  0 <= m -> m mod 2 = 0 ->
  shr_1 (Build_shr_record m false false) = Build_shr_record (m / 2) false false.
Proof.
  intros Hm Hev. destruct m as [|[p|p|]|p]; cbn [shr_1]; try reflexivity; try lia.
  - exfalso. rewrite Pos2Z.inj_xI in Hev.
    replace (2 * Z.pos p + 1) with (1 + Z.pos p * 2) in Hev by lia.
    rewrite Z.mod_add in Hev by lia. discriminate.
  - f_equal. apply Z.div_unique with (r := 0); lia.
  - discriminate.
Qed.

Lemma shr_iter_exact (k : nat) m :
  0 <= m -> m mod 2 ^ Z.of_nat k = 0 ->
  Nat.iter k shr_1 (Build_shr_record m false false)
  = Build_shr_record (m / 2 ^ Z.of_nat k) false false.
Proof.
  revert m. induction k as [|k IH]; intros m Hm Hdiv.
  - simpl. now rewrite Z.div_1_r.
  - rewrite Nat.iter_succ_r.
    rewrite Nat2Z.inj_succ, Z.pow_succ_r in Hdiv |- * by lia.
    assert (H2 : m mod 2 = 0).
    { apply Z.mod_divide; [lia|]. apply Z.mod_divide in Hdiv; [|lia].
      destruct Hdiv as [q Hq]. exists (q * 2 ^ Z.of_nat k). lia. }
    rewrite shr_1_exact by assumption.
    rewrite IH.
    + rewrite Z.div_div by lia. reflexivity.
    + apply Z.div_pos; lia.
    + apply Z.mod_divide in Hdiv; [|lia]. destruct Hdiv as [q Hq].
      subst m. replace (q * (2 * 2 ^ Z.of_nat k)) with (q * 2 ^ Z.of_nat k * 2) by lia.
      rewrite Z.div_mul by lia. apply Z.mod_mul. lia.
Qed.

Lemma fexp64_eq e : fexp prec emax e = fexp64 e.
Proof. reflexivity. Qed.

Lemma shr_fexp_eq m e l :
  shr_fexp prec emax m e l
  = shr (shr_record_of_loc m l) e (fexp64 (Zdigits2 m + e) - e).
Proof. reflexivity. Qed.

Lemma shr_nonpos mrs e n : n <= 0 -> shr mrs e n = (mrs, e).
Proof. destruct n; [reflexivity | lia | reflexivity]. Qed.

Lemma shr_pos mrs e n :
  0 < n -> shr mrs e n = (Nat.iter (Z.to_nat n) shr_1 mrs, e + n).
Proof.
  destruct n as [|p|p]; try lia. intros _. unfold shr.
  rewrite iter_pos_nat. reflexivity.
Qed.

Lemma iter_xO mx d : Zpos (Pos.iter xO mx d) = Zpos mx * 2 ^ Zpos d.
Proof.
  change (Pos.iter xO mx d) with (Zpower.shift_pos d mx).
  rewrite Zpower.shift_pos_correct. change (Z.pow_pos 2 d) with (2 ^ Zpos d). lia.
Qed.

Lemma digits_shl mx d : digits (Pos.iter xO mx d) = digits mx + Zpos d.
Proof.
  apply digits_unique. rewrite iter_xO.
  pose proof (digits_bounds mx) as [Hlo Hhi]. pose proof (digits_pos mx).
  replace (digits mx + Z.pos d - 1) with ((digits mx - 1) + Z.pos d) by lia.
  rewrite !Z.pow_add_r by lia.
  assert (0 < 2 ^ Z.pos d) by (apply Z.pow_pos_nonneg; lia).
  split; nia.
Qed.

Lemma digits_div mx n q :
  0 < n -> Zpos mx / 2 ^ n = Zpos q -> digits q = digits mx - n.
Proof.
  intros Hn Hq. apply digits_unique.
  pose proof (digits_bounds mx) as [Hlo Hhi]. pose proof (digits_pos mx).
  assert (Hp : 0 < 2 ^ n) by (apply Z.pow_pos_nonneg; lia).
  assert (Hdn : n < digits mx).
  { destruct (Z_lt_le_dec n (digits mx)); [assumption|]. exfalso.
    assert (2 ^ digits mx <= 2 ^ n) by (apply Z.pow_le_mono_r; lia).
    rewrite Z.div_small in Hq by lia. discriminate. }
  rewrite <- Hq. split.
  - apply Z.div_le_lower_bound; [lia|].
    rewrite <- Z.pow_add_r by lia.
    replace (n + (digits mx - n - 1)) with (digits mx - 1) by lia. lia.
  - apply Z.div_lt_upper_bound; [lia|].
    rewrite <- Z.pow_add_r by lia.
    replace (n + (digits mx - n)) with (digits mx) by lia. lia.
Qed.

(** [binary_round_aux] on a mantissa that already has its canonical exponent. *)
Lemma binary_round_aux_canonical s m e :
  fexp64 (digits m + e) = e -> e <= 971 ->
  binary_round_aux prec emax s (Zpos m) e loc_Exact = S754_finite s m e.
Proof.
  intros Hc He. unfold binary_round_aux.
  rewrite shr_fexp_eq. change (Zdigits2 (Z.pos m)) with (digits m).
  rewrite Hc, Z.sub_diag. rewrite shr_nonpos by lia.
  cbn [shr_record_of_loc shr_m loc_of_shr_record round_nearest_even].
  rewrite shr_fexp_eq. change (Zdigits2 (Z.pos m)) with (digits m).
  rewrite Hc, Z.sub_diag. rewrite shr_nonpos by lia.
  cbn [shr_record_of_loc shr_m].
  change (emax - prec) with 971.
  apply Z.leb_le in He. rewrite He. reflexivity.
Qed.

(** Rounding a representable value is exact. *)
Lemma binary_round_exact s mx ex :
  let f := fexp64 (digits mx + ex) in
  (ex < f -> Zpos mx mod 2 ^ (f - ex) = 0) -> f <= 971 ->
  binary_round prec emax s mx ex = S754_finite s (rescale mx ex f) f.
Proof.
  cbv zeta. remember (fexp64 (digits mx + ex)) as f eqn:Ef.
  intros Hdiv Hf. unfold binary_round, rescale.
  rewrite fexp64_eq. change (Z.pos (digits2_pos mx)) with (digits mx).
  rewrite <- Ef. unfold shl_align.
  destruct (f - ex) as [|p|d] eqn:Hfe.
  - (* already at the canonical exponent *)
    assert (Hex : ex = f) by lia.
    replace (ex - f) with 0 by lia. rewrite Z.shiftl_0_r. simpl Z.to_pos.
    rewrite <- Hex.
    apply binary_round_aux_canonical; [lia | lia].
  - (* low bits are dropped, all of them zero *)
    assert (Hlt : ex < f) by lia. specialize (Hdiv Hlt).
    unfold binary_round_aux.
    rewrite shr_fexp_eq. change (Zdigits2 (Z.pos mx)) with (digits mx).
    rewrite <- Ef, Hfe. rewrite shr_pos by lia.
    cbn [shr_record_of_loc].
    rewrite shr_iter_exact; [|lia|rewrite Z2Nat.id by lia; exact Hdiv].
    rewrite Z2Nat.id by lia.
    cbn [shr_m loc_of_shr_record round_nearest_even].
    assert (Hp : 0 < 2 ^ Z.pos p) by (apply Z.pow_pos_nonneg; lia).
    assert (Hq : 0 < Z.pos mx / 2 ^ Z.pos p).
    { apply Z.mod_divide in Hdiv; [|lia]. destruct Hdiv as [q Hq].
      rewrite Hq, Z.div_mul by lia. nia. }
    destruct (Z.pos mx / 2 ^ Z.pos p) as [|q|q] eqn:Eq; try lia.
    pose proof (@digits_div mx (Z.pos p) q ltac:(lia) Eq) as Hd.
    rewrite shr_fexp_eq. change (Zdigits2 (Z.pos q)) with (digits q).
    rewrite Hd.
    replace (digits mx - Z.pos p + (ex + Z.pos p)) with (digits mx + ex) by lia.
    rewrite <- Ef. replace (f - (ex + Z.pos p)) with 0 by lia.
    rewrite shr_nonpos by lia. cbn [shr_record_of_loc shr_m].
    replace (ex + Z.pos p) with f by lia.
    change (emax - prec) with 971.
    apply Z.leb_le in Hf. rewrite Hf.
    replace (ex - f) with (- Z.pos p) by lia.
    change (Z.shiftl (Z.pos mx) (- Z.pos p)) with (Z.shiftr (Z.pos mx) (Z.pos p)).
    rewrite Z.shiftr_div_pow2 by lia. rewrite Eq. reflexivity.
  - (* the mantissa is shifted left *)
    assert (Hex : ex - f = Z.pos d) by lia. rewrite Hex.
    rewrite Z.shiftl_mul_pow2 by lia. rewrite <- iter_xO. simpl Z.to_pos.
    apply binary_round_aux_canonical; [|assumption].
    rewrite digits_shl.
    replace (digits mx + Z.pos d + f) with (digits mx + ex) by lia. lia.
Qed.

Lemma round_nearest_even_range m l :
  m <= round_nearest_even m l <= m + 1.
Proof.
  destruct l as [|[]]; simpl; try lia. destruct (Z.even m); lia.
Qed.

Lemma shr_record_of_loc_m m l : shr_m (shr_record_of_loc m l) = m.
Proof. destruct l as [|[]]; reflexivity. Qed.

(** The mantissa and exponent after the first shift of [binary_round_aux]. *)
Lemma shr_fexp_m m e l :
  0 <= m ->
  let n := fexp64 (Zdigits2 m + e) - e in
  shr_m (fst (shr_fexp prec emax m e l)) = m / 2 ^ Z.max 0 n /\
  snd (shr_fexp prec emax m e l) = e + Z.max 0 n.
Proof.
  intros Hm n. rewrite shr_fexp_eq. fold n.
  destruct (Z_lt_le_dec 0 n) as [Hn|Hn].
  - rewrite shr_pos by assumption. cbn [fst snd].
    rewrite shr_iter_m by (rewrite shr_record_of_loc_m; assumption).
    rewrite shr_record_of_loc_m, Z2Nat.id by lia.
    rewrite Z.max_r by lia. split; reflexivity.
  - rewrite shr_nonpos by assumption. cbn [fst snd].
    rewrite shr_record_of_loc_m, Z.max_l by lia.
    rewrite Z.div_1_r, Z.add_0_r. split; reflexivity.
Qed.

Lemma binary_round_aux_signed s m e l :
  0 <= m -> signed s (binary_round_aux prec emax s m e l).
Proof.
  intros Hm. unfold binary_round_aux.
  destruct (shr_fexp prec emax m e l) as [mrs' e'] eqn:E1.
  pose proof (shr_fexp_m m e l Hm) as [H1 _]. cbv zeta in H1.
  rewrite E1 in H1. cbn [fst] in H1.
  set (m2 := round_nearest_even (shr_m mrs') (loc_of_shr_record mrs')).
  assert (Hm2 : 0 <= m2).
  { pose proof (round_nearest_even_range (shr_m mrs') (loc_of_shr_record mrs')).
    assert (0 <= shr_m mrs').
    { rewrite H1. apply Z.div_pos; [assumption|]. apply Z.pow_pos_nonneg; lia. }
    subst m2. lia. }
  destruct (shr_fexp prec emax m2 e' loc_Exact) as [mrs'' e''] eqn:E2.
  pose proof (shr_fexp_m m2 e' loc_Exact Hm2) as [H2 _]. cbv zeta in H2.
  rewrite E2 in H2. cbn [fst] in H2.
  assert (0 <= shr_m mrs'').
  { rewrite H2. apply Z.div_pos; [assumption|]. apply Z.pow_pos_nonneg; lia. }
  destruct (shr_m mrs''); try lia; [constructor|].
  destruct (e'' <=? emax - prec); constructor.
Qed.

Lemma binary_round_signed s m e : signed s (binary_round prec emax s m e).
Proof.
  unfold binary_round.
  destruct (shl_align m e _) as [mz ez].
  apply binary_round_aux_signed. lia.
Qed.

Lemma div_pow2_bounds p n :
  0 <= n < digits p ->
  2 ^ (digits p - n - 1) <= Zpos p / 2 ^ n < 2 ^ (digits p - n).
Proof.
  intros [Hn0 Hn]. pose proof (digits_bounds p) as [Hlo Hhi].
  assert (Hp : 0 < 2 ^ n) by (apply Z.pow_pos_nonneg; lia).
  split.
  - apply Z.div_le_lower_bound; [lia|].
    rewrite <- Z.pow_add_r by lia.
    replace (n + (digits p - n - 1)) with (digits p - 1) by lia. lia.
  - apply Z.div_lt_upper_bound; [lia|].
    rewrite <- Z.pow_add_r by lia.
    replace (n + (digits p - n)) with (digits p) by lia. lia.
Qed.

Lemma digits_pow2 q k : 0 <= k -> Zpos q = 2 ^ k -> digits q = k + 1.
Proof.
  intros Hk Hq. apply digits_unique. rewrite Hq.
  replace (k + 1 - 1) with k by lia. split; [lia|].
  apply Z.pow_lt_mono_r; lia.
Qed.

(** A value below [2^K] is rounded to a finite number of at most [2^K],
    provided its mantissa comes with at least the canonical number of
    digits. *)
Lemma binary_round_aux_bound s mz ez l K :
  -1074 <= ez -> ez <= fexp64 (digits mz + ez) ->
  digits mz + ez <= K -> K <= 1023 ->
  exists m' e',
    binary_round_aux prec emax s (Zpos mz) ez l = S754_finite s m' e' /\
    e' <= K /\ Zpos m' <= 2 ^ (K - e').
Proof.
  intros Hemin Hn HK HK'.
  set (D := digits mz + ez) in *. set (f := fexp64 D) in *.
  pose proof (digits_pos mz) as Hdp.
  assert (Hf : f = Z.max (D - 53) (-1074)) by reflexivity.
  unfold binary_round_aux.
  destruct (shr_fexp prec emax (Z.pos mz) ez l) as [mrs' e'] eqn:E1.
  pose proof (@shr_fexp_m (Zpos mz) ez l ltac:(lia)) as [H1 H1e].
  cbv zeta in H1, H1e. rewrite E1 in H1, H1e. cbn [fst snd] in H1, H1e.
  change (Zdigits2 (Z.pos mz)) with (digits mz) in H1, H1e.
  fold D in H1, H1e. fold f in H1, H1e.
  rewrite Z.max_r in H1, H1e by lia.
  assert (He' : e' = f) by lia. clear H1e. subst e'.
  set (n := f - ez) in *.
  assert (Hnd : 0 <= n < digits mz) by (subst n D; lia).
  pose proof (div_pow2_bounds mz n Hnd) as [Hlo Hhi].
  set (d1 := digits mz - n) in *.
  assert (Hd1 : d1 = D - f) by (subst d1 n D; lia).
  assert (Hd1r : 1 <= d1 <= 53) by lia.
  rewrite <- H1 in Hlo, Hhi.
  replace (digits mz - n - 1) with (d1 - 1) in Hlo by lia.
  pose proof (round_nearest_even_range (shr_m mrs') (loc_of_shr_record mrs')) as Hr.
  set (m2 := round_nearest_even (shr_m mrs') (loc_of_shr_record mrs')) in *.
  assert (Hpos1 : 0 < 2 ^ (d1 - 1)) by (apply Z.pow_pos_nonneg; lia).
  assert (Hm2 : 2 ^ (d1 - 1) <= m2 <= 2 ^ d1) by lia.
  destruct m2 as [|q2|q2] eqn:Em2; try lia.
  destruct (shr_fexp prec emax (Z.pos q2) f loc_Exact) as [mrs'' e''] eqn:E2.
  pose proof (@shr_fexp_m (Zpos q2) f loc_Exact ltac:(lia)) as [H2 H2e].
  cbv zeta in H2, H2e. rewrite E2 in H2, H2e. cbn [fst snd] in H2, H2e.
  change (Zdigits2 (Z.pos q2)) with (digits q2) in H2, H2e.
  change (emax - prec) with 971.
  assert (HKf : 0 <= K - f) by lia.
  destruct (Z.eq_dec (Z.pos q2) (2 ^ d1)) as [Hcarry|Hnocarry].
  - (* the rounded mantissa carried into the next binade *)
    rewrite (@digits_pow2 q2 d1 ltac:(lia) Hcarry) in H2, H2e.
    destruct (Z_lt_le_dec (D - 53) (-1074)) as [Hsub|Hnorm].
    + assert (Hz : fexp64 (d1 + 1 + f) - f <= 0) by (unfold fexp64; lia).
      rewrite Z.max_l in H2, H2e by lia.
      rewrite Z.div_1_r in H2. rewrite H2.
      assert (He'' : (e'' <=? 971) = true) by (apply Z.leb_le; lia).
      rewrite He''. exists q2, e''. split; [reflexivity|].
      split; [lia|]. rewrite Hcarry.
      apply Z.pow_le_mono_r; lia.
    + assert (Hz : fexp64 (d1 + 1 + f) - f = 1) by (unfold fexp64; lia).
      rewrite Hz in H2, H2e. rewrite Z.max_r in H2, H2e by lia.
      rewrite Hcarry in H2.
      assert (Hhalf : 2 ^ d1 / 2 ^ 1 = 2 ^ (d1 - 1)).
      { replace d1 with ((d1 - 1) + 1) at 1 by lia.
        rewrite Z.pow_add_r by lia. apply Z.div_mul. lia. }
      rewrite Hhalf in H2.
      destruct (shr_m mrs'') as [|q3|q3] eqn:E3; try lia.
      assert (He'' : (e'' <=? 971) = true) by (apply Z.leb_le; lia).
      rewrite He''. exists q3, e''. split; [reflexivity|].
      split; [lia|]. rewrite H2. apply Z.pow_le_mono_r; lia.
  - (* no carry *)
    assert (Hdq : digits q2 = d1) by (apply digits_unique; lia).
    rewrite Hdq in H2, H2e.
    replace (d1 + f) with D in H2, H2e by lia. fold f in H2, H2e.
    rewrite Z.sub_diag, Z.max_l in H2, H2e by lia.
    rewrite Z.div_1_r in H2. rewrite H2.
    assert (He'' : (e'' <=? 971) = true) by (apply Z.leb_le; lia).
    rewrite He''. exists q2, e''. split; [reflexivity|].
    split; [lia|].
    transitivity (2 ^ d1); [lia|]. apply Z.pow_le_mono_r; lia.
Qed.

Lemma binary_round_bound s mx ex K :
  -1074 <= ex -> digits mx + ex <= K -> K <= 1023 ->
  exists m' e',
    binary_round prec emax s mx ex = S754_finite s m' e' /\
    e' <= K /\ Zpos m' <= 2 ^ (K - e').
Proof.
  intros Hemin HK HK'. unfold binary_round.
  rewrite fexp64_eq. change (Z.pos (digits2_pos mx)) with (digits mx).
  set (f := fexp64 (digits mx + ex)).
  assert (Hf : f = Z.max (digits mx + ex - 53) (-1074)) by reflexivity.
  unfold shl_align. destruct (f - ex) as [|p|d] eqn:Hfe.
  - apply binary_round_aux_bound; try lia; fold f; lia.
  - apply binary_round_aux_bound; try lia; fold f; lia.
  - apply binary_round_aux_bound; try lia; rewrite digits_shl; try lia.
    replace (digits mx + Z.pos d + f) with (digits mx + ex) by lia. fold f. lia.
Qed.

End Rounding.

(** ** Integers as numbers *)

Module IntegerFloats.
Import FloatSpec Rounding.
Local Open Scope Z_scope.

Lemma small_digits p : Zpos p < 2 ^ 53 -> digits p <= 53.
Proof.
  intros H. pose proof (digits_bounds p) as [Hlo _].
  destruct (Z_lt_le_dec 53 (digits p)) as [Hgt|]; [|lia].
  exfalso. assert (2 ^ 53 <= 2 ^ (digits p - 1)) by (apply Z.pow_le_mono_r; lia).
  lia.
Qed.

Lemma rescale_int p :
  digits p <= 53 ->
  Zpos (rescale p 0 (digits p - 53)) = Zpos p * 2 ^ (53 - digits p).
Proof.
  intros Hd. unfold rescale.
  replace (0 - (digits p - 53)) with (53 - digits p) by lia.
  rewrite Z.shiftl_mul_pow2 by lia.
  assert (0 < 2 ^ (53 - digits p)) by (apply Z.pow_pos_nonneg; lia).
  rewrite Z2Pos.id by nia. reflexivity.
Qed.

Lemma digits_mul_pow2 m v k :
  0 <= k -> Zpos m = Zpos v * 2 ^ k -> digits m = digits v + k.
Proof.
  intros Hk Hm. apply digits_unique. rewrite Hm.
  pose proof (digits_bounds v) as [Hlo Hhi]. pose proof (digits_pos v).
  replace (digits v + k - 1) with ((digits v - 1) + k) by lia.
  rewrite !Z.pow_add_r by lia.
  assert (0 < 2 ^ k) by (apply Z.pow_pos_nonneg; lia).
  split; nia.
Qed.

Lemma intSF_digits p : digits p <= 53 -> digits (rescale p 0 (digits p - 53)) = 53.
Proof.
  intros Hd.
  rewrite (digits_mul_pow2 _ p (53 - digits p)); [lia | lia | now apply rescale_int].
Qed.

Lemma intSF_valid s p : Zpos p < 2 ^ 53 -> valid_binary (intSF s p) = true.
Proof.
  intros Hp. apply small_digits in Hp. pose proof (digits_pos p).
  unfold intSF. cbn [SpecFloat.valid_binary]. unfold bounded, canonical_mantissa.
  change (Z.pos (digits2_pos (rescale p 0 (digits p - 53))))
    with (digits (rescale p 0 (digits p - 53))).
  rewrite intSF_digits by assumption. rewrite fexp64_eq. unfold fexp64.
  apply andb_true_iff. split; [apply Z.eqb_eq | apply Z.leb_le].
  - lia.
  - change (emax - prec) with 971. lia.
Qed.

(** Rounding [v * 2^0], given as [M * 2^ez], returns the integer [v]. *)
Lemma round_int s M ez v :
  ez <= 0 -> Zpos M = Zpos v * 2 ^ (- ez) -> Zpos v < 2 ^ 53 ->
  binary_round prec emax s M ez = intSF s v.
Proof.
  intros Hez HM Hv. apply small_digits in Hv. pose proof (digits_pos v).
  pose proof (digits_mul_pow2 M v (- ez) ltac:(lia) HM) as HdM.
  assert (HD : digits M + ez = digits v) by lia.
  assert (Hf : fexp64 (digits M + ez) = digits v - 53).
  { rewrite HD. unfold fexp64. lia. }
  rewrite binary_round_exact; rewrite ?Hf; try lia.
  - unfold intSF. f_equal. unfold rescale. f_equal.
    rewrite HM. rewrite <- Z.shiftl_mul_pow2 by lia.
    rewrite Z.shiftl_shiftl by lia. f_equal. lia.
  - intros Hlt. rewrite HM.
    replace (- ez) with ((53 - digits v) + (digits v - 53 - ez)) by lia.
    rewrite Z.pow_add_r by lia.
    rewrite Z.mul_assoc. apply Z.mod_mul.
    apply Z.pow_nonzero; lia.
Qed.

Lemma Prim2SF_of_Z n :
  - 2 ^ 53 < n < 2 ^ 53 -> Prim2SF (Num.of_Z n) = Z2SF n.
Proof.
  intros [Hlo Hhi]. unfold Num.of_Z. destruct n as [|p|p].
  - reflexivity.
  - cbn [binary_normalize Z2SF].
    rewrite (round_int false p 0 p); [| lia | simpl; lia | assumption].
    apply Prim2SF_SF2Prim. now apply intSF_valid.
  - cbn [binary_normalize Z2SF].
    rewrite (round_int true p 0 p); [| lia | simpl; lia | lia].
    apply Prim2SF_SF2Prim. apply intSF_valid. lia.
Qed.

Lemma shl_align_fst m e e' :
  e' <= e -> Zpos (fst (shl_align m e e')) = Zpos m * 2 ^ (e - e').
Proof.
  intros He. unfold shl_align. destruct (e' - e) as [|p|d] eqn:E; try lia.
  - cbn [fst]. replace (e - e') with 0 by lia. lia.
  - cbn [fst]. rewrite iter_xO. f_equal. f_equal. lia.
Qed.

(** The aligned mantissa of an integer at a common exponent. *)
Lemma aligned_int p ez :
  Zpos p < 2 ^ 53 -> ez <= digits p - 53 ->
  Zpos (fst (shl_align (rescale p 0 (digits p - 53)) (digits p - 53) ez))
  = Zpos p * 2 ^ (- ez).
Proof.
  intros Hp Hez. pose proof (small_digits p Hp).
  rewrite shl_align_fst by assumption. rewrite rescale_int by assumption.
  rewrite <- Z.mul_assoc, <- Z.pow_add_r by lia. f_equal. f_equal. lia.
Qed.

Lemma mul_compare_pos x y p : 0 < p -> (x * p ?= y * p) = (x ?= y).
Proof.
  intros Hp. destruct (Z.compare_spec x y) as [He|He|He].
  - subst. apply Z.compare_refl.
  - apply Z.compare_lt_iff. nia.
  - apply Z.compare_gt_iff. nia.
Qed.

Lemma intSF_compare a b :
  Zpos a < 2 ^ 53 -> Zpos b < 2 ^ 53 ->
  SFcompare (intSF false a) (intSF false b) = Some (Zpos a ?= Zpos b).
Proof.
  intros Ha Hb. pose proof (small_digits a Ha) as Hda.
  pose proof (small_digits b Hb) as Hdb.
  pose proof (digits_bounds a) as [Alo Ahi]. pose proof (digits_bounds b) as [Blo Bhi].
  pose proof (digits_pos a). pose proof (digits_pos b).
  unfold intSF. cbn [SFcompare]. f_equal.
  destruct (Z.compare_spec (digits a - 53) (digits b - 53)) as [He|He|He].
  - change (Pos.compare_cont Eq ?x ?y) with (Z.pos x ?= Z.pos y).
    rewrite !rescale_int by assumption.
    replace (digits b) with (digits a) by lia.
    apply mul_compare_pos. apply Z.pow_pos_nonneg; lia.
  - symmetry. apply Z.compare_lt_iff.
    assert (2 ^ digits a <= 2 ^ (digits b - 1)) by (apply Z.pow_le_mono_r; lia). lia.
  - symmetry. apply Z.compare_gt_iff.
    assert (2 ^ digits b <= 2 ^ (digits a - 1)) by (apply Z.pow_le_mono_r; lia). lia.
Qed.

Lemma Z2SF_compare a b :
  0 <= a < 2 ^ 53 -> 0 <= b < 2 ^ 53 ->
  SFcompare (Z2SF a) (Z2SF b) = Some (a ?= b).
Proof.
  intros Ha Hb. destruct a as [|pa|pa], b as [|pb|pb]; try lia; try reflexivity.
  apply intSF_compare; lia.
Qed.

Local Open Scope float_scope.

Lemma of_Z_add a b :
  (0 <= a)%Z -> (0 <= b)%Z -> (a + b < 2 ^ 53)%Z ->
  Num.of_Z a + Num.of_Z b = Num.of_Z (a + b).
Proof.
  intros Ha Hb Hab. apply Prim2SF_inj.
  rewrite add_spec.
  rewrite (Prim2SF_of_Z a), (Prim2SF_of_Z b), (Prim2SF_of_Z (a + b)) by lia.
  destruct a as [|pa|pa], b as [|pb|pb]; try lia; try reflexivity.
  cbn [Z2SF Z.add]. unfold SF64add, intSF at 1 2. cbn [SFadd cond_Zopp].
  set (ez := Z.min (digits pa - 53) (digits pb - 53)).
  rewrite !aligned_int by lia.
  pose proof (digits_pos pa). pose proof (digits_pos pb).
  pose proof (small_digits pa ltac:(lia)). pose proof (small_digits pb ltac:(lia)).
  assert (Hp : (0 < 2 ^ (- ez))%Z) by (apply Z.pow_pos_nonneg; lia).
  replace (Z.pos pa * 2 ^ (- ez) + Z.pos pb * 2 ^ (- ez))%Z
    with (Z.pos (pa + pb) * 2 ^ (- ez))%Z by lia.
  destruct (Z.pos (pa + pb) * 2 ^ (- ez))%Z as [|M|M] eqn:EM; try lia.
  cbn [binary_normalize].
  apply round_int; lia.
Qed.

Lemma of_Z_sub a b :
  (0 <= b)%Z -> (b <= a)%Z -> (a < 2 ^ 53)%Z ->
  Num.of_Z a - Num.of_Z b = Num.of_Z (a - b).
Proof.
  intros Hb Hba Ha. apply Prim2SF_inj.
  rewrite sub_spec.
  rewrite (Prim2SF_of_Z a), (Prim2SF_of_Z b), (Prim2SF_of_Z (a - b)) by lia.
  destruct a as [|pa|pa], b as [|pb|pb]; try lia; try reflexivity.
  cbn [Z2SF]. unfold SF64sub, intSF at 1 2. cbn [SFsub cond_Zopp].
  set (ez := Z.min (digits pa - 53) (digits pb - 53)).
  rewrite !aligned_int by lia.
  pose proof (digits_pos pa). pose proof (digits_pos pb).
  pose proof (small_digits pa ltac:(lia)). pose proof (small_digits pb ltac:(lia)).
  assert (Hp : (0 < 2 ^ (- ez))%Z) by (apply Z.pow_pos_nonneg; lia).
  replace (Z.pos pa * 2 ^ (- ez) - Z.pos pb * 2 ^ (- ez))%Z
    with ((Z.pos pa - Z.pos pb) * 2 ^ (- ez))%Z by lia.
  destruct (Z.eq_dec (Z.pos pa) (Z.pos pb)) as [Heq|Hne].
  - rewrite Heq, Z.sub_diag. reflexivity.
  - destruct (Z.pos pa - Z.pos pb)%Z as [|pd|pd] eqn:Ed; try lia.
    destruct (Z.pos pd * 2 ^ (- ez))%Z as [|M|M] eqn:EM; try lia.
    cbn [binary_normalize Z2SF].
    apply round_int; lia.
Qed.

Lemma of_Z_ltb a b :
  (0 <= a < 2 ^ 53)%Z -> (0 <= b < 2 ^ 53)%Z ->
  (Num.of_Z a <? Num.of_Z b) = (a <? b)%Z.
Proof.
  intros Ha Hb. rewrite ltb_spec, (Prim2SF_of_Z a), (Prim2SF_of_Z b) by lia.
  unfold SFltb. rewrite Z2SF_compare by assumption.
  unfold Z.ltb. destruct (a ?= b)%Z; reflexivity.
Qed.

Lemma of_Z_leb a b :
  (0 <= a < 2 ^ 53)%Z -> (0 <= b < 2 ^ 53)%Z ->
  (Num.of_Z a <=? Num.of_Z b) = (a <=? b)%Z.
Proof.
  intros Ha Hb. rewrite leb_spec, (Prim2SF_of_Z a), (Prim2SF_of_Z b) by lia.
  unfold SFleb. rewrite Z2SF_compare by assumption.
  unfold Z.leb. destruct (a ?= b)%Z; reflexivity.
Qed.

Lemma of_Z_not_nan a : (0 <= a < 2 ^ 53)%Z -> is_nan (Num.of_Z a) = false.
Proof.
  intros Ha. rewrite FloatFacts.is_nan_spec, Prim2SF_of_Z by lia.
  destruct a; reflexivity.
Qed.

Lemma of_Z_sign a : (0 <= a < 2 ^ 53)%Z -> Num.sign_bit (Num.of_Z a) = false.
Proof.
  intros Ha. unfold Num.sign_bit. rewrite Prim2SF_of_Z by lia.
  destruct a; try reflexivity. lia.
Qed.

End IntegerFloats.

(** ** The three order adjustments *)

Module Adjustments.
Import FloatSpec FloatFacts Rounding IntegerFloats.
Import Num Const Classifier.
Local Open Scope Z_scope.

Lemma valid_finite s m e :
  valid_binary (S754_finite s m e) = true ->
  fexp64 (digits m + e) = e /\ e <= 971.
Proof.
  cbn [SpecFloat.valid_binary]. unfold bounded, canonical_mantissa.
  rewrite andb_true_iff, Z.eqb_eq, Z.leb_le. rewrite fexp64_eq.
  change (emax - prec) with 971. intros [H1 H2]. split; assumption.
Qed.

Lemma Prim2SF_finite x s m e :
  Prim2SF x = S754_finite s m e ->
  -1074 <= e <= 971 /\ digits m <= 53 /\ (0 <= e -> digits m = 53).
Proof.
  intros Hx. pose proof (Prim2SF_valid x) as Hv. rewrite Hx in Hv.
  apply valid_finite in Hv. destruct Hv as [Hc He]. unfold fexp64 in Hc. lia.
Qed.

Lemma signed_atMost sf K : signed true sf -> atMost K sf.
Proof. intros []; simpl; auto. Qed.

Lemma div_core_nonneg m1 e1 m2 e2 :
  0 <= fst (fst (SFdiv_core_binary prec emax (Zpos m1) e1 (Zpos m2) e2)).
Proof.
  unfold SFdiv_core_binary.
  match goal with |- context [Z.div_eucl ?a ?b] =>
    set (m' := a); assert (Hm' : 0 <= m');
    [| pose proof (Z.div_pos m' b Hm' ltac:(lia)) as Hq;
       unfold Z.div in Hq; destruct (Z.div_eucl m' b) as [q r]; exact Hq]
  end.
  subst m'. match goal with |- 0 <= match ?s with _ => _ end => destruct s end;
    try lia. apply Z.shiftl_nonneg. lia.
Qed.

Local Open Scope float_scope.

Lemma gt_zero_signed x : Num.gt x 0 = true -> signed false (Prim2SF x).
Proof.
  unfold Num.gt. rewrite ltb_spec. change (Prim2SF 0) with (S754_zero false).
  destruct (Prim2SF x) as [s|[]| |[] m e]; simpl; try discriminate; constructor.
Qed.

Lemma mul_signed c x mc ec :
  Prim2SF c = S754_finite false mc ec -> signed false (Prim2SF x) ->
  signed false (Prim2SF (c * x)).
Proof.
  intros Hc Hx. rewrite mul_spec, Hc. unfold SF64mul.
  destruct Hx; cbn [SFmul xorb]; try constructor.
  apply binary_round_aux_signed. lia.
Qed.

Lemma div_signed x c mc ec :
  Prim2SF c = S754_finite false mc ec -> signed false (Prim2SF x) ->
  signed false (Prim2SF (x / c)).
Proof.
  intros Hc Hx. rewrite div_spec, Hc. unfold SF64div.
  destruct Hx as [| |m e]; cbn [SFdiv xorb]; try constructor.
  pose proof (div_core_nonneg m e mc ec) as Hq.
  destruct (SFdiv_core_binary prec emax (Z.pos m) e (Z.pos mc) ec) as [[mz ez] lz].
  apply binary_round_aux_signed. exact Hq.
Qed.

Lemma digits_le_of_lt a b : (Zpos a < Zpos b)%Z -> (digits a <= digits b)%Z.
Proof.
  intros Hab. pose proof (digits_bounds a) as [Alo _].
  pose proof (digits_bounds b) as [_ Bhi].
  destruct (Z_lt_le_dec (digits b) (digits a)) as [Hlt|]; [|lia].
  exfalso. assert (2 ^ digits b <= 2 ^ (digits a - 1))%Z
    by (apply Z.pow_le_mono_r; lia). lia.
Qed.

(** [c - z] for a positive constant [c < 2^K] and a number [z >= 0]. *)
Lemma sub_atMost c z mc ec K :
  Prim2SF c = S754_finite false mc ec ->
  (digits mc + ec <= K)%Z -> (K <= 1023)%Z ->
  signed false (Prim2SF z) -> atMost K (Prim2SF (c - z)).
Proof.
  intros Hc HK HK' Hz. rewrite sub_spec, Hc. unfold SF64sub.
  pose proof (Prim2SF_finite c _ _ _ Hc) as (Hec & Hdc & _).
  pose proof (digits_bounds mc) as [_ Hmc]. pose proof (digits_pos mc).
  assert (Hself : atMost K (S754_finite false mc ec)).
  { right. split; [lia|].
    transitivity (2 ^ digits mc)%Z; [lia|]. apply Z.pow_le_mono_r; lia. }
  destruct (Prim2SF z) as [sz|sz| |sz mz ez] eqn:Ez; inversion Hz; subst.
  - exact Hself.
  - reflexivity.
  - pose proof (Prim2SF_finite z _ _ _ Ez) as (Hez & _ & _).
    cbn [SFsub cond_Zopp]. set (e0 := Z.min ec ez).
    rewrite !shl_align_fst by lia.
    assert (Hp : (0 < 2 ^ (ec - e0))%Z) by (apply Z.pow_pos_nonneg; lia).
    assert (Hp' : (0 < 2 ^ (ez - e0))%Z) by (apply Z.pow_pos_nonneg; lia).
    destruct (Z.pos mc * 2 ^ (ec - e0) - Z.pos mz * 2 ^ (ez - e0))%Z
      as [|M|M] eqn:EM; cbn [binary_normalize].
    + exact I.
    + destruct (Z.pos mc * 2 ^ (ec - e0))%Z as [|C|C] eqn:EC; try lia.
      assert (HdC : digits C = (digits mc + (ec - e0))%Z).
      { apply digits_mul_pow2; [lia | now rewrite EC]. }
      pose proof (digits_le_of_lt M C ltac:(lia)).
      destruct (binary_round_bound false M e0 K) as (m' & e' & Hr & He' & Hm');
        try lia.
      rewrite Hr. right. split; assumption.
    + apply signed_atMost. apply binary_round_signed.
Qed.

(** ** [Math.max(0, Math.round(y))] and [Math.min(C, Math.round(q))] *)
Lemma max0_nonpos r :
  is_nan r = false -> (0 <? r) = false -> Num.Math_max 0 r = 0.
Proof.
  intros Hn Hlt. unfold Num.Math_max. rewrite Hn, Hlt.
  change (is_nan 0) with false. change (Num.sign_bit 0) with false.
  simpl. destruct (r <? 0); reflexivity.
Qed.

Lemma max0_pos n :
  (0 < n < 2 ^ 53)%Z -> Num.Math_max 0 (Num.of_Z n) = Num.of_Z n.
Proof.
  intros Hn. unfold Num.Math_max. rewrite of_Z_not_nan by lia.
  change (is_nan 0) with false. change 0 with (Num.of_Z 0) at 1.
  rewrite of_Z_ltb by lia. simpl.
  assert (H : (0 <? n)%Z = true) by (apply Z.ltb_lt; lia). rewrite H. reflexivity.
Qed.

Lemma negative_not_gt r s m e :
  Prim2SF r = S754_finite true m e \/ Prim2SF r = S754_zero s
  \/ Prim2SF r = S754_infinity true ->
  is_nan r = false /\ (0 <? r) = false.
Proof.
  rewrite is_nan_spec, ltb_spec. change (Prim2SF 0) with (S754_zero false).
  intros [H|[H|H]]; rewrite H; split; reflexivity.
Qed.

Lemma max0_round y K :
  (0 <= K <= 51)%Z -> atMost K (Prim2SF y) ->
  exists n, (0 <= n <= 2 ^ K)%Z /\
            Num.Math_max 0 (Num.Math_round y) = Num.of_Z n.
Proof.
  intros HK Hy.
  assert (HpK : (0 < 2 ^ K)%Z) by (apply Z.pow_pos_nonneg; lia).
  assert (Hzero : exists n, (0 <= n <= 2 ^ K)%Z /\ 0 = Num.of_Z n).
  { exists 0%Z. split; [lia | reflexivity]. }
  unfold Num.Math_round.
  destruct (Prim2SF y) as [s|s| |s m e] eqn:Ey; simpl in Hy.
  - rewrite max0_nonpos; [exact Hzero | |].
    + rewrite is_nan_spec, Ey. reflexivity.
    + rewrite ltb_spec, Ey. reflexivity.
  - subst s. destruct (negative_not_gt y true 1%positive 0%Z) as [Hn Hl]; [auto|].
    rewrite max0_nonpos; assumption.
  - contradiction.
  - pose proof (Prim2SF_finite y _ _ _ Ey) as (Hem & Hdm & Hnorm).
    pose proof (digits_bounds m) as [Hmlo Hmhi].
    assert (Hm53 : (Zpos m < 2 ^ 53)%Z).
    { assert (2 ^ digits m <= 2 ^ 53)%Z by (apply Z.pow_le_mono_r; lia). lia. }
    assert (Hs : s = true \/ (s = false /\ (e <= K)%Z /\ (Z.pos m <= 2 ^ (K - e))%Z)).
    { destruct s; [now left | right]. destruct Hy as [|[? ?]]; [discriminate | auto]. }
    clear Hy. destruct Hs as [->|(-> & HeK & Hm)].
    + (* a negative number *)
      destruct (0 <=? e)%Z eqn:He0.
      * destruct (negative_not_gt y true m e) as [Hn Hl]; [auto|].
        rewrite max0_nonpos; assumption.
      * apply Z.leb_gt in He0. cbn [cond_Zopp].
        set (b := (2 ^ (1 - e))%Z).
        assert (Hb : (b = 2 * 2 ^ (- e))%Z).
        { subst b. replace (1 - e)%Z with (Z.succ (- e)) by lia.
          apply Z.pow_succ_r. lia. }
        assert (Hpe : (2 <= 2 ^ (- e))%Z).
        { change 2%Z with (2 ^ 1)%Z at 1. apply Z.pow_le_mono_r; lia. }
        set (n := ((2 * - Z.pos m + 2 ^ (- e)) / b)%Z).
        assert (Hn0 : (n <= 0)%Z).
        { assert (n < 1)%Z; [|lia]. subst n.
          apply Z.div_lt_upper_bound; lia. }
        assert (Hnlo : (- 2 ^ 52 <= n)%Z).
        { subst n. apply Z.div_le_lower_bound; [lia|].
          change (2 ^ 53)%Z with (2 * 2 ^ 52)%Z in Hm53. nia. }
        destruct (n =? 0)%Z eqn:En.
        -- destruct (negative_not_gt neg_zero true 1%positive 0%Z) as [Hn Hl];
             [right; left; reflexivity|].
           rewrite max0_nonpos; assumption.
        -- apply Z.eqb_neq in En.
           assert (HP : Prim2SF (Num.of_Z n) = Z2SF n).
           { apply Prim2SF_of_Z. change (2 ^ 53)%Z with (2 * 2 ^ 52)%Z. lia. }
           destruct n as [|p|p]; try lia.
           destruct (negative_not_gt (Num.of_Z (Z.neg p)) true
                       (rescale p 0 (digits p - 53)) (digits p - 53)%Z)
             as [Hn Hl]; [left; exact HP|].
           rewrite max0_nonpos; assumption.
    + (* a positive number of at most 2^K *)
      assert (He : (e < 0)%Z).
      { destruct (Z_lt_le_dec e 0) as [|He0]; [assumption|]. exfalso.
        specialize (Hnorm He0). rewrite Hnorm in Hmlo.
        assert (2 ^ (K - e) <= 2 ^ 51)%Z by (apply Z.pow_le_mono_r; lia).
        change (2 ^ (53 - 1))%Z with (2 * 2 ^ 51)%Z in Hmlo.
        assert (0 < 2 ^ 51)%Z by reflexivity. lia. }
      assert (He0 : (0 <=? e)%Z = false) by (apply Z.leb_gt; assumption).
      rewrite He0. cbn [cond_Zopp].
      set (b := (2 ^ (1 - e))%Z).
      assert (Hb : (b = 2 * 2 ^ (- e))%Z).
      { subst b. replace (1 - e)%Z with (Z.succ (- e)) by lia.
        apply Z.pow_succ_r. lia. }
      assert (Hpe : (0 < 2 ^ (- e))%Z) by (apply Z.pow_pos_nonneg; lia).
      assert (HKe : (2 ^ (K - e) = 2 ^ K * 2 ^ (- e))%Z).
      { replace (K - e)%Z with (K + - e)%Z by lia. apply Z.pow_add_r; lia. }
      set (n := ((2 * Z.pos m + 2 ^ (- e)) / b)%Z).
      assert (Hn : (0 <= n <= 2 ^ K)%Z).
      { split.
        - subst n. apply Z.div_pos; lia.
        - assert (n < 2 ^ K + 1)%Z; [|lia]. subst n.
          apply Z.div_lt_upper_bound; [lia|]. nia. }
      assert (H2K : (2 ^ K <= 2 ^ 51)%Z) by (apply Z.pow_le_mono_r; lia).
      assert (Hn53 : (n < 2 ^ 53)%Z).
      { change (2 ^ 53)%Z with (4 * 2 ^ 51)%Z. assert (0 < 2 ^ 51)%Z by reflexivity. lia. }
      destruct (n =? 0)%Z eqn:En.
      * rewrite max0_nonpos; [exact Hzero | reflexivity | reflexivity].
      * apply Z.eqb_neq in En. exists n. split; [exact Hn|].
        apply max0_pos. lia.
Qed.

Lemma min_of_Z a b :
  (0 <= a < 2 ^ 53)%Z -> (0 <= b < 2 ^ 53)%Z ->
  Math_min (of_Z a) (of_Z b) = of_Z (Z.min a b).
Proof.
  intros Ha Hb. unfold Math_min.
  rewrite !of_Z_not_nan, !of_Z_ltb, of_Z_sign by lia. simpl.
  destruct (Z.ltb_spec a b) as [H|H].
  - rewrite Z.min_l by lia. reflexivity.
  - destruct (Z.ltb_spec b a) as [H'|H']; rewrite Z.min_r by lia; reflexivity.
Qed.

Lemma of_Z_zero_inj q : Prim2SF q = S754_zero false -> q = of_Z 0.
Proof. intros H. apply Prim2SF_inj. rewrite H. reflexivity. Qed.

Lemma digits_below p k : (Zpos p < 2 ^ k)%Z -> (digits p <= k)%Z.
Proof.
  intros H. pose proof (digits_bounds p) as [Hlo _].
  destruct (Z_lt_le_dec k (digits p)) as [Hgt|]; [|lia].
  exfalso. assert (2 ^ k <= 2 ^ (digits p - 1))%Z by (apply Z.pow_le_mono_r; lia).
  lia.
Qed.

Lemma half_up_range m e :
  (digits m <= 53)%Z -> (e < 0)%Z ->
  (0 <= (2 * Z.pos m + 2 ^ (- e)) / 2 ^ (1 - e) < 2 ^ 53)%Z.
Proof.
  intros Hdm He. pose proof (digits_bounds m) as [Hmlo Hmhi].
  assert (Hm53 : (Zpos m < 2 ^ 53)%Z).
  { assert (2 ^ digits m <= 2 ^ 53)%Z by (apply Z.pow_le_mono_r; lia). lia. }
  assert (Hb : (2 ^ (1 - e) = 2 * 2 ^ (- e))%Z).
  { replace (1 - e)%Z with (Z.succ (- e)) by lia. apply Z.pow_succ_r. lia. }
  assert (Hpe : (2 <= 2 ^ (- e))%Z).
  { change 2%Z with (2 ^ 1)%Z at 1. apply Z.pow_le_mono_r; lia. }
  rewrite Hb. split.
  - apply Z.div_pos; lia.
  - apply Z.div_lt_upper_bound; [lia|]. nia.
Qed.

Lemma minC_round q C :
  (0 <= C < 2 ^ 52)%Z -> signed false (Prim2SF q) ->
  exists n, (0 <= n <= C)%Z /\ Math_min (of_Z C) (Math_round q) = of_Z n.
Proof.
  intros HC Hq.
  assert (H52 : (2 ^ 53 = 2 * 2 ^ 52)%Z) by reflexivity.
  assert (Hbig : forall r, is_nan r = false -> (of_Z C <? r) = true ->
            exists n, (0 <= n <= C)%Z /\ Math_min (of_Z C) r = of_Z n).
  { intros r Hn Hlt. exists C. split; [lia|]. unfold Math_min.
    rewrite of_Z_not_nan, Hn, Hlt by lia. reflexivity. }
  assert (Hint : forall n, (0 <= n < 2 ^ 53)%Z ->
            exists k, (0 <= k <= C)%Z /\ Math_min (of_Z C) (of_Z n) = of_Z k).
  { intros n Hn. exists (Z.min C n). split; [lia|]. apply min_of_Z; lia. }
  unfold Math_round.
  destruct (Prim2SF q) as [s|s| |s m e] eqn:Eq; inversion Hq; subst.
  - rewrite (of_Z_zero_inj q Eq). apply Hint. clear Hbig Hint. lia.
  - apply Hbig.
    + rewrite is_nan_spec, Eq. reflexivity.
    + rewrite ltb_spec, Eq, Prim2SF_of_Z by (clear Hbig Hint; lia).
      destruct C; reflexivity.
  - pose proof (Prim2SF_finite q _ _ _ Eq) as (Hem & Hdm & Hnorm).
    destruct (0 <=? e)%Z eqn:He0.
    + apply Z.leb_le in He0. apply Hbig.
      * rewrite is_nan_spec, Eq. reflexivity.
      * rewrite ltb_spec, Eq, Prim2SF_of_Z by (clear Hbig Hint; lia).
        destruct C as [|p|p]; try reflexivity; try (clear Hbig Hint; lia).
        unfold SFltb, Z2SF, intSF. cbn [SFcompare].
        assert (Hc : (digits p - 53 ?= e)%Z = Lt).
        { clear Hbig Hint. pose proof (digits_below p 52 ltac:(lia)).
          apply Z.compare_lt_iff. lia. }
        rewrite Hc. reflexivity.
    + apply Z.leb_gt in He0. cbn [cond_Zopp].
      pose proof (half_up_range m e Hdm He0) as Hn.
      set (n := ((2 * Z.pos m + 2 ^ (- e)) / 2 ^ (1 - e))%Z) in *.
      destruct (n =? 0)%Z eqn:En.
      * change zero with (of_Z 0). apply Hint. clear Hbig Hint. lia.
      * apply Hint. exact Hn.
Qed.

(** ** The three adjustments are small integers *)
Lemma tcpaAdjust_int tc :
  gt tc 0 = true ->
  exists n, (0 <= n <= 1024)%Z /\ tcpaAdjust tc = of_Z n.
Proof.
  intros Hpos. unfold tcpaAdjust, PRIORITY_WEIGHTS.TCPA_WEIGHT.
  apply (max0_round _ 10); [lia|].
  eapply sub_atMost; [reflexivity | vm_compute; discriminate | lia |].
  eapply div_signed; [reflexivity|].
  eapply mul_signed; [reflexivity|].
  now apply gt_zero_signed.
Qed.

Lemma cpaAdjust_int c :
  gt c 0 = true ->
  exists n, (0 <= n <= 2048)%Z /\ cpaAdjust c = of_Z n.
Proof.
  intros Hpos. unfold cpaAdjust, PRIORITY_WEIGHTS.CPA_WEIGHT, METERS_PER_NM.
  apply (max0_round _ 11); [lia|].
  eapply sub_atMost; [reflexivity | vm_compute; discriminate | lia |].
  eapply div_signed; [reflexivity|].
  eapply div_signed; [reflexivity|].
  eapply mul_signed; [reflexivity|].
  now apply gt_zero_signed.
Qed.

Lemma rangeAdjust_int r :
  gt r 0 = true ->
  exists n, (0 <= n <= 5000)%Z /\ rangeAdjust r = of_Z n.
Proof.
  intros Hpos. unfold rangeAdjust, PRIORITY_WEIGHTS.RANGE_WEIGHT_MAX,
    PRIORITY_WEIGHTS.RANGE_WEIGHT_PER_NM, METERS_PER_NM.
  change 5000 with (of_Z 5000).
  apply minC_round; [lia|].
  eapply div_signed; [reflexivity|].
  eapply mul_signed; [reflexivity|].
  now apply gt_zero_signed.
Qed.

End Adjustments.

(** ** Closest point of approach *)

Module CpaProofs.
Import FloatFacts Num Const Kinematics CpaSpec Samples.
Local Open Scope float_scope.

(** The candidate time of closest approach inside the accepted window is a finite number. *)
Lemma accepted_tcpa_finite (t : float) :
  falsy t = false -> lt t 0 = false -> gt t TCPA_MAX_SECONDS = false ->
  Number_isFinite t = true.
Proof.
  unfold falsy, lt, gt, Number_isFinite. intros Hf Hl Hg.
  apply orb_false_elim in Hf as [Hn _].
  rewrite is_nan_spec in Hn. rewrite ltb_spec in Hl, Hg.
  rewrite is_finite_spec.
  change (Prim2SF 0) with (S754_zero false) in Hl.
  change (Prim2SF TCPA_MAX_SECONDS)
    with (S754_finite false 5937362789990400 (-39)) in Hg.
  destruct (Prim2SF t) as [s|[]| |s m e]; try reflexivity; discriminate.
Qed.

Lemma rejectedTcpa_code (t : float) :
  rejectedTcpa t = (falsy t || lt t 0 || gt t TCPA_MAX_SECONDS).
Proof.
  unfold rejectedTcpa, falsy, lt, gt, Number_isFinite, is_zero_num.
  rewrite is_finite_spec, is_nan_spec, eqb_spec, !ltb_spec.
  change (Prim2SF 0) with (S754_zero false).
  change (Prim2SF TCPA_MAX_SECONDS)
    with (S754_finite false 5937362789990400 (-39)).
  destruct (Prim2SF t) as [[]|[]| |[] m e]; try reflexivity;
  unfold SFeqb, SFltb; simpl;
  repeat match goal with |- context [match ?c with _ => _ end] => destruct c end; reflexivity.
Qed.

(** C1 (amended): when the planar positions and velocities of the own
    vessel and of the target are all known, [updateCpa] takes
    [dv = target velocity - own velocity]; if [dot(dv,dv) < 1e-8] it
    stores null for cpa and tcpa; otherwise it takes
    [tcpa = -dot(w0,dv) / dot(dv,dv)] with [w0 = target position - own
    position], and stores null for both when that time is zero, negative,
    not finite or beyond 10800 s; otherwise it projects both positions
    forward by [tcpa], and stores null for both when the distance between
    the projected points is not finite; otherwise cpa is that distance and
    tcpa that time, each rounded to the nearest integer. *)
Theorem updateCpa_amended (selfTarget target : Target) (i : CpaInput) :
  planar selfTarget target i ->
  let r := updateCpa selfTarget target in
  (r.(cpa), r.(tcpa)) = cpaAmended i.
Proof.
  intros (H1 & H2 & H3 & H4 & H5 & H6 & H7 & H8). cbv zeta.
  unfold updateCpa, cpaAmended. rewrite H1, H2, H3, H4, H5, H6, H7, H8.
  fold (relVelocity i). fold (relPosition i).
  destruct (lt _ _); [reflexivity|].
  fold (rawTcpa i). rewrite rejectedTcpa_code.
  destruct (falsy (rawTcpa i) || lt (rawTcpa i) 0 || gt (rawTcpa i) TCPA_MAX_SECONDS) eqn:E;
    [reflexivity|].
  fold (rawCpa i).
  apply orb_false_elim in E as [E Eg]. apply orb_false_elim in E as [Ef El].
  rewrite (@accepted_tcpa_finite _ Ef El Eg). simpl negb. rewrite orb_false_r.
  destruct (Number_isFinite (rawCpa i)); reflexivity.
Qed.

(** The own vessel at rest and a target 100 m west and 30 m north of it
    steaming east at 1 m/s: the planar fields are all known. *)
Lemma updateCpa_amended_witness :
  let r := updateCpa ownShip crossing in
  (r.(cpa), r.(tcpa)) = cpaAmended (ownShipInput (-100) 30 1 0).
Proof. apply updateCpa_amended. repeat split. Defined.

(** C1 as stated fails: for a target 1 m west and 2^700 m north steaming
    east at 1 m/s the time of closest approach is 1 s, inside the window,
    and the distance between the projected points overflows to Infinity;
    the wording has cpa = Infinity and tcpa = 1 stored, the code stores null
    for both. *)
Lemma updateCpa_drops_infinite_distance :
  planar ownShip farNorth (ownShipInput (-1) 0x1p+700 1 0) /\
  cpaAsClaimed (ownShipInput (-1) 0x1p+700 1 0) = (Some infinity, Some 1) /\
  let r := updateCpa ownShip farNorth in (r.(cpa), r.(tcpa)) = (None, None).
Proof. split; [repeat split|]. split; vm_compute; reflexivity. Qed.

End CpaProofs.

(** ** Classification *)

Module ClassifierProofs.
Import Num Const Classifier ClassifierSpec Samples.
Local Open Scope string_scope.
Local Open Scope float_scope.

(** The statements after the three threshold tests run to the end. *)
Lemma tail_runs (t : Target) :
  (modify (fun t => set_sartAlarm (Some (startsWith t.(mmsi) "970")) t) ;;
   modify (fun t => set_mobAlarm (Some (startsWith t.(mmsi) "972")) t) ;;
   modify (fun t => set_epirbAlarm (Some (startsWith t.(mmsi) "974")) t) ;;
   modify setBase ;;
   modify setAlarmType ;;
   modify applyTcpa ;;
   modify applyCpa ;;
   modify applyRange ;;
   modify applyNoRange ;;
   modify clampOrder)%exec t = (inr tt, rank t).
Proof. cbv [bind modify]. reflexivity. Qed.

Lemma body_cases (cp : option CollisionProfiles) (t : Target) :
  match evaluateAlarms_body cp t with
  | (inl e, t') => Abrupt cp t e t'
  | (inr _, t') => Completes cp t t'
  end.
Proof.
  unfold evaluateAlarms_body.
  unfold bind at 1. unfold eval at 1.
  destruct (guardAlarmExpr cp t) as [e|g] eqn:Eg.
  { now apply stop_guard. }
  unfold bind at 1. unfold modify at 1.
  unfold bind at 1. unfold eval at 1.
  change (collisionExpr (dangerOf cp) (set_guardAlarm (Some g) t))
    with (collisionExpr (dangerOf cp) t).
  destruct (collisionExpr (dangerOf cp) t) as [e|a] eqn:Ea.
  { now apply stop_danger. }
  unfold bind at 1. unfold modify at 1.
  unfold bind at 1. unfold eval at 1.
  change (collisionExpr (warningOf cp)
            (set_collisionAlarm (Some a) (set_guardAlarm (Some g) t)))
    with (collisionExpr (warningOf cp) t).
  destruct (collisionExpr (warningOf cp) t) as [e|w] eqn:Ew.
  { now apply stop_warning. }
  unfold bind at 1. unfold modify at 1.
  rewrite tail_runs.
  exists g, a, w. repeat split; assumption.
Qed.

Lemma evaluateAlarms_stop (cp : option CollisionProfiles) (t : Target) :
  (exists e, Abrupt cp t e (evaluateAlarms t cp)) \/
  Completes cp t (evaluateAlarms t cp).
Proof.
  unfold evaluateAlarms, evaluateAlarms_exec, tryCatch.
  pose proof (body_cases cp t) as H.
  destruct (evaluateAlarms_body cp t) as [[e|[]] t']; simpl; eauto.
Qed.

Lemma sameInputs_refl t : sameInputs t t.
Proof. unfold sameInputs; split_all; reflexivity. Qed.

Lemma sameInputs_trans t1 t2 t3 :
  sameInputs t1 t2 -> sameInputs t2 t3 -> sameInputs t1 t3.
Proof.
  unfold sameInputs. intros H1 H2.
  repeat match goal with H : _ /\ _ |- _ => destruct H end.
  split_all; congruence.
Qed.

Lemma sameFlags_trans t1 t2 t3 :
  sameFlags t1 t2 -> sameFlags t2 t3 -> sameFlags t1 t3.
Proof.
  unfold sameFlags. intros (?&?&?&?&?&?) (?&?&?&?&?&?). split_all; congruence.
Qed.

Lemma setBase_inputs t : sameInputs t (setBase t).
Proof. unfold sameInputs. step_frame setBase. Qed.

Lemma setAlarmType_inputs t : sameInputs t (setAlarmType t).
Proof. unfold sameInputs. step_frame setAlarmType. Qed.

Lemma applyTcpa_inputs t : sameInputs t (applyTcpa t).
Proof. unfold sameInputs. step_frame applyTcpa. Qed.

Lemma applyCpa_inputs t : sameInputs t (applyCpa t).
Proof. unfold sameInputs. step_frame applyCpa. Qed.

Lemma applyRange_inputs t : sameInputs t (applyRange t).
Proof. unfold sameInputs. step_frame applyRange. Qed.

Lemma applyNoRange_inputs t : sameInputs t (applyNoRange t).
Proof. unfold sameInputs. step_frame applyNoRange. Qed.

Lemma clampOrder_inputs t : sameInputs t (clampOrder t).
Proof. unfold sameInputs. step_frame clampOrder. Qed.

Lemma setBase_flags t : sameFlags t (setBase t).
Proof. unfold sameFlags. step_frame setBase. Qed.

Lemma setAlarmType_flags t : sameFlags t (setAlarmType t).
Proof. unfold sameFlags. step_frame setAlarmType. Qed.

Lemma applyTcpa_flags t : sameFlags t (applyTcpa t).
Proof. unfold sameFlags. step_frame applyTcpa. Qed.

Lemma applyCpa_flags t : sameFlags t (applyCpa t).
Proof. unfold sameFlags. step_frame applyCpa. Qed.

Lemma applyRange_flags t : sameFlags t (applyRange t).
Proof. unfold sameFlags. step_frame applyRange. Qed.

Lemma applyNoRange_flags t : sameFlags t (applyNoRange t).
Proof. unfold sameFlags. step_frame applyNoRange. Qed.

Lemma clampOrder_flags t : sameFlags t (clampOrder t).
Proof. unfold sameFlags. step_frame clampOrder. Qed.

Lemma rank_inputs t : sameInputs t (rank t).
Proof.
  unfold rank.
  eapply sameInputs_trans; [|apply clampOrder_inputs].
  eapply sameInputs_trans; [|apply applyNoRange_inputs].
  eapply sameInputs_trans; [|apply applyRange_inputs].
  eapply sameInputs_trans; [|apply applyCpa_inputs].
  eapply sameInputs_trans; [|apply applyTcpa_inputs].
  eapply sameInputs_trans; [|apply setAlarmType_inputs].
  eapply sameInputs_trans; [|apply setBase_inputs].
  unfold sameInputs, withIdFlags; split_all; reflexivity.
Qed.

Lemma rank_flags t : sameFlags (withIdFlags t) (rank t).
Proof.
  unfold rank.
  eapply sameFlags_trans; [|apply clampOrder_flags].
  eapply sameFlags_trans; [|apply applyNoRange_flags].
  eapply sameFlags_trans; [|apply applyRange_flags].
  eapply sameFlags_trans; [|apply applyCpa_flags].
  eapply sameFlags_trans; [|apply applyTcpa_flags].
  eapply sameFlags_trans; [|apply setAlarmType_flags].
  eapply sameFlags_trans; [|apply setBase_flags].
  unfold sameFlags; split_all; reflexivity.
Qed.

Lemma rank_guardAlarm t : (rank t).(guardAlarm) = t.(guardAlarm).
Proof. destruct (rank_flags t) as (-> & _). reflexivity. Qed.

Lemma evaluateAlarms_inputs (t : Target) (cp : option CollisionProfiles) :
  sameInputs t (evaluateAlarms t cp).
Proof.
  destruct (evaluateAlarms_stop cp t) as [[e []]|(g & a & w & _ & _ & _ & ->)].
  - apply sameInputs_refl.
  - unfold sameInputs; split_all; reflexivity.
  - unfold sameInputs; split_all; reflexivity.
  - eapply sameInputs_trans; [|apply rank_inputs].
    unfold sameInputs; split_all; reflexivity.
Qed.

Lemma guardAlarmExpr_spec (cp : option CollisionProfiles) (t : Target) (g : GuardZone) :
  guardOf cp = inr g ->
  exists b, guardAlarmExpr cp t = inr b /\ (b = true <-> inGuardZone t g).
Proof.
  intros Hg. unfold guardAlarmExpr, inGuardZone, speedGate, known_gt. rewrite Hg.
  destruct (range t) as [r|].
  - eexists; split; [reflexivity|].
    rewrite andb_true_iff, orb_true_iff. split.
    + intros [H1 H2]. split; [eauto|].
      destruct H2 as [H2|H2]; [auto|].
      destruct (sog t) as [s|]; [eauto|discriminate].
    + intros [(r' & Hr & Hlt) H2]. injection Hr as <-. split; [assumption|].
      destruct H2 as [H2|(s & Hs & H2)]; [auto|]. rewrite Hs. auto.
  - exists false. split; [reflexivity|]. split; [discriminate|].
    intros [(r & Hr & _) _]. discriminate.
Qed.

(** C5: under a profile with guard zone [g], the guard alarm left by
    [evaluateAlarms] is a boolean, and it is true exactly when the range
    is non-null and strictly less than [g.range * 1852], and the guard
    speed is zero or the speed over ground is non-null and strictly
    greater than [g.speed / 1.94384]. *)
Theorem guardAlarm_iff (t : Target) (cp : option CollisionProfiles) (g : GuardZone) :
  guardOf cp = inr g ->
  let t' := evaluateAlarms t cp in
  (exists b, t'.(guardAlarm) = Some b) /\
  (t'.(guardAlarm) = Some true <-> inGuardZone t g).
Proof.
  intros Hg t'. subst t'.
  destruct (@guardAlarmExpr_spec cp t g Hg) as (b & Hb & Hiff).
  assert (H : guardAlarm (evaluateAlarms t cp) = Some b).
  { destruct (evaluateAlarms_stop cp t)
      as [[e [e0 He|g0 e0 H0 _|g0 a e0 H0 _ _]]|(g0 & a & w & H0 & _ & _ & ->)].
    - congruence.
    - simpl. congruence.
    - simpl. congruence.
    - rewrite rank_guardAlarm. simpl. congruence. }
  rewrite H. split; [eauto|].
  rewrite <- Hiff. split; congruence.
Qed.

(** C7 (amended): [evaluateAlarms] ends normally for every target and
    every [collisionProfiles] value; and when its body raises an
    exception, the collision warning, the SART, MOB and EPIRB flags, the
    alarm state, the alarm type and the order keep the values they had
    before the call, while the guard alarm and the collision alarm each
    hold either the previous value or the one newly computed by this
    call. *)
Theorem evaluateAlarms_catches (t : Target) (cp : option CollisionProfiles) :
  fst (evaluateAlarms_exec cp t) = inr tt /\
  forall e, fst (evaluateAlarms_body cp t) = inl e ->
    let t' := evaluateAlarms t cp in
    sameLateFields t t' /\
    (t'.(guardAlarm) = t.(guardAlarm) \/
     exists g, guardAlarmExpr cp t = inr g /\ t'.(guardAlarm) = Some g) /\
    (t'.(collisionAlarm) = t.(collisionAlarm) \/
     exists a, collisionExpr (dangerOf cp) t = inr a /\
               t'.(collisionAlarm) = Some a).
Proof.
  unfold evaluateAlarms, evaluateAlarms_exec, tryCatch.
  pose proof (body_cases cp t) as H.
  destruct (evaluateAlarms_body cp t) as [[e|[]] t']; simpl.
  - split; [reflexivity|]. intros e' _.
    destruct H; unfold sameLateFields; simpl; split_all; eauto.
  - split; [reflexivity|]. discriminate.
Qed.

(** A target 556 m away under the harbor profile (guard range 0.5 nm,
    guard speed 0). *)
Lemma guardAlarm_iff_witness :
  let t' := evaluateAlarms nearby harborProfiles in
  (exists b, t'.(guardAlarm) = Some b) /\
  (t'.(guardAlarm) = Some true <-> inGuardZone nearby (mkGuardZone 0.5 0)).
Proof. apply (guardAlarm_iff nearby harborProfiles). reflexivity. Defined.

(** C7 as stated fails: under a profile object whose active profile has a
    guard group but no danger group, the body raises a TypeError at the
    collision test, after the guard alarm of the target (undefined before
    the call) has been set to true; the new value stays. *)
Lemma evaluateAlarms_keeps_partial_update :
  fst (evaluateAlarms_body guardOnlyProfiles nearby) = inl (TypeError "danger") /\
  nearby.(guardAlarm) = None /\
  (evaluateAlarms nearby guardOnlyProfiles).(guardAlarm) = Some true.
Proof. vm_compute. repeat split. Qed.

End ClassifierProofs.

(** ** Priority order *)

Module OrderProofs.
Import FloatSpec FloatFacts Rounding IntegerFloats Adjustments.
Import Num Const Classifier ClassifierSpec ClassifierProofs Samples.
Local Open Scope float_scope.

Lemma setBase_order t : orderNum (setBase t) = baseOrder t.
Proof.
  unfold setBase, baseOrder, orderNum.
  destruct (anyDanger t); [reflexivity|].
  destruct (flag (collisionWarning t)); [reflexivity|].
  destruct (positive (tcpa t)); reflexivity.
Qed.

Lemma setAlarmType_order t : orderNum (setAlarmType t) = orderNum t.
Proof. unfold setAlarmType, orderNum. destruct (alarmList t); reflexivity. Qed.

Lemma applyTcpa_order t : orderNum (applyTcpa t) = tcpaStep t.(tcpa) (orderNum t).
Proof.
  unfold applyTcpa, tcpaStep, subOrder. destruct (tcpa t) as [v|]; [|reflexivity].
  destruct (gt v 0); reflexivity.
Qed.

Lemma applyCpa_order t : orderNum (applyCpa t) = cpaStep t.(cpa) (orderNum t).
Proof.
  unfold applyCpa, cpaStep, subOrder. destruct (cpa t) as [v|]; [|reflexivity].
  destruct (gt v 0); reflexivity.
Qed.

Lemma applyRange_order t : orderNum (applyRange t) = rangeStep t.(range) (orderNum t).
Proof.
  unfold applyRange, rangeStep, addOrder. destruct (range t) as [v|]; [|reflexivity].
  destruct (gt v 0); reflexivity.
Qed.

Lemma applyNoRange_order t :
  orderNum (applyNoRange t) = noRangeStep t.(range) (orderNum t).
Proof.
  unfold applyNoRange, noRangeStep, addOrder. destruct (is_null (range t)); reflexivity.
Qed.

Lemma clampOrder_order t : (clampOrder t).(order) = Some (clampStep (orderNum t)).
Proof. reflexivity. Qed.

Lemma inputs_tcpa t t' : sameInputs t t' -> t'.(tcpa) = t.(tcpa).
Proof. intros H. apply H. Qed.

Lemma inputs_cpa t t' : sameInputs t t' -> t'.(cpa) = t.(cpa).
Proof. intros H. apply H. Qed.

Lemma inputs_range t t' : sameInputs t t' -> t'.(range) = t.(range).
Proof. intros H. apply H. Qed.

Lemma rank_order t :
  (rank t).(order)
  = Some (orderFrom (baseOrder (withIdFlags t)) t.(tcpa) t.(cpa) t.(range)).
Proof.
  unfold rank, orderFrom. set (u := withIdFlags t).
  assert (Hu : sameInputs t u) by (unfold sameInputs, u, withIdFlags; split_all; reflexivity).
  pose proof (sameInputs_trans _ _ _ Hu (setBase_inputs u)) as H1.
  pose proof (sameInputs_trans _ _ _ H1 (setAlarmType_inputs _)) as H2.
  pose proof (sameInputs_trans _ _ _ H2 (applyTcpa_inputs _)) as H3.
  pose proof (sameInputs_trans _ _ _ H3 (applyCpa_inputs _)) as H4.
  pose proof (sameInputs_trans _ _ _ H4 (applyRange_inputs _)) as H5.
  rewrite clampOrder_order, applyNoRange_order, applyRange_order,
    applyCpa_order, applyTcpa_order, setAlarmType_order, setBase_order.
  rewrite (inputs_range _ _ H5), (inputs_range _ _ H4), (inputs_cpa _ _ H3),
    (inputs_tcpa _ _ H2).
  reflexivity.
Qed.

Lemma pow53_big : (1000000 < 2 ^ 53)%Z.
Proof. reflexivity. Qed.

Lemma shifts_id lo hi : (lo <= 0 <= hi)%Z -> shifts (fun o => o) lo hi.
Proof. intros H. exists 0%Z. split; [lia|]. intros B _. now rewrite Z.add_0_r. Qed.

Lemma tcpaStep_shifts tc : shifts (tcpaStep tc) (-2024) 0.
Proof.
  pose proof pow53_big as P.
  unfold tcpaStep. destruct tc as [v|]; [|apply shifts_id; lia].
  destruct (gt v 0) eqn:Hv; [|apply shifts_id; lia].
  destruct (tcpaAdjust_int v Hv) as (n & Hn & ->).
  exists (- 1000 - n)%Z. split; [lia|]. intros B HB.
  unfold PRIORITY_WEIGHTS.HAS_TCPA_BONUS. change 1000 with (of_Z 1000).
  rewrite !of_Z_sub by lia. f_equal; lia.
Qed.

Lemma cpaStep_shifts c : shifts (cpaStep c) (-2048) 0.
Proof.
  pose proof pow53_big as P.
  unfold cpaStep. destruct c as [v|]; [|apply shifts_id; lia].
  destruct (gt v 0) eqn:Hv; [|apply shifts_id; lia].
  destruct (cpaAdjust_int v Hv) as (n & Hn & ->).
  exists (- n)%Z. split; [lia|]. intros B HB.
  rewrite !of_Z_sub by lia. f_equal; lia.
Qed.

Lemma rangeStep_shifts r : shifts (rangeStep r) 0 5000.
Proof.
  pose proof pow53_big as P.
  unfold rangeStep. destruct r as [v|]; [|apply shifts_id; lia].
  destruct (gt v 0) eqn:Hv; [|apply shifts_id; lia].
  destruct (rangeAdjust_int v Hv) as (n & Hn & ->).
  exists n. split; [lia|]. intros B HB.
  rewrite !of_Z_add by lia. reflexivity.
Qed.

Lemma noRangeStep_shifts r : shifts (noRangeStep r) 0 50000.
Proof.
  pose proof pow53_big as P.
  unfold noRangeStep. destruct (is_null r); [|apply shifts_id; lia].
  exists 50000%Z. split; [lia|]. intros B HB.
  unfold PRIORITY_ORDER.NO_RANGE. change 50000 with (of_Z 50000).
  rewrite !of_Z_add by lia. reflexivity.
Qed.

Lemma clampStep_id k : (0 <= k <= 99999)%Z -> clampStep (of_Z k) = of_Z k.
Proof.
  intros Hk. pose proof pow53_big as P. unfold clampStep.
  unfold PRIORITY_WEIGHTS.ORDER_MAX. change 99999 with (of_Z 99999).
  rewrite min_of_Z by lia. rewrite Z.min_r by lia.
  unfold Math_max, PRIORITY_WEIGHTS.ORDER_MIN.
  rewrite of_Z_not_nan by lia. change (is_nan (-99999)) with false. simpl.
  assert (H : (-99999 <? of_Z k) = true).
  { rewrite ltb_spec, Prim2SF_of_Z by lia. destruct k; try reflexivity. lia. }
  rewrite H. reflexivity.
Qed.

(** The final order is the base plus a shift that depends on the closest
    approach and the range only. *)
Lemma orderFrom_shift tc c r :
  exists d, (-4072 <= d <= 55000)%Z /\
    forall B, (10000 <= B <= 40000)%Z -> orderFrom (of_Z B) tc c r = of_Z (B + d).
Proof.
  destruct (tcpaStep_shifts tc) as (d1 & H1 & S1).
  destruct (cpaStep_shifts c) as (d2 & H2 & S2).
  destruct (rangeStep_shifts r) as (d3 & H3 & S3).
  destruct (noRangeStep_shifts r) as (d4 & H4 & S4).
  exists (d1 + d2 + d3 + d4)%Z. split; [lia|]. intros B HB.
  unfold orderFrom. rewrite S1, S2, S3, S4 by lia.
  rewrite clampStep_id by lia. f_equal; lia.
Qed.

Lemma collisionExpr_total th t : exists b, collisionExpr (inr th) t = inr b.
Proof.
  unfold collisionExpr. destruct (cpa t); [|eauto].
  destruct (lt _ _); [|eauto]. destruct (tcpa t); eauto.
Qed.

Lemma guardAlarmExpr_total cp g t :
  guardOf cp = inr g -> exists b, guardAlarmExpr cp t = inr b.
Proof.
  intros Hg. unfold guardAlarmExpr. rewrite Hg. destruct (range t); eauto.
Qed.

Lemma wellFormed_completes cp t :
  wellFormed cp -> Completes cp t (evaluateAlarms t cp).
Proof.
  intros (g & d & w & Hg & Hd & Hw).
  destruct (guardAlarmExpr_total cp g t Hg) as (bg & Hbg).
  destruct (collisionExpr_total d t) as (bd & Hbd).
  destruct (collisionExpr_total w t) as (bw & Hbw).
  rewrite <- Hd in Hbd. rewrite <- Hw in Hbw.
  destruct (evaluateAlarms_stop cp t) as [[e H]|H]; [|exact H].
  exfalso. destruct H; congruence.
Qed.

Lemma anyDanger_flags t t' : sameFlags t t' -> anyDanger t' = anyDanger t.
Proof.
  intros (H1 & H2 & _ & H4 & H5 & H6). unfold anyDanger.
  now rewrite H1, H2, H4, H5, H6.
Qed.

Lemma rank_alarmState t :
  (rank t).(alarmState) = (setBase (withIdFlags t)).(alarmState).
Proof.
  unfold rank. set (u := setBase (withIdFlags t)).
  unfold clampOrder, applyNoRange, applyRange, applyCpa, applyTcpa, setAlarmType,
    addOrder, subOrder.
  repeat match goal with
         | |- context [if ?c then _ else _] => destruct c eqn:?
         | |- context [match ?v with _ => _ end] => destruct v eqn:?
         end; reflexivity.
Qed.

Lemma setBase_alarmState t :
  anyDanger t = true -> (setBase t).(alarmState) = Some danger_state.
Proof. intros H. unfold setBase. rewrite H. reflexivity. Qed.

Lemma baseOrder_int t :
  exists B, (10000 <= B <= 40000)%Z /\ baseOrder t = of_Z B /\
    (anyDanger t = true -> B = 10000%Z) /\
    (anyDanger t = false -> flag t.(collisionWarning) = false -> (30000 <= B)%Z).
Proof.
  unfold baseOrder. destruct (anyDanger t).
  - exists 10000%Z. repeat split; try lia; discriminate.
  - destruct (flag (collisionWarning t)).
    + exists 20000%Z. repeat split; try lia; discriminate.
    + destruct (positive (tcpa t)).
      * exists 30000%Z. repeat split; try lia; discriminate.
      * exists 40000%Z. repeat split; try lia; discriminate.
Qed.

(** The classified target, its base and its order. *)
Lemma classified_order t cp :
  wellFormed cp ->
  let t' := evaluateAlarms t cp in
  exists u, sameFlags u t' /\ t'.(alarmState) = (setBase u).(alarmState) /\
    t'.(order)
    = Some (orderFrom (baseOrder u) t.(tcpa) t.(cpa) t.(range)).
Proof.
  intros Hwf t'. subst t'.
  destruct (wellFormed_completes cp t Hwf) as (g & a & w & _ & _ & _ & ->).
  set (v := set_collisionWarning (Some w)
              (set_collisionAlarm (Some a) (set_guardAlarm (Some g) t))).
  exists (withIdFlags v). split; [apply rank_flags|].
  split; [apply rank_alarmState|]. rewrite rank_order. reflexivity.
Qed.

(** C4: after [evaluateAlarms] has run on a target under a profile that
    has its three threshold groups, whatever the range, cpa, tcpa (null,
    NaN and infinities included) and whatever the threshold values, the
    priority order is a number with [-99999 <= order <= 99999]. *)
Theorem order_within_clamp (t : Target) (cp : option CollisionProfiles) :
  wellFormed cp ->
  exists o, (evaluateAlarms t cp).(order) = Some o /\
    ge o PRIORITY_WEIGHTS.ORDER_MIN = true /\
    (o <=? PRIORITY_WEIGHTS.ORDER_MAX) = true.
Proof.
  intros Hwf. pose proof pow53_big as P.
  destruct (classified_order t cp Hwf) as (u & _ & _ & Ho).
  destruct (baseOrder_int u) as (B & HB & EB & _).
  destruct (orderFrom_shift t.(tcpa) t.(cpa) t.(range)) as (d & Hd & Hs).
  rewrite EB, Hs in Ho by assumption.
  eexists. split; [exact Ho|]. split.
  - unfold ge, PRIORITY_WEIGHTS.ORDER_MIN.
    rewrite leb_spec, Prim2SF_of_Z by lia.
    destruct (B + d)%Z eqn:E; try reflexivity. lia.
  - unfold PRIORITY_WEIGHTS.ORDER_MAX. change 99999 with (of_Z 99999).
    rewrite of_Z_leb by lia. apply Z.leb_le. lia.
Qed.

(** C3: two targets classified under the same profile, with the same
    range, cpa, tcpa and speed over ground: if the first has an alarm
    (guard, collision, SART, MOB or EPIRB) and the second has neither an
    alarm nor a collision warning, then the first has alarm state "danger"
    and its priority order is strictly less than the second's. *)
Theorem alarmed_before_unalarmed (t1 t2 : Target) (cp : option CollisionProfiles) :
  wellFormed cp ->
  t1.(range) = t2.(range) -> t1.(cpa) = t2.(cpa) -> t1.(tcpa) = t2.(tcpa) ->
  t1.(sog) = t2.(sog) ->
  let a := evaluateAlarms t1 cp in
  let b := evaluateAlarms t2 cp in
  anyDanger a = true ->
  anyDanger b = false -> flag b.(collisionWarning) = false ->
  a.(alarmState) = Some danger_state /\
  exists oa ob, a.(order) = Some oa /\ b.(order) = Some ob /\ lt oa ob = true.
Proof.
  intros Hwf Hr Hc Ht _ a b Ha Hb Hbw. pose proof pow53_big as P.
  destruct (classified_order t1 cp Hwf) as (u1 & F1 & S1 & O1).
  destruct (classified_order t2 cp Hwf) as (u2 & F2 & S2 & O2).
  fold a in F1, S1, O1. fold b in F2, S2, O2.
  rewrite (anyDanger_flags _ _ F1) in Ha. rewrite (anyDanger_flags _ _ F2) in Hb.
  assert (Hbw' : flag (collisionWarning u2) = false).
  { destruct F2 as (_ & _ & <- & _). exact Hbw. }
  split; [rewrite S1; now apply setBase_alarmState|].
  destruct (baseOrder_int u1) as (B1 & HB1 & E1 & D1 & _).
  destruct (baseOrder_int u2) as (B2 & HB2 & E2 & _ & D2).
  specialize (D1 Ha). specialize (D2 Hb Hbw').
  rewrite Hr, Hc, Ht, E1 in O1. rewrite E2 in O2.
  destruct (orderFrom_shift t2.(tcpa) t2.(cpa) t2.(range)) as (d & Hd & Hs).
  rewrite Hs in O1, O2 by assumption.
  eexists _, _. split; [exact O1|]. split; [exact O2|].
  unfold lt. rewrite of_Z_ltb by lia. apply Z.ltb_lt. lia.
Qed.

Lemma harbor_wellFormed : wellFormed harborProfiles.
Proof. eexists _, _, _. repeat split; reflexivity. Defined.

(** The harbor profile has its three threshold groups. *)
Lemma order_within_clamp_witness :
  exists o, (evaluateAlarms nearby harborProfiles).(order) = Some o /\
    ge o PRIORITY_WEIGHTS.ORDER_MIN = true /\
    (o <=? PRIORITY_WEIGHTS.ORDER_MAX) = true.
Proof. apply order_within_clamp. exact harbor_wellFormed. Defined.

(** A SART transmitter and an ordinary vessel, both 5000 m away with no
    closest-approach solution, under the harbor profile. *)
Lemma alarmed_before_unalarmed_witness :
  let a := evaluateAlarms sart harborProfiles in
  let b := evaluateAlarms vessel harborProfiles in
  a.(alarmState) = Some danger_state /\
  exists oa ob, a.(order) = Some oa /\ b.(order) = Some ob /\ lt oa ob = true.
Proof.
  apply (alarmed_before_unalarmed sart vessel harborProfiles);
    try reflexivity. exact harbor_wellFormed.
Defined.

End OrderProofs.

(** ** Recompute *)

Module RecomputeProofs.
Import Num Const Kinematics Classifier Recompute.
Import ClassifierSpec ClassifierProofs RecomputeSpec Samples.
Local Open Scope float_scope.

Section WithMath.
Context {M : MathLib}.

Lemma sameReport_trans t1 t2 t3 :
  sameReport t1 t2 -> sameReport t2 t3 -> sameReport t1 t3.
Proof.
  unfold sameReport. intros (?&?&?&?&?&?) (?&?&?&?&?&?). split_all; congruence.
Qed.

Lemma updateCpa_report s t : sameReport t (updateCpa s t).
Proof. unfold sameReport. step_frame updateCpa. Qed.

Lemma updateCpa_range s t :
  (updateCpa s t).(range) = t.(range) /\ (updateCpa s t).(bearing) = t.(bearing).
Proof. step_frame updateCpa. Qed.

Lemma calculateRangeAndBearing_report s t :
  sameReport t (calculateRangeAndBearing s t).
Proof. unfold sameReport, calculateRangeAndBearing. break_frame. Qed.

Lemma evaluateAlarms_report t cp : sameReport t (evaluateAlarms t cp).
Proof.
  destruct (evaluateAlarms_inputs t cp) as (?&?&?&?&?&?&?&_).
  unfold sameReport. split_all; assumption.
Qed.

Lemma updateSingle_unfold target selfTarget cp maxAge now :
  updateSingleTargetDerivedData target selfTarget cp maxAge now =
  let c := classified target selfTarget cp in
  let age := ageSeconds now c.(lastSeenDate) in
  let c := set_isLost (Some (gt age LOST_TARGET_WARNING_AGE))
             (set_lastSeen (Some age) c) in
  set_isValid (Some (validity c maxAge)) c.
Proof. reflexivity. Qed.

Lemma classified_report target selfTarget cp :
  sameReport target (classified target selfTarget cp).
Proof.
  unfold classified. cbv zeta.
  match goal with |- context [if ?c then _ else _] => destruct c end.
  - eapply sameReport_trans; [|apply evaluateAlarms_report].
    eapply sameReport_trans; [|apply updateCpa_report].
    eapply sameReport_trans; [|apply calculateRangeAndBearing_report].
    unfold sameReport; split_all; reflexivity.
  - unfold sameReport; split_all; reflexivity.
Qed.

(** Age and validity as [updateSingleTargetDerivedData] stores them. *)
Lemma updateSingle_age target selfTarget cp maxAge now :
  let t' := updateSingleTargetDerivedData target selfTarget cp maxAge now in
  let age := ageSeconds now target.(lastSeenDate) in
  t'.(lastSeen) = Some age /\
  t'.(isValid) =
    Some (if is_null target.(latitude) || is_null target.(longitude)
             || gt age maxAge then false else true) /\
  sameReport target t'.
Proof.
  rewrite updateSingle_unfold. cbv zeta.
  pose proof (classified_report target selfTarget cp) as Hr.
  destruct Hr as (Hm & Hlat & Hlon & Hs & Hc & Hd).
  unfold validity. simpl. rewrite Hd, Hlat, Hlon.
  split; [reflexivity|]. split; [reflexivity|].
  unfold sameReport; simpl. split_all; assumption.
Qed.



Lemma calculateRangeAndBearing_known s t :
  let t' := calculateRangeAndBearing s t in
  (bothFixes s t -> known t'.(range) /\ known t'.(bearing)) /\
  (~ bothFixes s t -> t'.(range) = None /\ t'.(bearing) = None).
Proof.
  unfold calculateRangeAndBearing, bothFixes, known.
  destruct (latitude s), (longitude s), (latitude t), (longitude t); simpl;
    split; intros H; try (split; congruence);
    try (exfalso; apply H; split_all; congruence);
    try (exfalso; destruct H as (?&?&?&?); congruence).
Qed.

(** C9: after [updateSingleTargetDerivedData] on a target other than the
    self target, range and bearing are both non-null exactly when the
    latitude and longitude of both the self target and the target are
    non-null (a coordinate of 0 is a number, so it counts as known), and
    both are null otherwise. *)
Theorem range_bearing_known_iff target selfTarget cp maxAge now :
  target.(mmsi) <> selfTarget.(mmsi) ->
  let t' := updateSingleTargetDerivedData target selfTarget cp maxAge now in
  (bothFixes selfTarget target <-> known t'.(range) /\ known t'.(bearing)) /\
  (~ bothFixes selfTarget target -> t'.(range) = None /\ t'.(bearing) = None).
Proof.
  intros Hne t'. subst t'. rewrite updateSingle_unfold. cbv zeta. simpl.
  unfold classified. cbv zeta. simpl.
  apply String.eqb_neq in Hne. rewrite Hne. simpl.
  match goal with |- context [evaluateAlarms ?u cp] =>
    destruct (evaluateAlarms_inputs u cp)
      as (_&_&_&_&_&_&_&_&_&_&_&_&Hr&Hb&_); rewrite Hr, Hb end.
  match goal with |- context [updateCpa selfTarget ?u] =>
    destruct (updateCpa_range selfTarget u) as (Hr' & Hb'); rewrite Hr', Hb' end.
  match goal with |- context [calculateRangeAndBearing selfTarget ?u] =>
    pose proof (calculateRangeAndBearing_known selfTarget u) as Hk end.
  cbv zeta in Hk. unfold bothFixes in *. simpl in Hk. destruct Hk as [Hk1 Hk2].
  split; [|exact Hk2]. split; [exact Hk1|].
  intros [Hr0 Hb0].
  destruct (latitude selfTarget), (longitude selfTarget), (latitude target),
    (longitude target); unfold known; split_all; try congruence;
    exfalso; apply Hr0; apply Hk2; intros (?&?&?&?); unfold known in *; congruence.
Qed.

Lemma heap_set_other h r t r' : r' <> r -> heap_set h r t r' = h r'.
Proof.
  intros H. unfold heap_set. apply Nat.eqb_neq in H. now rewrite H.
Qed.

Lemma heap_set_same h r t : heap_set h r t r = t.
Proof. unfold heap_set. now rewrite Nat.eqb_refl. Qed.


End WithMath.


(** A target at latitude 0, longitude 0 and an own vessel with a fix. *)
Lemma range_bearing_known_iff_witness :
  let t' := updateSingleTargetDerivedData (M := linearMath) equator ownFix
              harborProfiles TARGET_MAX_AGE 1000 in
  (bothFixes ownFix equator <-> known t'.(range) /\ known t'.(bearing)) /\
  (~ bothFixes ownFix equator -> t'.(range) = None /\ t'.(bearing) = None).
Proof.
  apply (range_bearing_known_iff (M := linearMath)). discriminate.
Defined.


End RecomputeProofs.

(** ** Bearing *)

Module BearingProofs.
Import FloatSpec FloatFacts Rounding IntegerFloats Adjustments.
Import Num Const Kinematics BearingSpec Samples.
Local Open Scope string_scope.
Local Open Scope float_scope.

Lemma of_Z_is_integer k : (0 <= k < 2 ^ 53)%Z -> is_integer (of_Z k) = true.
Proof.
  intros Hk. unfold is_integer. rewrite Prim2SF_of_Z by lia.
  destruct k as [|p|p]; try reflexivity; try lia.
  cbn [Z2SF]. unfold intSF.
  pose proof (small_digits p ltac:(lia)) as Hd. pose proof (digits_pos p).
  destruct (0 <=? digits p - 53)%Z; [reflexivity|].
  rewrite rescale_int by assumption.
  replace (- (digits p - 53))%Z with (53 - digits p)%Z by lia.
  rewrite Z.mod_mul by (apply Z.pow_nonzero; lia). reflexivity.
Qed.

Lemma of_Z_wholeDegrees k : (0 <= k <= 359)%Z -> wholeDegrees (of_Z k).
Proof.
  intros Hk. assert (P : (1000000 < 2 ^ 53)%Z) by reflexivity. split; [apply of_Z_is_integer; lia|].
  change 0 with (of_Z 0). change 360 with (of_Z 360).
  rewrite of_Z_leb, of_Z_ltb by lia. split; [apply Z.leb_le | apply Z.ltb_lt]; lia.
Qed.

(** The stored bearing is never 360. *)
Lemma foldBearing_never_360 (b : float) : foldBearing b <> 360.
Proof.
  unfold foldBearing, ge. destruct (360 <=? b) eqn:E; intros H.
  - apply (f_equal Prim2SF) in H. vm_compute in H. discriminate.
  - subst b. vm_compute in E. discriminate.
Qed.

Lemma half_up_below_360 m e :
  (e < -44 \/ (e = -44 /\ Zpos m < 6333186975989760))%Z ->
  (Zpos m < 2 ^ 53)%Z ->
  (0 <= (2 * Z.pos m + 2 ^ (- e)) / 2 ^ (1 - e) <= 360)%Z.
Proof.
  intros He Hm.
  assert (Hb : (2 ^ (1 - e) = 2 * 2 ^ (- e))%Z).
  { replace (1 - e)%Z with (Z.succ (- e)) by lia. apply Z.pow_succ_r. lia. }
  assert (HP : (2 ^ 44 <= 2 ^ (- e))%Z) by (apply Z.pow_le_mono_r; lia).
  change (2 ^ 44)%Z with 17592186044416%Z in HP.
  change (2 ^ 53)%Z with 9007199254740992%Z in Hm.
  rewrite Hb. split.
  - apply Z.div_pos; lia.
  - assert (H : ((2 * Z.pos m + 2 ^ (- e)) / (2 * 2 ^ (- e)) < 361)%Z); [|lia].
    apply Z.div_lt_upper_bound; [lia|].
    destruct He as [He|[-> Hm']].
    + assert (HP' : (2 ^ 45 <= 2 ^ (- e))%Z) by (apply Z.pow_le_mono_r; lia).
      change (2 ^ 45)%Z with 35184372088832%Z in HP'. lia.
    + change (2 ^ (- -44))%Z with 17592186044416%Z. lia.
Qed.

Lemma SFltb_finite m e m' e' :
  SFltb (S754_finite false m e) (S754_finite false m' e') = true ->
  (e < e' \/ (e = e' /\ Zpos m < Zpos m'))%Z.
Proof.
  unfold SFltb. cbn [SFcompare]. intros H.
  destruct (Z.compare_spec e e') as [He|He|He]; [right|left|discriminate].
  - split; [assumption|].
    rewrite Pos.compare_cont_spec in H. unfold Pos.switch_Eq in H.
    destruct (Pos.compare_spec m m') as [Hc|Hc|Hc]; try discriminate.
    apply Pos2Z.pos_lt_pos. exact Hc.
  - assumption.
Qed.

Lemma Prim2SF_360 : Prim2SF 360 = S754_finite false 6333186975989760 (-44).
Proof. vm_compute. reflexivity. Qed.

Lemma Prim2SF_0 : Prim2SF 0 = S754_zero false.
Proof. vm_compute. reflexivity. Qed.

Lemma of_Z_360 : of_Z 360 = 360.
Proof. vm_compute. reflexivity. Qed.

Lemma of_Z_0 : of_Z 0 = 0.
Proof. vm_compute. reflexivity. Qed.

Lemma foldBearing_of_Z n :
  (0 <= n <= 360)%Z -> wholeDegrees (foldBearing (of_Z n)).
Proof.
  intros Hn. assert (P : (1000000 < 2 ^ 53)%Z) by reflexivity.
  unfold foldBearing, ge. rewrite <- of_Z_360.
  rewrite of_Z_leb by lia.
  destruct (Z.leb_spec 360 n).
  - rewrite <- of_Z_0. apply of_Z_wholeDegrees. lia.
  - apply of_Z_wholeDegrees. lia.
Qed.

(** A rhumb-line value in [0, 360) is stored as a whole number of degrees. *)
Lemma stored_bearing_whole (raw : float) :
  (0 <=? raw) = true -> (raw <? 360) = true ->
  wholeDegrees (foldBearing (Math_round raw)).
Proof.
  intros Hlo Hhi.
  unfold Math_round.
  destruct (Prim2SF raw) as [s|s| |s m e] eqn:Er.
  - (* a zero *)
    unfold foldBearing, ge.
    assert (H360 : (360 <=? raw) = false).
    { rewrite leb_spec, Er, Prim2SF_360. reflexivity. }
    rewrite H360. split; [|split; assumption].
    unfold is_integer. rewrite Er. reflexivity.
  - rewrite ltb_spec, Er, Prim2SF_360 in Hhi.
    rewrite leb_spec, Er, Prim2SF_0 in Hlo. destruct s; discriminate.
  - rewrite ltb_spec, Er in Hhi. discriminate.
  - pose proof (Prim2SF_finite raw _ _ _ Er) as (Hem & Hdm & Hnorm).
    rewrite leb_spec, Er, Prim2SF_0 in Hlo.
    rewrite ltb_spec, Er, Prim2SF_360 in Hhi.
    destruct s; [discriminate|].
    apply SFltb_finite in Hhi.
    assert (Hm53 : (Zpos m < 2 ^ 53)%Z).
    { pose proof (digits_bounds m) as [_ Hmhi].
      assert (2 ^ digits m <= 2 ^ 53)%Z by (apply Z.pow_le_mono_r; lia).
      clear Hhi. lia. }
    pose proof (half_up_below_360 m e Hhi Hm53) as Hn.
    assert (He0 : (0 <=? e)%Z = false).
    { apply Z.leb_gt. clear Hn Hm53. destruct Hhi as [H|[H _]]; lia. }
    rewrite He0. cbn [cond_Zopp].
    set (n := ((2 * Z.pos m + 2 ^ (- e)) / 2 ^ (1 - e))%Z) in *.
    destruct (n =? 0)%Z eqn:En.
    + apply (foldBearing_of_Z 0). clear. lia.
    + apply foldBearing_of_Z. exact Hn.
Qed.

Lemma linearMath_conforms : MathLibConforms linearMath.
Proof.
  split; try reflexivity. intros a. apply Prim2SF_inj.
  cbn [Math_atan2 linearMath]. rewrite div_spec. unfold SF64div.
  change (Prim2SF nan) with S754_nan. destruct (Prim2SF a); reflexivity.
Defined.

Section WithMath.
Context {M : MathLib}.

(** X28: with both fixes known and a rhumb-line value in [0, 360), the stored
    bearing is a whole number of degrees from 0 to 359. *)
Lemma bearing_whole_in_range (selfTarget target : Target)
    (slat slon tlat tlon : float) :
  selfTarget.(latitude) = Some slat -> selfTarget.(longitude) = Some slon ->
  target.(latitude) = Some tlat -> target.(longitude) = Some tlon ->
  (0 <=? getRhumbLineBearing slat slon tlat tlon) = true ->
  (getRhumbLineBearing slat slon tlat tlon <? 360) = true ->
  exists b, (calculateRangeAndBearing selfTarget target).(bearing) = Some b
            /\ wholeDegrees b.
Proof.
  intros H1 H2 H3 H4 Hlo Hhi. unfold calculateRangeAndBearing.
  rewrite H1, H2, H3, H4. eexists. split; [reflexivity|].
  now apply stored_bearing_whole.
Qed.

Lemma south_pole_rhumb (HM : MathLibConforms M) (lon1 lon2 : float) :
  getRhumbLineBearing (-90) lon1 (-90) lon2 = nan.
Proof.
  unfold getRhumbLineBearing.
  change (toRadians (-90) / 2 + Math_PI / 4) with 0.
  rewrite (@tan_zero M HM). change (0 / 0) with nan.
  rewrite (@log_nan M HM), (@atan2_nan_r M HM). reflexivity.
Qed.

(** C8, at the failing input: with the own vessel and the target both at
    latitude -90, on any engine whose [Math] has the special values
    ECMAScript fixes, the bearing stored on the target is NaN, not an
    integer in [0, 360). *)
Theorem south_pole_bearing_nan (selfTarget target : Target) (lon1 lon2 : float) :
  MathLibConforms M ->
  selfTarget.(latitude) = Some (-90) -> selfTarget.(longitude) = Some lon1 ->
  target.(latitude) = Some (-90) -> target.(longitude) = Some lon2 ->
  (calculateRangeAndBearing selfTarget target).(bearing) = Some nan.
Proof.
  intros HM H1 H2 H3 H4. unfold calculateRangeAndBearing.
  rewrite H1, H2, H3, H4. cbn [bearing set_bearing].
  rewrite (south_pole_rhumb HM lon1 lon2). reflexivity.
Qed.

End WithMath.

(** Own vessel at (-90, 0) and target at (-90, 10). *)
Lemma south_pole_bearing_nan_witness :
  (calculateRangeAndBearing (M := linearMath)
     (southPole "000000001" 0) (southPole "123456789" 10)).(bearing) = Some nan.
Proof.
  apply (south_pole_bearing_nan (M := linearMath) _ _ 0 10 linearMath_conforms);
    reflexivity.
Defined.

End BearingProofs.

(** ** Delta ingestion *)

Module IngestProofs.
Import Ingest Samples.
Local Open Scope string_scope.

Lemma assoc_setEntry (key : string) (r : ref) (es : list (string * ref)) :
  assoc key (setEntry key r es) = Some r.
Proof.
  induction es as [|[k x] es IH]; simpl.
  - rewrite String.eqb_refl. reflexivity.
  - destruct (String.eqb key k) eqn:E; simpl; rewrite E; [reflexivity | exact IH].
Qed.

Lemma mapHas_mapSet (mmsi : string) (r : ref) (st : Store) :
  mapHas (mapSet mmsi r st) mmsi = true.
Proof. unfold mapHas, mapGet, mapSet. simpl. now rewrite assoc_setEntry. Qed.

(** X6: with an [updates] member, a delta whose context ends in nine digits
    either makes [processDelta] throw or has the id returned and the
    target in the store. *)
Lemma processDelta_stores (delta : Delta) (st : Store) (ctx : string)
    (us : list Update) :
  delta.(delta_context) = Some ctx -> isMmsi (slice9 ctx) = true ->
  delta.(delta_updates) = Some us ->
  (exists e, fst (processDelta delta st) = inl e) \/
  (fst (processDelta delta st) = inr (Some (slice9 ctx)) /\
   mapHas (snd (processDelta delta st)) (slice9 ctx) = true).
Proof.
  intros Hc Hm Hu. unfold processDelta. rewrite Hc.
  destruct (String.eqb ctx "") eqn:E.
  - apply String.eqb_eq in E. subst ctx. discriminate.
  - rewrite Hm. cbn [negb].
    destruct (mapGet st (slice9 ctx)) as [r|]; rewrite Hu;
      match goal with |- context [applyUpdates us ?t] =>
        destruct (applyUpdates us t) as [[e|u] t'] end; cbn [fst snd];
      first [ left; eexists; reflexivity
            | right; split; [reflexivity | apply mapHas_mapSet] ].
Qed.

(** C6, at the failing input: for a delta that has the context
    "vessels.urn:mrn:imo:mmsi:123456789" and no [updates], processed on an
    empty store, [processDelta] returns "123456789" and the store has no
    entry for that id afterwards. *)
Theorem processDelta_returns_id_without_storing :
  let '(res, st') := processDelta contextOnly emptyStore in
  res = inr (Some "123456789") /\ mapHas st' "123456789" = false /\
  st'.(entries) = [].
Proof. vm_compute. repeat split. Qed.

(** A second way C6 fails: a [navigation.position] whose
    value is [null] makes [processDelta] throw, so nothing is returned and
    the new target is not stored. *)
Lemma processDelta_null_position_throws :
  let '(res, st') := processDelta nullPosition emptyStore in
  res = inl (TypeError "latitude") /\ mapHas st' "123456789" = false.
Proof. vm_compute. repeat split. Qed.

End IngestProofs.

(** ** More on binary64 numbers *)

Module FloatMore.
Import FloatSpec FloatFacts Rounding IntegerFloats Adjustments BearingProofs.
Import Num OrderSpec.
Local Open Scope float_scope.

(** ** Differences and NaN *)

Lemma sub_self (c : float) :
  Prim2SF (c - c) = S754_zero false \/ Prim2SF (c - c) = S754_nan.
Proof.
  rewrite sub_spec. unfold SF64sub.
  destruct (Prim2SF c) as [[]|[]| |s m e]; cbn [SFsub Bool.eqb negb]; auto.
  left. rewrite Z.sub_diag. reflexivity.
Qed.

Lemma sub_self_cases (c : float) : c - c = 0 \/ c - c = nan.
Proof.
  destruct (sub_self c) as [H|H]; [left|right]; apply Prim2SF_inj; rewrite H;
    reflexivity.
Qed.

Lemma div_nan_r (a : float) : a / nan = nan.
Proof.
  apply Prim2SF_inj. rewrite div_spec. change (Prim2SF nan) with S754_nan.
  unfold SF64div. destruct (Prim2SF a) as [[]|[]| |[] m e]; reflexivity.
Qed.

(** ** Zeros *)

Lemma sub_self_zeroish (c : float) : zeroish (Prim2SF (c - c)).
Proof. destruct (sub_self c) as [-> | ->]; exact I. Qed.

Lemma mul_zeroish_l (a b : float) :
  zeroish (Prim2SF a) -> zeroish (Prim2SF (a * b)).
Proof.
  rewrite mul_spec. unfold SF64mul.
  destruct (Prim2SF a) as [sa|sa| |sa ma ea]; try contradiction; intros _;
    destruct (Prim2SF b) as [sb|sb| |sb mb eb]; cbn; try exact I;
    destruct sa, sb; exact I.
Qed.

Lemma add_zeroish (a b : float) :
  zeroish (Prim2SF a) -> zeroish (Prim2SF b) -> zeroish (Prim2SF (a + b)).
Proof.
  rewrite add_spec. unfold SF64add.
  destruct (Prim2SF a) as [sa|sa| |sa ma ea]; try contradiction; intros _;
    destruct (Prim2SF b) as [sb|sb| |sb mb eb]; try contradiction; intros _;
    cbn; try exact I.
  destruct sa, sb; exact I.
Qed.

Lemma opp_zeroish (a : float) : zeroish (Prim2SF a) -> zeroish (Prim2SF (- a)).
Proof.
  rewrite opp_spec. destruct (Prim2SF a); try contradiction; intros _; exact I.
Qed.

Lemma div_zeroish_l (a b : float) :
  zeroish (Prim2SF a) -> zeroish (Prim2SF (a / b)).
Proof.
  rewrite div_spec. unfold SF64div.
  destruct (Prim2SF a) as [sa|sa| |sa ma ea]; try contradiction; intros _;
    destruct (Prim2SF b) as [sb|sb| |sb mb eb]; cbn; try exact I;
    destruct sa, sb; exact I.
Qed.

Lemma zeroish_falsy (a : float) : zeroish (Prim2SF a) -> falsy a = true.
Proof.
  unfold falsy, is_zero_num. rewrite is_nan_spec, eqb_spec.
  change (Prim2SF 0) with (S754_zero false).
  destruct (Prim2SF a) as [[]| | |]; try contradiction; intros _; reflexivity.
Qed.

(** ** Sums of squares and their roots *)

Lemma square_unsigned (a : float) : unsigned (Prim2SF (a * a)).
Proof.
  rewrite mul_spec. unfold SF64mul.
  destruct (Prim2SF a) as [[]|[]| |[] m e]; cbn [SFmul xorb];
    try (now left); try (right; constructor);
    right; apply binary_round_aux_signed; lia.
Qed.

Lemma add_unsigned (a b : float) :
  unsigned (Prim2SF a) -> unsigned (Prim2SF b) -> unsigned (Prim2SF (a + b)).
Proof.
  intros Ha Hb. rewrite add_spec. unfold SF64add.
  destruct Ha as [->|Ha]; [now left|].
  destruct Hb as [->|Hb]; [left; now destruct (Prim2SF a) as [[]|[]| |[] m e]|].
  destruct Ha as [| |ma ea], Hb as [| |mb eb]; cbn [SFadd Bool.eqb cond_Zopp];
    try (right; constructor).
  right.
  destruct (Z.pos (fst (shl_align ma ea (Z.min ea eb)))
            + Z.pos (fst (shl_align mb eb (Z.min ea eb))))%Z eqn:E; try lia.
  cbn [binary_normalize]. apply binary_round_signed.
Qed.

Lemma sqrt_core_nonneg m e :
  (0 <= fst (fst (SFsqrt_core_binary prec emax (Zpos m) e)))%Z.
Proof.
  unfold SFsqrt_core_binary.
  match goal with |- context [Z.sqrtrem ?v] =>
    pose proof (Z.sqrtrem_sqrt v) as Hs; destruct (Z.sqrtrem v) as [q r] end.
  cbn [fst] in *. subst q. apply Z.sqrt_nonneg.
Qed.

Lemma sqrt_unsigned (a : float) :
  unsigned (Prim2SF a) -> unsigned (Prim2SF (Math_sqrt a)).
Proof.
  intros Ha. unfold Math_sqrt. rewrite sqrt_spec. unfold SF64sqrt.
  destruct Ha as [->|Ha]; [now left|].
  destruct Ha as [| |m e]; cbn [SFsqrt]; try (right; constructor).
  right. pose proof (sqrt_core_nonneg m e) as Hq.
  destruct (SFsqrt_core_binary prec emax (Z.pos m) e) as [[mz ez] lz].
  apply binary_round_aux_signed. exact Hq.
Qed.

(** ** Rounding a number that is not negative *)

Lemma round_whole (q : float) :
  signed false (Prim2SF q) -> is_finite q = true ->
  (0 <=? Math_round q) = true /\ is_integer (Math_round q) = true.
Proof.
  intros Hq Hf. rewrite is_finite_spec in Hf. unfold Math_round.
  assert (P : (1000000 < 2 ^ 53)%Z) by reflexivity.
  destruct (Prim2SF q) as [s|s| |s m e] eqn:Eq; inversion Hq; subst;
    try discriminate.
  - split; [rewrite leb_spec, Eq; reflexivity|].
    unfold is_integer. now rewrite Eq.
  - destruct (0 <=? e)%Z eqn:He.
    + split; [rewrite leb_spec, Eq; reflexivity|].
      unfold is_integer. now rewrite Eq, He.
    + apply Z.leb_gt in He. cbn [cond_Zopp].
      pose proof (Prim2SF_finite q _ _ _ Eq) as (_ & Hdm & _).
      pose proof (half_up_range m e Hdm He) as Hn.
      set (n := ((2 * Z.pos m + 2 ^ (- e)) / 2 ^ (1 - e))%Z) in *.
      destruct (n =? 0)%Z; [split; reflexivity|].
      split; [|now apply of_Z_is_integer].
      rewrite <- of_Z_0. rewrite of_Z_leb by lia. apply Z.leb_le. lia.
Qed.

Lemma round_upto (q : float) (C : Z) :
  (0 < C < 2 ^ 52)%Z -> signed false (Prim2SF q) -> (of_Z C <? q) = false ->
  exists n, (0 <= n <= C)%Z /\ Math_round q = of_Z n.
Proof.
  intros HC Hq Hle.
  assert (H52 : (2 ^ 53 = 2 * 2 ^ 52)%Z) by reflexivity.
  rewrite ltb_spec, Prim2SF_of_Z in Hle by lia.
  destruct C as [|p|p]; try lia. cbn [Z2SF] in Hle. unfold intSF in Hle.
  unfold Math_round.
  destruct (Prim2SF q) as [s|s| |s m e] eqn:Eq; inversion Hq; subst.
  - exists 0%Z. split; [lia|]. now apply of_Z_zero_inj.
  - discriminate.
  - pose proof (Prim2SF_finite q _ _ _ Eq) as (_ & Hdm & _).
    pose proof (digits_below p 52 ltac:(lia)) as Hdp.
    pose proof (digits_pos p) as Hdp0.
    pose proof (digits_bounds p) as [Hplo _].
    pose proof (digits_bounds m) as [_ Hmhi].
    assert (Hm53 : (Zpos m < 2 ^ 53)%Z).
    { assert (2 ^ digits m <= 2 ^ 53)%Z by (apply Z.pow_le_mono_r; lia).
      clear Hle. lia. }
    pose proof (rescale_int p ltac:(lia)) as HmC.
    set (eC := (digits p - 53)%Z) in *.
    set (mC := rescale p 0 eC) in *.
    assert (He : (e < eC \/ (e = eC /\ Zpos m <= Zpos mC))%Z).
    { unfold SFltb in Hle. cbn [SFcompare] in Hle.
      destruct (Z.compare_spec eC e) as [E|E|E]; [right|discriminate|left; lia].
      split; [lia|].
      rewrite Pos.compare_cont_spec in Hle. unfold Pos.switch_Eq in Hle.
      destruct (Pos.compare_spec mC m) as [Hc|Hc|Hc]; try discriminate.
      - subst m. apply Z.le_refl.
      - apply Z.lt_le_incl. apply Pos2Z.pos_lt_pos. exact Hc. }
    clear Hle.
    assert (He0 : (e < 0)%Z) by (unfold eC in *; lia).
    assert (Hb : (2 ^ (1 - e) = 2 * 2 ^ (- e))%Z).
    { replace (1 - e)%Z with (Z.succ (- e)) by lia. apply Z.pow_succ_r. lia. }
    assert (Hpe : (0 < 2 ^ (- e))%Z) by (apply Z.pow_pos_nonneg; lia).
    assert (Hbound : (Zpos m <= Zpos p * 2 ^ (- e))%Z).
    { destruct He as [He|[-> Hm]].
      - assert (H1 : (2 ^ 53 <= 2 ^ (digits p - 1) * 2 ^ (- e))%Z).
        { rewrite <- Z.pow_add_r by lia. apply Z.pow_le_mono_r; unfold eC in *; lia. }
        assert (H2 : (2 ^ (digits p - 1) * 2 ^ (- e) <= Zpos p * 2 ^ (- e))%Z).
        { apply Z.mul_le_mono_nonneg_r; lia. }
        lia.
      - rewrite HmC in Hm. replace (- eC)%Z with (53 - digits p)%Z
          by (unfold eC; lia). exact Hm. }
    rewrite (proj2 (Z.leb_gt 0 e) He0). cbn [cond_Zopp].
    assert (Hn : (0 <= (2 * Z.pos m + 2 ^ (- e)) / 2 ^ (1 - e) <= Zpos p)%Z).
    { rewrite Hb. split; [apply Z.div_pos; lia|].
      assert (H : ((2 * Z.pos m + 2 ^ (- e)) / (2 * 2 ^ (- e)) < Zpos p + 1)%Z);
        [|lia].
      apply Z.div_lt_upper_bound; [lia|]. nia. }
    set (n := ((2 * Z.pos m + 2 ^ (- e)) / 2 ^ (1 - e))%Z) in *.
    destruct (n =? 0)%Z eqn:En.
    + exists 0%Z. split; [lia | reflexivity].
    + exists n. split; [exact Hn | reflexivity].
Qed.

(** ** The order of the numbers *)

Lemma compare_place (a b : spec_float) :
  a <> S754_nan -> b <> S754_nan ->
  match SFcompare a b with
  | Some Lt => before (place a) (place b)
  | Some Eq => place a = place b
  | Some Gt => before (place b) (place a)
  | None => False
  end.
Proof.
  intros Ha Hb.
  destruct a as [[]|[]| |[] m1 e1], b as [[]|[]| |[] m2 e2];
    try congruence; cbn [SFcompare place before]; try lia; try reflexivity.
  all: rewrite Pos.compare_cont_spec; unfold Pos.switch_Eq;
    destruct (Z.compare_spec e1 e2); destruct (Pos.compare_spec m1 m2);
    subst; cbn [CompOpp]; try reflexivity; lia.
Qed.

Lemma ltb_before (a b : float) :
  (a <? b) = true -> before (place (Prim2SF a)) (place (Prim2SF b)).
Proof.
  rewrite ltb_spec. unfold SFltb. intros H.
  destruct (Prim2SF a) eqn:Ea; try (destruct (Prim2SF b); discriminate).
  all: destruct (Prim2SF b) eqn:Eb; try discriminate.
  all: match goal with |- before (place ?x) (place ?y) =>
         pose proof (compare_place x y ltac:(discriminate) ltac:(discriminate)) as C;
         destruct (SFcompare x y) as [[]|]; try discriminate; exact C end.
Qed.

Lemma leb_before (a b : float) :
  (a <=? b) = true ->
  before (place (Prim2SF a)) (place (Prim2SF b))
  \/ place (Prim2SF a) = place (Prim2SF b).
Proof.
  rewrite leb_spec. unfold SFleb. intros H.
  destruct (Prim2SF a) eqn:Ea; try (destruct (Prim2SF b); discriminate).
  all: destruct (Prim2SF b) eqn:Eb; try discriminate.
  all: match goal with |- before (place ?x) (place ?y) \/ _ =>
         pose proof (compare_place x y ltac:(discriminate) ltac:(discriminate)) as C;
         destruct (SFcompare x y) as [[]|]; try discriminate; auto end.
Qed.

Lemma before_ltb (a b : float) :
  is_nan a = false -> is_nan b = false ->
  before (place (Prim2SF a)) (place (Prim2SF b)) -> (a <? b) = true.
Proof.
  rewrite !is_nan_spec, ltb_spec. unfold SFltb. intros Ha Hb H.
  assert (Na : Prim2SF a <> S754_nan) by (intros E; rewrite E in Ha; discriminate).
  assert (Nb : Prim2SF b <> S754_nan) by (intros E; rewrite E in Hb; discriminate).
  pose proof (compare_place _ _ Na Nb) as C.
  destruct (SFcompare (Prim2SF a) (Prim2SF b)) as [[]|]; try reflexivity;
    try contradiction; exfalso;
    destruct (place (Prim2SF a)) as [[x y] z], (place (Prim2SF b)) as [[x' y'] z'];
    cbn [before] in *; [injection C as -> -> ->|]; lia.
Qed.

Lemma leb_ltb_trans (a b c : float) :
  (a <=? b) = true -> (b <? c) = true -> (a <? c) = true.
Proof.
  intros H1 H2.
  assert (Na : is_nan a = false).
  { rewrite is_nan_spec. rewrite leb_spec in H1.
    destruct (Prim2SF a); try reflexivity. discriminate. }
  assert (Nc : is_nan c = false).
  { rewrite is_nan_spec. rewrite ltb_spec in H2. unfold SFltb in H2.
    destruct (Prim2SF c); try reflexivity.
    destruct (Prim2SF b) as [[]|[]| |[] ? ?]; discriminate. }
  apply before_ltb; try assumption.
  apply leb_before in H1. apply ltb_before in H2.
  destruct (place (Prim2SF a)) as [[x y] z], (place (Prim2SF b)) as [[x' y'] z'],
    (place (Prim2SF c)) as [[x'' y''] z''].
  cbn [before] in *. destruct H1 as [H1|[= -> -> ->]]; lia.
Qed.

End FloatMore.

(** ** The target store under ingestion *)

Module IngestFacts.
Import Ingest StoreSpec Samples.
Local Open Scope string_scope.

Lemma sameDerived_refl t : sameDerived t t.
Proof. unfold sameDerived. split_all; reflexivity. Qed.

Lemma sameDerived_trans t1 t2 t3 :
  sameDerived t1 t2 -> sameDerived t2 t3 -> sameDerived t1 t3.
Proof. unfold sameDerived. intros H1 H2. decompose [and] H1. decompose [and] H2.
  split_all; congruence. Qed.

Lemma quiet_ret {A : Type} (a : A) : Quiet (ret a).
Proof. intros t. apply sameDerived_refl. Qed.

Lemma quiet_throw {A : Type} (e : exn) : Quiet (@throw A e).
Proof. intros t. apply sameDerived_refl. Qed.

Lemma quiet_eval {A : Type} (f : Target -> exn + A) : Quiet (eval f).
Proof. intros t. apply sameDerived_refl. Qed.

Lemma quiet_get : Quiet get.
Proof. intros t. apply sameDerived_refl. Qed.

Lemma quiet_bind {A B : Type} (c : Exec A) (k : A -> Exec B) :
  Quiet c -> (forall a, Quiet (k a)) -> Quiet (bind c k).
Proof.
  intros Hc Hk t. unfold bind. specialize (Hc t).
  destruct (c t) as [[e|a] t']; simpl in *; [exact Hc|].
  eapply sameDerived_trans; [exact Hc | apply Hk].
Qed.

Lemma quiet_modify (f : Target -> Target) :
  (forall t, sameDerived t (f t)) -> Quiet (modify f).
Proof. intros Hf t. apply Hf. Qed.

Lemma quiet_assign key v : Quiet (assign key v).
Proof. apply quiet_modify. intros t. unfold sameDerived. split_all; reflexivity. Qed.

Ltac quiet :=
  repeat first
    [ assumption | apply quiet_ret | apply quiet_throw | apply quiet_eval | apply quiet_get
    | apply quiet_assign
    | apply quiet_bind; [| intros ?]
    | apply quiet_modify; intros ?; unfold sameDerived; split_all; reflexivity
    | match goal with
      | |- Quiet (if ?c then _ else _) => destruct c
      | |- Quiet (match ?v with _ => _ end) => destruct v
      end ].

Lemma quiet_applyRoot v : Quiet (applyRoot v).
Proof. unfold applyRoot. quiet. Qed.

Lemma quiet_applyValue ts pv : Quiet (applyValue ts pv).
Proof. unfold applyValue. pose proof (quiet_applyRoot (pv_value pv)). cbv zeta. quiet. Qed.

Lemma quiet_applyValues ts vs : Quiet (applyValues ts vs).
Proof.
  induction vs as [|pv vs IH]; simpl; [apply quiet_ret|].
  apply quiet_bind; [apply quiet_applyValue | intros _; exact IH].
Qed.

Lemma quiet_applyUpdates us : Quiet (applyUpdates us).
Proof.
  induction us as [|u us IH]; simpl; [apply quiet_ret|].
  destruct (upd_values u); [|exact IH].
  apply quiet_bind; [apply quiet_applyValues | intros _; exact IH].
Qed.

Lemma assoc_In {A : Type} (k : string) (l : list (string * A)) (v : A) :
  assoc k l = Some v -> In (k, v) l.
Proof.
  induction l as [|[k' x] l IH]; simpl; [discriminate|].
  destruct (String.eqb k k') eqn:E.
  - apply String.eqb_eq in E. intros [= ->]. left. now subst.
  - intros H. right. now apply IH.
Qed.

Lemma assoc_setEntry_other (key k : string) (r : ref) (es : list (string * ref)) :
  k <> key -> assoc k (setEntry key r es) = assoc k es.
Proof.
  intros Hne. induction es as [|[k' x] es IH]; simpl.
  - destruct (String.eqb k key) eqn:E; [|reflexivity].
    apply String.eqb_eq in E. contradiction.
  - destruct (String.eqb key k') eqn:E; simpl.
    + apply String.eqb_eq in E. subst k'.
      destruct (String.eqb k key) eqn:E'; [|reflexivity].
      apply String.eqb_eq in E'. contradiction.
    + destruct (String.eqb k k'); [reflexivity | exact IH].
Qed.

Lemma In_setEntry (key : string) (r : ref) (es : list (string * ref)) k x :
  In (k, x) (setEntry key r es) -> In (k, x) es \/ (k, x) = (key, r).
Proof.
  induction es as [|[k' y] es IH]; simpl.
  - intros [H|[]]. right. now symmetry.
  - destruct (String.eqb key k') eqn:E; simpl.
    + apply String.eqb_eq in E. subst k'. intros [H|H]; [right; now symmetry | left; now right].
    + intros [H|H]; [left; now left|]. destruct (IH H) as [H'|H']; [left; now right | now right].
Qed.

(** The three steps of [processDelta] for a delta about [id]. *)
Lemma processDelta_unfold delta st ctx :
  delta.(delta_context) = Some ctx -> isMmsi (slice9 ctx) = true ->
  let id := slice9 ctx in
  let r := placeOf st id in
  let seeded :=
    match mapGet st id with
    | Some _ => st
    | None => mkStore (heap_set st.(heap) st.(next) (newTarget id))
                (S st.(next)) st.(entries)
    end in
  let st1 :=
    with_heap (heap_set seeded.(heap) r (set_context (Some ctx) (mergeInto st id)))
      seeded in
  processDelta delta st =
  match delta.(delta_updates) with
  | None => (inr (Some id), st1)
  | Some us =>
      let st2 :=
        with_heap
          (heap_set st1.(heap) r
             (snd (applyUpdates us (set_context (Some ctx) (mergeInto st id)))))
          st1 in
      match fst (applyUpdates us (set_context (Some ctx) (mergeInto st id))) with
      | inl e => (inl e, st2)
      | inr _ => (inr (Some id), mapSet id r st2)
      end
  end.
Proof.
  intros Hc Hm. cbv zeta. unfold processDelta, placeOf, mergeInto. rewrite Hc.
  destruct (String.eqb ctx "") eqn:E.
  { apply String.eqb_eq in E. subst ctx. discriminate. }
  rewrite Hm. cbn [negb].
  destruct (mapGet st (slice9 ctx)) as [r|]; cbn [heap next entries with_heap];
    rewrite ?RecomputeProofs.heap_set_same;
    (destruct (delta_updates delta) as [us|]; [|reflexivity]);
    match goal with |- context [applyUpdates us ?t] =>
      destruct (applyUpdates us t) as [[e|u] t'] end; reflexivity.
Qed.

Lemma targetId_some delta id :
  targetId delta = Some id ->
  exists ctx, delta.(delta_context) = Some ctx /\ isMmsi (slice9 ctx) = true
              /\ id = slice9 ctx.
Proof.
  unfold targetId. destruct (delta_context delta) as [ctx|]; [|discriminate].
  destruct (isMmsi (slice9 ctx)) eqn:E; [|discriminate].
  intros [= <-]. now exists ctx.
Qed.

Lemma processDelta_no_id (delta : Delta) (st : Store) :
  targetId delta = None -> processDelta delta st = (inr None, st).
Proof.
  unfold targetId, processDelta.
  destruct (delta_context delta) as [ctx|]; [|reflexivity].
  destruct (String.eqb ctx ""); [reflexivity|].
  destruct (isMmsi (slice9 ctx)); [discriminate | reflexivity].
Qed.

(** X1: [processDelta] returns null exactly for a delta that names no
    target (no context, or a context whose last nine characters are not nine
    digits), and then leaves the store as it was; for any other delta it
    returns the nine-digit id or throws. *)
Theorem processDelta_outcome (delta : Delta) (st : Store) :
  match targetId delta with
  | None => processDelta delta st = (inr None, st)
  | Some id =>
      fst (processDelta delta st) = inr (Some id) \/
      exists e, fst (processDelta delta st) = inl e
  end.
Proof.
  destruct (targetId delta) as [id|] eqn:E; [|now apply processDelta_no_id].
  destruct (targetId_some _ _ E) as (ctx & Hc & Hm & ->).
  rewrite (processDelta_unfold delta st ctx Hc Hm).
  destruct (delta_updates delta) as [us|]; [|now left].
  destruct (fst (applyUpdates us _)); [right; eexists|left]; reflexivity.
Qed.

Lemma keyed_update (st : Store) (id : string) (r : ref)
    (h' : ref -> Target) (n' : nat) (es' : list (string * ref)) :
  keyed st ->
  (forall r', r' <> r -> r' < st.(next) -> h' r' = st.(heap) r') ->
  st.(next) <= n' -> r < n' ->
  (h' r).(mmsi) = id ->
  (forall k, In (k, r) st.(entries) -> k = id) ->
  (forall k x, In (k, x) es' -> In (k, x) st.(entries) \/ (k, x) = (id, r)) ->
  keyed (mkStore h' n' es').
Proof.
  intros K Hh Hn Hr Hid Hown Hes k x Hin. cbn [heap next entries].
  destruct (Hes k x Hin) as [H|[= -> ->]]; [|now split].
  destruct (K k x H) as [Hm Hlt]. split; [|lia].
  destruct (Nat.eq_dec x r) as [->|Hne].
  - rewrite (Hown k H). exact Hid.
  - rewrite Hh by assumption. exact Hm.
Qed.

Lemma placeOf_owner (st : Store) (id : string) :
  keyed st ->
  placeOf st id < S st.(next) /\
  (mapGet st id <> None -> placeOf st id < st.(next)) /\
  (mergeInto st id).(mmsi) = id /\
  forall k, In (k, placeOf st id) st.(entries) -> k = id.
Proof.
  intros K. unfold placeOf, mergeInto.
  destruct (mapGet st id) as [r|] eqn:G.
  - apply assoc_In in G. destruct (K _ _ G) as [Hm Hlt].
    split; [lia|]. split; [intros _; exact Hlt|]. split; [exact Hm|].
    intros k H. destruct (K _ _ H) as [Hk _]. congruence.
  - split; [lia|]. split; [intros C; now contradiction C|].
    split; [reflexivity|]. intros k H. apply K in H. lia.
Qed.

Lemma keys_setEntry (key : string) (r : ref) (es : list (string * ref)) :
  map fst (setEntry key r es)
  = if List.existsb (String.eqb key) (map fst es) then map fst es
    else (map fst es ++ [key])%list.
Proof.
  induction es as [|[k x] es IH]; [reflexivity|].
  cbn [setEntry map fst List.existsb]. destruct (String.eqb key k); [reflexivity|].
  cbn [map fst orb]. rewrite IH. now destruct (List.existsb _ _).
Qed.

Lemma unique_setEntry (key : string) (r : ref) (es : list (string * ref)) :
  NoDup (map fst es) -> NoDup (map fst (setEntry key r es)).
Proof.
  intros H. rewrite keys_setEntry.
  destruct (List.existsb (String.eqb key) (map fst es)) eqn:E; [exact H|].
  apply NoDup_app; [exact H | repeat constructor; intros [] |].
  intros k Hin [Ek|[]]. subst k.
  assert (List.existsb (String.eqb key) (map fst es) = true); [|congruence].
  apply List.existsb_exists. exists key. split; [exact Hin | apply String.eqb_refl].
Qed.

(** X2: [processDelta] keeps the store keyed: if every entry of the map
    points at an object whose [mmsi] is its key, and no key occurs twice,
    the same holds after the call, however it ends. *)
Theorem processDelta_keyed (delta : Delta) (st : Store) :
  keyed st -> uniqueKeys st ->
  keyed (snd (processDelta delta st)) /\
  uniqueKeys (snd (processDelta delta st)).
Proof.
  intros K U.
  destruct (targetId delta) as [id|] eqn:E;
    [|rewrite (processDelta_no_id _ _ E); now split].
  destruct (targetId_some _ _ E) as (ctx & Hc & Hm & ->).
  rewrite (processDelta_unfold delta st ctx Hc Hm).
  set (id := slice9 ctx). set (t0 := set_context (Some ctx) (mergeInto st id)).
  destruct (placeOf_owner st id K) as (Hlt & Hlt' & Hid & Hown).
  assert (Hq : forall us, (snd (applyUpdates us t0)).(mmsi) = id).
  { intros us. destruct (quiet_applyUpdates us t0) as [-> _]. exact Hid. }
  assert (Hfresh : forall r' (new : Target), r' < st.(next) ->
            heap_set st.(heap) st.(next) new r' = st.(heap) r').
  { intros r' new H. apply RecomputeProofs.heap_set_other. lia. }
  pose proof (unique_setEntry id (placeOf st id) st.(entries) U) as U'.
  unfold uniqueKeys in *.
  destruct (delta_updates delta) as [us|]; cbv zeta;
    [destruct (fst (applyUpdates us t0)) as [e|u]|]; cbn [snd];
    unfold mapSet, with_heap; cbn [heap next entries];
    (destruct (mapGet st id) as [r0|] eqn:G; cbn [heap next entries];
     (split; [|assumption]);
     (apply (keyed_update st id (placeOf st id));
      first
        [ assumption
        | lia
        | apply Hlt'; discriminate
        | intros r' Hne Hr';
          rewrite ?RecomputeProofs.heap_set_other by assumption;
          first [reflexivity | now apply Hfresh]
        | rewrite RecomputeProofs.heap_set_same; first [apply Hq | exact Hid]
        | intros k x H; now left
        | intros k x H; now apply In_setEntry ])).
Qed.

(** X3: [processDelta] touches one target only: for every key other than
    the id the delta is about, the map entry is as before and, in a keyed
    store, so is the object it points at.  No entry is ever removed. *)
Theorem processDelta_frame (delta : Delta) (st : Store) (k : string) :
  keyed st -> targetId delta <> Some k ->
  mapGet (snd (processDelta delta st)) k = mapGet st k /\
  forall r, mapGet st k = Some r ->
    (snd (processDelta delta st)).(heap) r = st.(heap) r.
Proof.
  intros K Hk.
  destruct (targetId delta) as [id|] eqn:E;
    [|rewrite (processDelta_no_id _ _ E); now split].
  assert (Hne : k <> id) by congruence.
  destruct (targetId_some _ _ E) as (ctx & Hc & Hm & ->).
  rewrite (processDelta_unfold delta st ctx Hc Hm).
  set (id := slice9 ctx) in *. set (t0 := set_context (Some ctx) (mergeInto st id)).
  destruct (placeOf_owner st id K) as (_ & _ & _ & Hown).
  assert (Hr : forall r, mapGet st k = Some r ->
             r <> placeOf st id /\ r <> st.(next)).
  { intros r G. apply assoc_In in G. split.
    - intros ->. apply Hown in G. contradiction.
    - apply K in G. lia. }
  destruct (delta_updates delta) as [us|]; cbv zeta;
    [destruct (fst (applyUpdates us t0)) as [e|u]|]; cbn [snd];
    unfold mapGet, mapSet, with_heap; cbn [heap next entries];
    (destruct (assoc id st.(entries)) as [r0|] eqn:G; cbn [heap next entries];
     rewrite ?assoc_setEntry_other by assumption;
     (split; [reflexivity|]); intros r Gr; destruct (Hr r Gr) as [H1 H2];
     now rewrite ?RecomputeProofs.heap_set_other by assumption).
Qed.

(** X4: ingestion never writes what the recompute derives: the planar
    position and velocity, range, bearing, CPA, TCPA, the alarm fields, the
    order, the age and the validity of the target a delta is merged into
    are after [processDelta] what they were before (all unset for a target
    seen for the first time), and its [mmsi] is not rewritten. *)
Theorem processDelta_keeps_derived (delta : Delta) (st : Store) :
  match targetId delta with
  | Some id =>
      sameDerived (mergeInto st id)
        ((snd (processDelta delta st)).(heap) (placeOf st id))
  | None => True
  end.
Proof.
  destruct (targetId delta) as [id|] eqn:E; [|exact I].
  destruct (targetId_some _ _ E) as (ctx & Hc & Hm & ->).
  rewrite (processDelta_unfold delta st ctx Hc Hm).
  set (id := slice9 ctx) in *. set (t0 := set_context (Some ctx) (mergeInto st id)).
  assert (H0 : sameDerived (mergeInto st id) t0).
  { unfold t0, sameDerived. split_all; reflexivity. }
  destruct (delta_updates delta) as [us|]; cbv zeta;
    [destruct (fst (applyUpdates us t0)) as [e|u]|]; cbn [snd];
    unfold mapSet, with_heap; cbn [heap next entries];
    rewrite RecomputeProofs.heap_set_same;
    first [ exact H0
          | eapply sameDerived_trans; [exact H0 | apply quiet_applyUpdates] ].
Qed.

(** X5: a position report is stored and found again: after a delta
    whose one value has the path "navigation.position" and carries the
    numbers [a] and [b] as latitude and longitude, [processDelta] returns
    the id, the map has the target under that id, and the target holds
    latitude [a], longitude [b], the update's timestamp as [lastSeenDate]
    and the delta's context; a target seen for the first time has speed
    and course 0. *)
Theorem position_round_trip (ctx : string) (ts : float) (v : JSON)
    (a b : float) (st : Store) :
  isMmsi (slice9 ctx) = true ->
  getProp v "latitude" = inr (JNum a) ->
  getProp v "longitude" = inr (JNum b) ->
  let out := processDelta (single ctx ts "navigation.position" v) st in
  fst out = inr (Some (slice9 ctx)) /\
  exists r, mapGet (snd out) (slice9 ctx) = Some r /\
    let t := (snd out).(heap) r in
    t.(latitude) = Some a /\ t.(longitude) = Some b /\
    t.(lastSeenDate) = Some ts /\ t.(context) = Some ctx /\
    t.(mmsi) = (mergeInto st (slice9 ctx)).(mmsi) /\
    (mapGet st (slice9 ctx) = None ->
     t.(sog) = Some 0%float /\ t.(cog) = Some 0%float).
Proof.
  intros Hm Ha Hb out. subst out.
  rewrite (processDelta_unfold (single ctx ts "navigation.position" v) st ctx
             eq_refl Hm).
  cbn [single delta_updates]. cbv zeta.
  set (id := slice9 ctx). set (t0 := set_context (Some ctx) (mergeInto st id)).
  assert (Hrun : applyUpdates
                   [mkUpdate ts (Some [mkPathValue "navigation.position" v])] t0
                 = (inr tt,
                    setInfo "needsRecalc" (JBool true)
                      (set_lastSeenDate (Some ts)
                         (set_longitude (Some b) (set_latitude (Some a) t0))))).
  { cbn [applyUpdates upd_values upd_timestamp applyValues].
    unfold applyValue. cbn [pv_path pv_value String.eqb Ascii.eqb Bool.eqb].
    unfold bind, eval, modify, assign, ret. rewrite Ha, Hb. reflexivity. }
  rewrite Hrun. cbn [fst snd]. split; [reflexivity|].
  exists (placeOf st id). split.
  { unfold mapGet, mapSet, with_heap. cbn [entries]. apply IngestProofs.assoc_setEntry. }
  unfold mapSet, with_heap. cbn [heap]. rewrite RecomputeProofs.heap_set_same.
  split_all; try reflexivity.
  intros G. unfold t0, mergeInto. rewrite G. split; reflexivity.
Qed.

Lemma keyed_noFixStore : keyed noFixStore.
Proof.
  intros k r [[= <- <-]|[[= <- <-]|[]]]; split; simpl; first [reflexivity | lia].
Defined.

Lemma unique_noFixStore : uniqueKeys noFixStore.
Proof.
  unfold uniqueKeys. simpl. repeat constructor; simpl; intuition discriminate.
Defined.

Lemma processDelta_keyed_witness :
  keyed (snd (processDelta contextOnly noFixStore)) /\
  uniqueKeys (snd (processDelta contextOnly noFixStore)).
Proof.
  apply processDelta_keyed; [exact keyed_noFixStore | exact unique_noFixStore].
Defined.

Lemma processDelta_frame_witness :
  mapGet (snd (processDelta contextOnly noFixStore)) "000000001"
  = mapGet noFixStore "000000001" /\
  forall r, mapGet noFixStore "000000001" = Some r ->
    (snd (processDelta contextOnly noFixStore)).(heap) r = noFixStore.(heap) r.
Proof.
  apply processDelta_frame; [exact keyed_noFixStore | discriminate].
Defined.

Lemma position_round_trip_witness :
  let v := JObj [("latitude", JNum 39%float); ("longitude", JNum (-75)%float)] in
  let out :=
    processDelta
      (single "vessels.urn:mrn:imo:mmsi:123456789" 1000%float
         "navigation.position" v) emptyStore in
  fst out = inr (Some "123456789") /\
  exists r, mapGet (snd out) "123456789" = Some r /\
    let t := (snd out).(heap) r in
    t.(latitude) = Some 39%float /\ t.(longitude) = Some (-75)%float /\
    t.(lastSeenDate) = Some 1000%float /\
    t.(context) = Some "vessels.urn:mrn:imo:mmsi:123456789" /\
    t.(mmsi) = (mergeInto emptyStore "123456789").(mmsi) /\
    (mapGet emptyStore "123456789" = None ->
     t.(sog) = Some 0%float /\ t.(cog) = Some 0%float).
Proof.
  apply (position_round_trip "vessels.urn:mrn:imo:mmsi:123456789" 1000%float
           (JObj [("latitude", JNum 39%float); ("longitude", JNum (-75)%float)])
           39%float (-75)%float emptyStore); reflexivity.
Defined.

(** A delta with an empty [updates] list, for an id not yet stored. *)
Lemma processDelta_stores_witness :
  (exists e, fst (processDelta
                    (mkDelta (Some "vessels.urn:mrn:imo:mmsi:123456789") (Some []))
                    emptyStore) = inl e) \/
  (fst (processDelta
          (mkDelta (Some "vessels.urn:mrn:imo:mmsi:123456789") (Some []))
          emptyStore) = inr (Some (slice9 "vessels.urn:mrn:imo:mmsi:123456789")) /\
   mapHas (snd (processDelta
                  (mkDelta (Some "vessels.urn:mrn:imo:mmsi:123456789") (Some []))
                  emptyStore))
     (slice9 "vessels.urn:mrn:imo:mmsi:123456789") = true).
Proof.
  apply (IngestProofs.processDelta_stores
           (mkDelta (Some "vessels.urn:mrn:imo:mmsi:123456789") (Some []))
           emptyStore "vessels.urn:mrn:imo:mmsi:123456789" []); reflexivity.
Defined.

End IngestFacts.

(** ** Maritime identification digits *)

Module MidProofs.
Import Ingest Classifier Mid.
Local Open Scope string_scope.

Lemma isMmsi_digits (m : string) :
  isMmsi m = true ->
  exists c1 c2 c3 c4 c5 c6 c7 c8 c9,
    m = String c1 (String c2 (String c3 (String c4 (String c5 (String c6
          (String c7 (String c8 (String c9 "")))))))) /\
    isDigit c1 = true /\ isDigit c2 = true /\ isDigit c3 = true /\
    isDigit c4 = true /\ isDigit c5 = true /\ isDigit c6 = true /\
    isDigit c7 = true /\ isDigit c8 = true /\ isDigit c9 = true.
Proof.
  unfold isMmsi. intros H. apply andb_true_iff in H as [Hl Hd].
  apply Nat.eqb_eq in Hl.
  do 9 (destruct m as [|? m]; [discriminate|]).
  destruct m; [|discriminate].
  cbn [allDigits] in Hd.
  repeat match type of Hd with (_ && _) = true =>
    let H := fresh "D" in apply andb_true_iff in Hd as [H Hd] end.
  do 9 eexists. split; [reflexivity|]. split_all; assumption.
Qed.

(** X7: for an MMSI of nine digits, [getMid] returns three digits,
    whatever the prefix that names the kind of station. *)
Theorem getMid_three_digits (m : string) :
  isMmsi m = true ->
  String.length (getMid m) = 3 /\ allDigits (getMid m) = true.
Proof.
  intros H.
  destruct (isMmsi_digits m H)
    as (c1 & c2 & c3 & c4 & c5 & c6 & c7 & c8 & c9 & -> & D1 & D2 & D3 & D4
        & D5 & D6 & D7 & D8 & D9).
  unfold getMid.
  repeat match goal with
         | |- context [if ?c then _ else _] => destruct c
         end;
    cbn [String.substring String.length allDigits];
    rewrite ?D1, ?D2, ?D3, ?D4, ?D5, ?D6; split; reflexivity.
Qed.

Lemma getMid_three_digits_witness :
  String.length (getMid "970123456") = 3 /\ allDigits (getMid "970123456") = true.
Proof. apply getMid_three_digits. reflexivity. Defined.

End MidProofs.

(** ** The routes of the plugin *)

Module PluginProofs.
Import Num Ingest StoreSpec Plugin FloatFacts FloatMore IngestFacts.
Local Open Scope string_scope.

Lemma assoc_setProp (key : string) (v : JSON) (kv : list (string * JSON)) :
  assoc key (setProp key v kv) = Some v.
Proof.
  induction kv as [|[k x] kv IH]; simpl.
  - rewrite String.eqb_refl. reflexivity.
  - destruct (String.eqb key k) eqn:E; simpl; rewrite E; [reflexivity | exact IH].
Qed.

Lemma alarmIsMuted_setInfo (v : JSON) (t : Target) :
  alarmIsMuted (setInfo "alarmIsMuted" v t) = v.
Proof. unfold alarmIsMuted, setInfo. cbn [info set_info]. now rewrite assoc_setProp. Qed.

Lemma setInfo_derived key v t : sameDerived t (setInfo key v t).
Proof. unfold sameDerived. split_all; reflexivity. Qed.





(** X9: [/setAlarmIsMuted] answers success only for a body whose [mmsi] is
    a string of nine digits that names a target of the map and whose
    [alarmIsMuted] is present; it then stores [!!alarmIsMuted] on that
    target and touches no other object.  Every other request leaves the
    store exactly as it was, and no request adds or removes a target. *)
Theorem setAlarmIsMuted_outcome (body : JSON) (st : Store) :
  let out := setAlarmIsMuted body st in
  (snd out).(entries) = st.(entries) /\
  match fst out with
  | inr Success =>
      exists m r v,
        getProp body "mmsi" = inr (JStr m) /\ isMmsi m = true /\
        getProp body "alarmIsMuted" = inr v /\ v <> JUndefined /\
        mapGet st m = Some r /\
        alarmIsMuted ((snd out).(heap) r) = JBool (truthy v) /\
        sameDerived (st.(heap) r) ((snd out).(heap) r) /\
        forall r', r' <> r -> (snd out).(heap) r' = st.(heap) r'
  | _ => snd out = st
  end.
Proof.
  cbv zeta. unfold setAlarmIsMuted.
  destruct (getProp body "mmsi") as [e|mm]; [now split|].
  destruct (getProp body "alarmIsMuted") as [e|v]; [now split|].
  destruct (negb (truthy mm) || isUndefined v) eqn:E; [now split|].
  apply orb_false_elim in E as [_ Hv].
  destruct mm as [| | | |m| |]; try now split.
  destruct (isMmsi m) eqn:Hm; [|now split].
  destruct (mapGet st m) as [r|] eqn:G; [|now split].
  cbn [fst snd]. split; [reflexivity|].
  exists m, r, v. split_all; try reflexivity; try assumption.
  - intros ->. discriminate.
  - unfold with_heap. cbn [heap]. rewrite RecomputeProofs.heap_set_same.
    apply alarmIsMuted_setInfo.
  - unfold with_heap. cbn [heap]. rewrite RecomputeProofs.heap_set_same.
    apply setInfo_derived.
  - intros r' Hne. unfold with_heap. cbn [heap].
    now apply RecomputeProofs.heap_set_other.
Qed.

Local Open Scope float_scope.

Lemma still (c thr : float) m e :
  Prim2SF thr = S754_finite false m e -> gt (Math_abs (c - c)) thr = false.
Proof.
  intros Ht. unfold gt, Math_abs. rewrite ltb_spec, abs_spec, Ht.
  destruct (sub_self c) as [-> | ->]; reflexivity.
Qed.

Lemma differs_same (a : slot AlarmState) : differs a a = false.
Proof. destruct a as [| |[]]; reflexivity. Qed.

Lemma movedBy_same (v : slot float) (thr : float) m e :
  Prim2SF thr = S754_finite false m e -> movedBy v v thr = false.
Proof. intros H. destruct v; try reflexivity. simpl. now apply (still _ _ m e). Qed.

(** X10: once the published values are recorded, [hasTargetDataChanged]
    answers false until something changes, for every value of CPA, TCPA,
    range and bearing (NaN and the infinities included); the one exception
    is a target whose [cpa] was never assigned, which counts as never
    published. *)
Theorem published_target_is_unchanged (t : PublishFields) :
  hasTargetDataChanged (storeLastPublished t)
  = match t.(p_cpa) with Undefined => true | _ => false end.
Proof.
  unfold hasTargetDataChanged, storeLastPublished.
  cbn [p_cpa p_tcpa p_range p_bearing p_alarmState lastPublishedCpa
       lastPublishedTcpa lastPublishedRange lastPublishedBearing
       lastPublishedAlarmState].
  rewrite differs_same.
  rewrite (movedBy_same _ PUBLISH_THRESHOLDS.CPA_METERS _ _ eq_refl).
  rewrite (movedBy_same _ PUBLISH_THRESHOLDS.TCPA_SECONDS _ _ eq_refl).
  rewrite (movedBy_same _ PUBLISH_THRESHOLDS.RANGE_METERS _ _ eq_refl).
  rewrite (movedBy_same _ PUBLISH_THRESHOLDS.BEARING_DEGREES _ _ eq_refl).
  rewrite !Bool.eqb_reflx. cbn [negb orb].
  destruct (p_cpa t); reflexivity.
Qed.

End PluginProofs.

(** ** The verdict of the classifier *)

Module VerdictProofs.
Import FloatSpec FloatFacts Rounding IntegerFloats Adjustments.
Import Num Const Classifier ClassifierSpec ClassifierProofs OrderProofs.
Import VerdictSpec Samples FloatMore.
Local Open Scope string_scope.
Local Open Scope float_scope.

Lemma rank_alarmType t :
  (rank t).(alarmType) = (setAlarmType (setBase (withIdFlags t))).(alarmType).
Proof.
  unfold rank. set (u := setAlarmType (setBase (withIdFlags t))).
  unfold clampOrder, applyNoRange, applyRange, applyCpa, applyTcpa,
    addOrder, subOrder.
  repeat match goal with
         | |- context [if ?c then _ else _] => destruct c eqn:?
         | |- context [match ?v with _ => _ end] => destruct v eqn:?
         end; reflexivity.
Qed.

Lemma setBase_state t : (setBase t).(alarmState) = stateOf t.
Proof.
  unfold setBase, stateOf. destruct (anyDanger t); [reflexivity|].
  destruct (flag (collisionWarning t)); [reflexivity|].
  destruct (positive (tcpa t)); reflexivity.
Qed.

Lemma stateOf_flags t t' : sameFlags t t' -> stateOf t' = stateOf t.
Proof.
  intros H. unfold stateOf. rewrite (anyDanger_flags _ _ H).
  destruct H as (_ & _ & -> & _). reflexivity.
Qed.

Lemma alarmList_flags t t' : sameFlags t t' -> alarmList t' = alarmList t.
Proof.
  intros (H1 & H2 & H3 & H4 & H5 & H6). unfold alarmList.
  now rewrite H1, H2, H3, H4, H5, H6.
Qed.

Lemma alarmList_nil t : alarmList t = [] <-> stateOf t = None.
Proof.
  unfold alarmList, stateOf, anyDanger.
  destruct (flag (guardAlarm t)), (flag (collisionAlarm t)),
    (flag (collisionWarning t)), (flag (sartAlarm t)), (flag (mobAlarm t)),
    (flag (epirbAlarm t)); cbn; split; intros H; try discriminate; reflexivity.
Qed.

Lemma setAlarmType_type t :
  (setAlarmType t).(alarmType)
  = match alarmList t with [] => None | l => Some (String.concat "," l) end.
Proof. unfold setAlarmType. destruct (alarmList t); reflexivity. Qed.

(** What a run of the classifier that reaches its end leaves. *)
Lemma completes_verdict cp t t' :
  Completes cp t t' ->
  exists g a w,
    guardAlarmExpr cp t = inr g /\ collisionExpr (dangerOf cp) t = inr a /\
    collisionExpr (warningOf cp) t = inr w /\
    t'.(guardAlarm) = Some g /\ t'.(collisionAlarm) = Some a /\
    t'.(collisionWarning) = Some w /\
    t'.(sartAlarm) = Some (startsWith t.(mmsi) "970") /\
    t'.(mobAlarm) = Some (startsWith t.(mmsi) "972") /\
    t'.(epirbAlarm) = Some (startsWith t.(mmsi) "974") /\
    t'.(alarmState) = stateOf t' /\
    t'.(alarmType)
    = match alarmList t' with [] => None | l => Some (String.concat "," l) end /\
    t'.(order)
    = Some (orderFrom (baseOrder t') t.(tcpa) t.(cpa) t.(range)).
Proof.
  intros (g & a & w & Hg & Ha & Hw & ->). exists g, a, w.
  set (v := set_collisionWarning (Some w)
              (set_collisionAlarm (Some a) (set_guardAlarm (Some g) t))).
  pose proof (rank_flags v) as F.
  assert (Fb : sameFlags (withIdFlags v) (setBase (withIdFlags v)))
    by apply setBase_flags.
  split_all; try assumption; try (destruct F as (F1 & F2 & F3 & F4 & F5 & F6);
    first [exact F1 | exact F2 | exact F3 | exact F4 | exact F5 | exact F6]).
  - rewrite rank_alarmState, setBase_state. symmetry. now apply stateOf_flags.
  - rewrite rank_alarmType, setAlarmType_type.
    rewrite (alarmList_flags _ _ F), (alarmList_flags _ _ Fb). reflexivity.
  - rewrite rank_order. unfold baseOrder.
    rewrite (anyDanger_flags _ _ F).
    destruct F as (_ & _ & -> & _).
    assert (Ht : (rank v).(tcpa) = (withIdFlags v).(tcpa)).
    { pose proof (rank_inputs v) as I. rewrite (inputs_tcpa _ _ I). reflexivity. }
    rewrite Ht. reflexivity.
Qed.

(** X11: under a profile that has its three threshold groups, the
    classifier leaves six boolean flags, the state that goes with them
    ("danger" if any of the five alarms is set, else "warning" if the
    collision warning is set, else null), and an alarm type that is null
    exactly when the state is null. *)
Theorem verdict_consistent (t : Target) (cp : option CollisionProfiles) :
  wellFormed cp ->
  let t' := evaluateAlarms t cp in
  (exists g a w, t'.(guardAlarm) = Some g /\ t'.(collisionAlarm) = Some a /\
                 t'.(collisionWarning) = Some w) /\
  t'.(sartAlarm) = Some (startsWith t.(mmsi) "970") /\
  t'.(mobAlarm) = Some (startsWith t.(mmsi) "972") /\
  t'.(epirbAlarm) = Some (startsWith t.(mmsi) "974") /\
  t'.(alarmState) = stateOf t' /\
  (t'.(alarmType) = None <-> t'.(alarmState) = None).
Proof.
  intros Hwf t'. subst t'.
  destruct (completes_verdict _ _ _ (wellFormed_completes cp t Hwf))
    as (g & a & w & _ & _ & _ & Hg & Ha & Hw & Hs & Hm & He & Hst & Hty & _).
  split; [exists g, a, w; auto|]. split_all; try assumption.
  rewrite Hty, Hst. split.
  - intros H. apply alarmList_nil.
    destruct (alarmList _); [reflexivity | discriminate].
  - intros H. apply alarmList_nil in H. now rewrite H.
Qed.

Lemma verdict_consistent_witness :
  let t' := evaluateAlarms nearby harborProfiles in
  (exists g a w, t'.(guardAlarm) = Some g /\ t'.(collisionAlarm) = Some a /\
                 t'.(collisionWarning) = Some w) /\
  t'.(sartAlarm) = Some (startsWith nearby.(mmsi) "970") /\
  t'.(mobAlarm) = Some (startsWith nearby.(mmsi) "972") /\
  t'.(epirbAlarm) = Some (startsWith nearby.(mmsi) "974") /\
  t'.(alarmState) = stateOf t' /\
  (t'.(alarmType) = None <-> t'.(alarmState) = None).
Proof. apply verdict_consistent. exact harbor_wellFormed. Defined.

Lemma isBeacon_danger t t' :
  isBeacon t = true ->
  t'.(sartAlarm) = Some (startsWith t.(mmsi) "970") ->
  t'.(mobAlarm) = Some (startsWith t.(mmsi) "972") ->
  t'.(epirbAlarm) = Some (startsWith t.(mmsi) "974") ->
  anyDanger t' = true.
Proof.
  unfold isBeacon, anyDanger. intros H -> -> ->. cbn [flag].
  destruct (startsWith (mmsi t) "970"), (startsWith (mmsi t) "972"),
    (startsWith (mmsi t) "974"); try discriminate;
    rewrite ?orb_true_r; reflexivity.
Qed.

(** X12: a target whose MMSI starts with 970, 972 or 974 (AIS-SART, MOB
    device, EPIRB) is in state "danger" after classification whatever its
    range, CPA, TCPA and speed and whatever the thresholds, and its alarm
    type is not null. *)
Theorem beacon_is_danger (t : Target) (cp : option CollisionProfiles) :
  wellFormed cp -> isBeacon t = true ->
  let t' := evaluateAlarms t cp in
  t'.(alarmState) = Some danger_state /\
  exists names, t'.(alarmType) = Some names.
Proof.
  intros Hwf Hb t'. subst t'.
  destruct (completes_verdict _ _ _ (wellFormed_completes cp t Hwf))
    as (g & a & w & _ & _ & _ & Hg & Ha & Hw & Hs & Hm & He & Hst & Hty & _).
  pose proof (isBeacon_danger t _ Hb Hs Hm He) as Hd.
  assert (S : stateOf (evaluateAlarms t cp) = Some danger_state).
  { unfold stateOf. now rewrite Hd. }
  split; [now rewrite Hst|].
  rewrite Hty. destruct (alarmList _) eqn:L; [|eauto].
  apply alarmList_nil in L. congruence.
Qed.

Lemma beacon_is_danger_witness :
  let t' := evaluateAlarms sart harborProfiles in
  t'.(alarmState) = Some danger_state /\
  exists names, t'.(alarmType) = Some names.
Proof. apply beacon_is_danger; [exact harbor_wellFormed | reflexivity]. Defined.

(** X13: the priority order left by the classifier is a whole number
    between 5928 and 95000: the clamp to [-99999, 99999] never changes
    it. *)
Theorem order_is_whole (t : Target) (cp : option CollisionProfiles) :
  wellFormed cp ->
  exists k, (5928 <= k <= 95000)%Z /\
    (evaluateAlarms t cp).(order) = Some (of_Z k).
Proof.
  intros Hwf.
  destruct (completes_verdict _ _ _ (wellFormed_completes cp t Hwf))
    as (g & a & w & _ & _ & _ & _ & _ & _ & _ & _ & _ & _ & _ & Ho).
  destruct (baseOrder_int (evaluateAlarms t cp)) as (B & HB & EB & _).
  destruct (orderFrom_shift t.(tcpa) t.(cpa) t.(range)) as (d & Hd & Hs).
  rewrite EB, Hs in Ho by assumption.
  exists (B + d)%Z. split; [lia | exact Ho].
Qed.

Lemma order_is_whole_witness :
  exists k, (5928 <= k <= 95000)%Z /\
    (evaluateAlarms nearby harborProfiles).(order) = Some (of_Z k).
Proof. apply order_is_whole. exact harbor_wellFormed. Defined.

Lemma guardAlarmExpr_ext cp t t' :
  t'.(range) = t.(range) -> t'.(sog) = t.(sog) ->
  guardAlarmExpr cp t' = guardAlarmExpr cp t.
Proof. intros Hr Hs. unfold guardAlarmExpr. now rewrite Hr, Hs. Qed.

Lemma collisionExpr_ext grp t t' :
  t'.(cpa) = t.(cpa) -> t'.(tcpa) = t.(tcpa) -> t'.(sog) = t.(sog) ->
  collisionExpr grp t' = collisionExpr grp t.
Proof. intros Hc Ht Hs. unfold collisionExpr. now rewrite Hc, Ht, Hs. Qed.

Lemma runs_to_end cp t g a w :
  guardAlarmExpr cp t = inr g -> collisionExpr (dangerOf cp) t = inr a ->
  collisionExpr (warningOf cp) t = inr w ->
  fst (evaluateAlarms_body cp t) = inr tt /\
  evaluateAlarms t cp
  = rank (set_collisionWarning (Some w)
            (set_collisionAlarm (Some a) (set_guardAlarm (Some g) t))).
Proof.
  intros Hg Ha Hw. pose proof (body_cases cp t) as H.
  unfold evaluateAlarms, evaluateAlarms_exec, tryCatch.
  destruct (evaluateAlarms_body cp t) as [[e|[]] t'].
  - exfalso. destruct H; congruence.
  - split; [reflexivity|]. cbn [snd].
    destruct H as (g' & a' & w' & Hg' & Ha' & Hw' & ->). congruence.
Qed.

(** X14: a target with no range, no CPA and no TCPA is classified without
    a look at the profile, so also under a missing or malformed one: the
    body of the classifier raises no exception, the guard alarm, the
    collision alarm and the collision warning are false, and the order is
    90000, or 60000 in state "danger" for a distress beacon. *)
Theorem untracked_needs_no_profile (t : Target) (cp : option CollisionProfiles) :
  t.(range) = None -> t.(cpa) = None -> t.(tcpa) = None ->
  let t' := evaluateAlarms t cp in
  fst (evaluateAlarms_body cp t) = inr tt /\
  t'.(guardAlarm) = Some false /\ t'.(collisionAlarm) = Some false /\
  t'.(collisionWarning) = Some false /\
  t'.(alarmState) = (if isBeacon t then Some danger_state else None) /\
  t'.(order) = Some (if isBeacon t then 60000 else 90000).
Proof.
  intros Hr Hc Ht t'. subst t'.
  assert (Hg : guardAlarmExpr cp t = inr false)
    by (unfold guardAlarmExpr; now rewrite Hr).
  assert (Ha : forall grp, collisionExpr grp t = inr false)
    by (intros grp; unfold collisionExpr; now rewrite Hc).
  destruct (runs_to_end cp t _ _ _ Hg (Ha _) (Ha _)) as [Hrun E].
  split; [exact Hrun|].
  assert (C : Completes cp t (evaluateAlarms t cp)).
  { exists false, false, false. split_all; auto. }
  destruct (completes_verdict _ _ _ C)
    as (g & a & w & Hg' & Ha' & Hw' & Fg & Fa & Fw & Fs & Fm & Fe & Hst & _ & Ho).
  rewrite Hg in Hg'. rewrite (Ha _) in Ha'. rewrite (Ha _) in Hw'.
  injection Hg' as <-. injection Ha' as <-. injection Hw' as <-.
  assert (Hd : anyDanger (evaluateAlarms t cp) = isBeacon t).
  { unfold anyDanger, isBeacon. rewrite Fg, Fa, Fs, Fm, Fe. cbn [flag orb].
    now destruct (startsWith (mmsi t) "970"), (startsWith (mmsi t) "972"),
      (startsWith (mmsi t) "974"). }
  split_all; try assumption.
  - rewrite Hst. unfold stateOf. rewrite Hd, Fw. now destruct (isBeacon t).
  - rewrite Ho, Hr, Hc, Ht. unfold baseOrder. rewrite Hd, Fw.
    pose proof (evaluateAlarms_inputs t cp) as I.
    rewrite (inputs_tcpa _ _ I), Ht.
    destruct (isBeacon t); vm_compute; reflexivity.
Qed.

Lemma untracked_needs_no_profile_witness :
  let t := tracked "123456789" None None None in
  let t' := evaluateAlarms t None in
  fst (evaluateAlarms_body None t) = inr tt /\
  t'.(guardAlarm) = Some false /\ t'.(collisionAlarm) = Some false /\
  t'.(collisionWarning) = Some false /\
  t'.(alarmState) = (if isBeacon t then Some danger_state else None) /\
  t'.(order) = Some (if isBeacon t then 60000 else 90000).
Proof.
  apply (untracked_needs_no_profile (tracked "123456789" None None None) None);
    reflexivity.
Defined.

Lemma baseOrder_state t :
  exists B,
    baseOrder t = of_Z B /\
    B = match stateOf t with
        | Some danger_state => 10000%Z
        | Some warning_state => 20000%Z
        | None => if positive t.(tcpa) then 30000%Z else 40000%Z
        end.
Proof.
  unfold baseOrder, stateOf.
  destruct (anyDanger t); [exists 10000%Z; split; reflexivity|].
  destruct (flag (collisionWarning t)); [exists 20000%Z; split; reflexivity|].
  destruct (positive (tcpa t));
    [exists 30000%Z | exists 40000%Z]; split; reflexivity.
Qed.

(** The order of a classified target: a base that goes with its state and
    a shift that goes with its TCPA, CPA and range. *)
Lemma order_by_state cp t :
  wellFormed cp ->
  let t' := evaluateAlarms t cp in
  exists B,
    B = match t'.(alarmState) with
        | Some danger_state => 10000%Z
        | Some warning_state => 20000%Z
        | None => if positive t.(tcpa) then 30000%Z else 40000%Z
        end /\
    forall d, (forall B', (10000 <= B' <= 40000)%Z ->
                 orderFrom (of_Z B') t.(tcpa) t.(cpa) t.(range) = of_Z (B' + d)) ->
      t'.(order) = Some (of_Z (B + d)).
Proof.
  intros Hwf t'. subst t'.
  destruct (completes_verdict _ _ _ (wellFormed_completes cp t Hwf))
    as (g & a & w & _ & _ & _ & _ & _ & _ & _ & _ & _ & Hst & _ & Ho).
  destruct (baseOrder_state (evaluateAlarms t cp)) as (B & EB & HB).
  pose proof (evaluateAlarms_inputs t cp) as I.
  rewrite (inputs_tcpa _ _ I) in HB. rewrite <- Hst in HB.
  exists B. split; [exact HB|]. intros d Hd. rewrite Ho, EB. f_equal.
  apply Hd. destruct (alarmState _) as [[]|]; [| |destruct (positive _)]; lia.
Qed.

(** X15: with the same range, CPA and TCPA under the same profile, the
    order follows the state: a target in state "danger" comes before one
    that is not, a target in state "warning" before one with no state, and
    two targets in the same state get the same order. *)
Theorem state_decides_order (t1 t2 : Target) (cp : option CollisionProfiles) :
  wellFormed cp ->
  t1.(range) = t2.(range) -> t1.(cpa) = t2.(cpa) -> t1.(tcpa) = t2.(tcpa) ->
  let a := evaluateAlarms t1 cp in
  let b := evaluateAlarms t2 cp in
  exists oa ob, a.(order) = Some oa /\ b.(order) = Some ob /\
    (a.(alarmState) = Some danger_state ->
     b.(alarmState) <> Some danger_state -> lt oa ob = true) /\
    (a.(alarmState) = Some warning_state ->
     b.(alarmState) = None -> lt oa ob = true) /\
    (a.(alarmState) = b.(alarmState) -> oa = ob).
Proof.
  intros Hwf Hr Hc Ht a b. subst a b. pose proof pow53_big as P.
  destruct (order_by_state cp t1 Hwf) as (B1 & HB1 & O1).
  destruct (order_by_state cp t2 Hwf) as (B2 & HB2 & O2).
  cbv zeta in *.
  destruct (orderFrom_shift t2.(tcpa) t2.(cpa) t2.(range)) as (d & Hd & Hs).
  rewrite Hr, Hc, Ht in O1. specialize (O1 d Hs). specialize (O2 d Hs).
  rewrite Ht in HB1.
  assert (R1 : (10000 <= B1 <= 40000)%Z).
  { rewrite HB1.
    destruct (alarmState (evaluateAlarms t1 cp)) as [[]|];
      [| |destruct (positive _)]; lia. }
  assert (R2 : (10000 <= B2 <= 40000)%Z).
  { rewrite HB2.
    destruct (alarmState (evaluateAlarms t2 cp)) as [[]|];
      [| |destruct (positive _)]; lia. }
  eexists _, _. split; [exact O1|]. split; [exact O2|].
  unfold lt. rewrite of_Z_ltb by lia. split_all.
  - intros Sa Sb. rewrite Sa in HB1. apply Z.ltb_lt.
    destruct (alarmState (evaluateAlarms t2 cp)) as [[]|];
      [now contradiction Sb | | destruct (positive _)];
      cbv iota beta in HB1, HB2; lia.
  - intros Sa Sb. rewrite Sa in HB1. rewrite Sb in HB2. apply Z.ltb_lt.
    destruct (positive _); cbv iota beta in HB1, HB2; lia.
  - intros E. rewrite E in HB1. congruence.
Qed.

Lemma state_decides_order_witness :
  let a := evaluateAlarms sart harborProfiles in
  let b := evaluateAlarms vessel harborProfiles in
  exists oa ob, a.(order) = Some oa /\ b.(order) = Some ob /\
    (a.(alarmState) = Some danger_state ->
     b.(alarmState) <> Some danger_state -> lt oa ob = true) /\
    (a.(alarmState) = Some warning_state ->
     b.(alarmState) = None -> lt oa ob = true) /\
    (a.(alarmState) = b.(alarmState) -> oa = ob).
Proof.
  apply (state_decides_order sart vessel harborProfiles harbor_wellFormed);
    reflexivity.
Defined.

(** The shift of the order, split into the part that goes with TCPA and
    CPA and the part that goes with the range. *)
Lemma orderFrom_split tc c :
  exists d, (-4072 <= d <= 0)%Z /\
    forall B, (10000 <= B <= 40000)%Z ->
      orderFrom (of_Z B) tc c None = of_Z (B + d + 50000) /\
      forall r, exists d', (0 <= d' <= 5000)%Z /\
        orderFrom (of_Z B) tc c (Some r) = of_Z (B + d + d').
Proof.
  pose proof pow53_big as P.
  destruct (tcpaStep_shifts tc) as (d1 & H1 & S1).
  destruct (cpaStep_shifts c) as (d2 & H2 & S2).
  exists (d1 + d2)%Z. split; [lia|]. intros B HB. split.
  - unfold orderFrom. rewrite S1, S2 by lia. cbn [rangeStep noRangeStep is_null].
    unfold PRIORITY_ORDER.NO_RANGE. change 50000 with (of_Z 50000).
    rewrite of_Z_add by lia. rewrite clampStep_id by lia. f_equal; lia.
  - intros r. destruct (rangeStep_shifts (Some r)) as (d3 & H3 & S3).
    exists d3. split; [lia|].
    unfold orderFrom. rewrite S1, S2, S3 by lia. cbn [noRangeStep is_null].
    rewrite clampStep_id by lia. f_equal; lia.
Qed.

(** X16: of two readings of one target (same MMSI, speed, CPA and TCPA)
    under the same profile, the one whose range is unknown gets the larger
    order: a target without a range sorts after the same target with
    one. *)
Theorem unknown_range_sorts_last (t1 t2 : Target) (cp : option CollisionProfiles)
    (r : float) :
  wellFormed cp ->
  t1.(mmsi) = t2.(mmsi) -> t1.(sog) = t2.(sog) ->
  t1.(cpa) = t2.(cpa) -> t1.(tcpa) = t2.(tcpa) ->
  t1.(range) = None -> t2.(range) = Some r ->
  exists o1 o2,
    (evaluateAlarms t1 cp).(order) = Some o1 /\
    (evaluateAlarms t2 cp).(order) = Some o2 /\ lt o2 o1 = true.
Proof.
  intros Hwf Hm Hs Hc Ht Hr1 Hr2. pose proof pow53_big as P.
  destruct (completes_verdict _ _ _ (wellFormed_completes cp t1 Hwf))
    as (g1 & a1 & w1 & Eg1 & Ea1 & Ew1 & Fg1 & Fa1 & Fw1 & Fs1 & Fm1 & Fe1
        & St1 & _ & O1).
  destruct (completes_verdict _ _ _ (wellFormed_completes cp t2 Hwf))
    as (g2 & a2 & w2 & Eg2 & Ea2 & Ew2 & Fg2 & Fa2 & Fw2 & Fs2 & Fm2 & Fe2
        & St2 & _ & O2).
  rewrite (collisionExpr_ext (dangerOf cp) t2 t1 Hc Ht Hs) in Ea1.
  rewrite (collisionExpr_ext (warningOf cp) t2 t1 Hc Ht Hs) in Ew1.
  assert (a1 = a2) by congruence. assert (w1 = w2) by congruence. subst a2 w2.
  assert (g1 = false).
  { unfold guardAlarmExpr in Eg1. rewrite Hr1 in Eg1. congruence. }
  subst g1. rewrite Hm in Fs1, Fm1, Fe1.
  set (u1 := evaluateAlarms t1 cp) in *. set (u2 := evaluateAlarms t2 cp) in *.
  assert (Hd : anyDanger u2 = false -> anyDanger u1 = false).
  { unfold anyDanger. rewrite Fg1, Fa1, Fs1, Fm1, Fe1, Fg2, Fa2, Fs2, Fm2, Fe2.
    cbn [flag orb]. intros H. apply orb_false_elim in H as [H H5].
    apply orb_false_elim in H as [H H4]. apply orb_false_elim in H as [H H3].
    apply orb_false_elim in H as [_ H2]. now rewrite H2, H3, H4, H5. }
  assert (Htc : u1.(tcpa) = u2.(tcpa)).
  { unfold u1, u2. rewrite (inputs_tcpa _ _ (evaluateAlarms_inputs t1 cp)).
    rewrite (inputs_tcpa _ _ (evaluateAlarms_inputs t2 cp)). exact Ht. }
  destruct (baseOrder_int u1) as (B1 & HB1 & E1 & _ & _).
  destruct (baseOrder_int u2) as (B2 & HB2 & E2 & D2 & _).
  assert (HB : (B2 <= B1)%Z).
  { destruct (anyDanger u2) eqn:A2; [rewrite (D2 eq_refl); lia|].
    assert (E : baseOrder u1 = baseOrder u2).
    { unfold baseOrder. rewrite A2, (Hd eq_refl), Fw1, Fw2, Htc. reflexivity. }
    rewrite E1, E2 in E.
    assert (Hz : Z2SF B1 = Z2SF B2).
    { rewrite <- !Prim2SF_of_Z by lia. now rewrite E. }
    pose proof (Z2SF_compare B1 B2 ltac:(lia) ltac:(lia)) as Cmp.
    rewrite Hz, SFcompare_refl in Cmp.
    - injection Cmp as Cmp. symmetry in Cmp. apply Z.compare_eq in Cmp. lia.
    - destruct B2; try lia. discriminate. }
  destruct (orderFrom_split t2.(tcpa) t2.(cpa)) as (d & Hd' & Sp).
  destruct (Sp B1 HB1) as [S1 _]. destruct (Sp B2 HB2) as [_ S2].
  destruct (S2 r) as (d' & Hd'' & S2').
  rewrite E1, Hr1, Hc, Ht, S1 in O1. rewrite E2, Hr2, S2' in O2.
  eexists _, _. split; [exact O1|]. split; [exact O2|].
  unfold lt. rewrite of_Z_ltb by lia. apply Z.ltb_lt. lia.
Qed.

Lemma unknown_range_sorts_last_witness :
  exists o1 o2,
    (evaluateAlarms (tracked "123456789" None None None) harborProfiles).(order)
    = Some o1 /\
    (evaluateAlarms vessel harborProfiles).(order) = Some o2 /\
    lt o2 o1 = true.
Proof.
  apply (unknown_range_sorts_last (tracked "123456789" None None None) vessel
           harborProfiles 5000 harbor_wellFormed); reflexivity.
Defined.

Lemma known_lt_closer (a b : option float) (x y limit : float) :
  a = Some x -> b = Some y -> (y <=? x) = true ->
  known_lt a limit = true -> known_lt b limit = true.
Proof.
  intros -> -> Hle. unfold known_lt, lt. intros H.
  now apply (leb_ltb_trans y x limit).
Qed.

Lemma collisionExpr_closer th t1 t2 c1 c2 :
  t1.(cpa) = Some c1 -> t2.(cpa) = Some c2 -> (c2 <=? c1) = true ->
  t1.(tcpa) = t2.(tcpa) -> t1.(sog) = t2.(sog) ->
  collisionExpr (inr th) t1 = inr true -> collisionExpr (inr th) t2 = inr true.
Proof.
  intros H1 H2 Hle Ht Hs. unfold collisionExpr. rewrite H1, H2, <- Ht, <- Hs.
  destruct (lt c1 (thr_cpa th * METERS_PER_NM)) eqn:E; [|discriminate].
  unfold lt in *. now rewrite (leb_ltb_trans c2 c1 _ Hle E).
Qed.

(** X29: nearer is never safer: under a profile that has its three
    threshold groups, take two targets with the same speed and TCPA, the
    second with a range and a CPA that are not larger than the first's.
    Whichever of the guard alarm, the collision alarm and the collision
    warning the first target raises, the second raises as well. *)
Theorem closer_target_alarms_too (t1 t2 : Target) (cp : option CollisionProfiles)
    (r1 r2 c1 c2 : float) :
  wellFormed cp ->
  t1.(sog) = t2.(sog) -> t1.(tcpa) = t2.(tcpa) ->
  t1.(range) = Some r1 -> t2.(range) = Some r2 -> (r2 <=? r1) = true ->
  t1.(cpa) = Some c1 -> t2.(cpa) = Some c2 -> (c2 <=? c1) = true ->
  let a := evaluateAlarms t1 cp in
  let b := evaluateAlarms t2 cp in
  (a.(guardAlarm) = Some true -> b.(guardAlarm) = Some true) /\
  (a.(collisionAlarm) = Some true -> b.(collisionAlarm) = Some true) /\
  (a.(collisionWarning) = Some true -> b.(collisionWarning) = Some true).
Proof.
  intros Hwf Hs Ht Hr1 Hr2 Hr Hc1 Hc2 Hc a b. subst a b.
  destruct (completes_verdict _ _ _ (wellFormed_completes cp t1 Hwf))
    as (g1 & a1 & w1 & Eg1 & Ea1 & Ew1 & Fg1 & Fa1 & Fw1 & _).
  destruct (completes_verdict _ _ _ (wellFormed_completes cp t2 Hwf))
    as (g2 & a2 & w2 & Eg2 & Ea2 & Ew2 & Fg2 & Fa2 & Fw2 & _).
  destruct Hwf as (g & d & w & Hg & Hd & Hw).
  rewrite Fg1, Fa1, Fw1, Fg2, Fa2, Fw2. rewrite Hd in Ea1, Ea2.
  rewrite Hw in Ew1, Ew2. split_all; intros [= ->]; f_equal.
  - unfold guardAlarmExpr in Eg1, Eg2. rewrite Hg, Hr1 in Eg1.
    rewrite Hg, Hr2, <- Hs in Eg2. injection Eg1 as E1. injection Eg2 as <-.
    apply andb_true_iff in E1 as [E1 E1']. rewrite E1', andb_true_r.
    unfold lt in *. now apply (leb_ltb_trans r2 r1).
  - pose proof (collisionExpr_closer d t1 t2 c1 c2 Hc1 Hc2 Hc Ht Hs Ea1) as E.
    congruence.
  - pose proof (collisionExpr_closer w t1 t2 c1 c2 Hc1 Hc2 Hc Ht Hs Ew1) as E.
    congruence.
Qed.

Lemma closer_target_alarms_too_witness :
  let a := evaluateAlarms nearby harborProfiles in
  let b := evaluateAlarms (tracked "123456789" (Some 100) (Some 10) (Some 100))
             harborProfiles in
  (a.(guardAlarm) = Some true -> b.(guardAlarm) = Some true) /\
  (a.(collisionAlarm) = Some true -> b.(collisionAlarm) = Some true) /\
  (a.(collisionWarning) = Some true -> b.(collisionWarning) = Some true).
Proof.
  apply (closer_target_alarms_too nearby
           (tracked "123456789" (Some 100) (Some 10) (Some 100)) harborProfiles
           556 100 30 10 harbor_wellFormed); reflexivity.
Defined.

Lemma target_ext (u v : Target) : sameInputs u v -> sameVerdict u v -> v = u.
Proof.
  destruct u, v. unfold sameInputs, sameVerdict. cbn.
  intros H1 H2. decompose [and] H1. decompose [and] H2. subst. reflexivity.
Qed.

Lemma baseOrder_ext u v :
  sameFlags u v -> v.(tcpa) = u.(tcpa) -> baseOrder v = baseOrder u.
Proof.
  intros F Ht. unfold baseOrder. rewrite (anyDanger_flags _ _ F), Ht.
  destruct F as (_ & _ & -> & _). reflexivity.
Qed.

Lemma completes_again cp t t' t'' :
  Completes cp t t' -> Completes cp t' t'' -> t'' = t'.
Proof.
  intros C1 C2.
  assert (I1 : sameInputs t t').
  { destruct C1 as (g & a & w & _ & _ & _ & ->).
    eapply sameInputs_trans; [|apply rank_inputs].
    unfold sameInputs. split_all; reflexivity. }
  assert (I2 : sameInputs t' t'').
  { destruct C2 as (g & a & w & _ & _ & _ & ->).
    eapply sameInputs_trans; [|apply rank_inputs].
    unfold sameInputs. split_all; reflexivity. }
  destruct (completes_verdict _ _ _ C1)
    as (g1 & a1 & w1 & Eg1 & Ea1 & Ew1 & Fg1 & Fa1 & Fw1 & Fs1 & Fm1 & Fe1
        & St1 & Ty1 & O1).
  destruct (completes_verdict _ _ _ C2)
    as (g2 & a2 & w2 & Eg2 & Ea2 & Ew2 & Fg2 & Fa2 & Fw2 & Fs2 & Fm2 & Fe2
        & St2 & Ty2 & O2).
  assert (Hr : t'.(range) = t.(range)) by apply I1.
  assert (Hs : t'.(sog) = t.(sog)) by apply I1.
  assert (Hc : t'.(cpa) = t.(cpa)) by apply I1.
  assert (Ht : t'.(tcpa) = t.(tcpa)) by apply I1.
  assert (Hm : t'.(mmsi) = t.(mmsi)) by apply I1.
  rewrite (guardAlarmExpr_ext cp t t' Hr Hs) in Eg2.
  rewrite (collisionExpr_ext (dangerOf cp) t t' Hc Ht Hs) in Ea2.
  rewrite (collisionExpr_ext (warningOf cp) t t' Hc Ht Hs) in Ew2.
  assert (g2 = g1) by congruence. assert (a2 = a1) by congruence.
  assert (w2 = w1) by congruence. subst g2 a2 w2.
  rewrite Hm in Fs2, Fm2, Fe2.
  assert (F : sameFlags t' t'').
  { unfold sameFlags. split_all; congruence. }
  apply target_ext; [exact I2|].
  unfold sameVerdict. split_all; try congruence.
  - rewrite St1, St2. now apply stateOf_flags.
  - rewrite Ty1, Ty2, (alarmList_flags _ _ F). reflexivity.
  - rewrite O1, O2, Hr, Hc, Ht.
    rewrite (baseOrder_ext _ _ F (inputs_tcpa _ _ I2)). reflexivity.
Qed.

(** X17: the classifier is idempotent: applied to its own result, under
    the same profile (well-formed or not), it changes nothing. *)
Theorem evaluateAlarms_idempotent (t : Target) (cp : option CollisionProfiles) :
  evaluateAlarms (evaluateAlarms t cp) cp = evaluateAlarms t cp.
Proof.
  set (t' := evaluateAlarms t cp).
  pose proof (evaluateAlarms_inputs t cp) as I. fold t' in I.
  assert (Hr : t'.(range) = t.(range)) by apply I.
  assert (Hs : t'.(sog) = t.(sog)) by apply I.
  assert (Hc : t'.(cpa) = t.(cpa)) by apply I.
  assert (Ht : t'.(tcpa) = t.(tcpa)) by apply I.
  pose proof (guardAlarmExpr_ext cp t t' Hr Hs) as Eg.
  pose proof (collisionExpr_ext (dangerOf cp) t t' Hc Ht Hs) as Ea.
  pose proof (collisionExpr_ext (warningOf cp) t t' Hc Ht Hs) as Ew.
  destruct (evaluateAlarms_stop cp t) as [[e A]|C]; fold t' in A || fold t' in C.
  - destruct (evaluateAlarms_stop cp t') as [[e' A']|C'].
    + remember (evaluateAlarms t' cp) as t'' eqn:E''. clear E''.
      remember t' as u eqn:Eu. clear Eu.
      destruct A as [e Hg | g e Hg Ha | g a e Hg Ha Hw].
      * rewrite Hg in Eg. inversion A'; subst; try congruence.
      * assert (Eg' : guardAlarmExpr cp (set_guardAlarm (Some g) t) = inr g)
          by congruence.
        assert (Ea' : collisionExpr (dangerOf cp) (set_guardAlarm (Some g) t)
                      = inl e) by congruence.
        inversion A'; subst; try congruence.
        assert (g0 = g) by congruence. subst g0. reflexivity.
      * assert (Eg' : guardAlarmExpr cp
                        (set_collisionAlarm (Some a) (set_guardAlarm (Some g) t))
                      = inr g) by congruence.
        assert (Ea' : collisionExpr (dangerOf cp)
                        (set_collisionAlarm (Some a) (set_guardAlarm (Some g) t))
                      = inr a) by congruence.
        assert (Ew' : collisionExpr (warningOf cp)
                        (set_collisionAlarm (Some a) (set_guardAlarm (Some g) t))
                      = inl e) by congruence.
        inversion A'; subst; try congruence.
        assert (g0 = g) by congruence. assert (a0 = a) by congruence.
        subst g0 a0. reflexivity.
    + exfalso. destruct C' as (g & a & w & Hg & Ha & Hw & _).
      rewrite Eg in Hg. rewrite Ea in Ha. rewrite Ew in Hw.
      destruct A; congruence.
  - destruct (evaluateAlarms_stop cp t') as [[e' A']|C'].
    + exfalso. destruct C as (g & a & w & Hg & Ha & Hw & _).
      rewrite <- Eg in Hg. rewrite <- Ea in Ha. rewrite <- Ew in Hw.
      destruct A'; congruence.
    + now apply (completes_again cp t).
Qed.

End VerdictProofs.

(** ** What the CPA computation stores *)

Module CpaFacts.
Import FloatSpec FloatFacts Rounding IntegerFloats Adjustments BearingProofs.
Import Num Const Kinematics CpaSpec CpaProofs Samples OrderSpec FloatMore.
Local Open Scope float_scope.

Lemma updateCpa_cases (s t : Target) :
  updateCpa s t = clear_cpa t \/
  exists i, planar s t i /\
    falsy (rawTcpa i) = false /\ lt (rawTcpa i) 0 = false /\
    gt (rawTcpa i) TCPA_MAX_SECONDS = false /\
    Number_isFinite (rawCpa i) = true /\
    updateCpa s t
    = set_tcpa (Some (Math_round (rawTcpa i)))
        (set_cpa (Some (Math_round (rawCpa i))) t).
Proof.
  unfold updateCpa.
  destruct (x s) as [sx|] eqn:E1; [|now left].
  destruct (y s) as [sy|] eqn:E2; [|now left].
  destruct (vx s) as [svx|] eqn:E3; [|now left].
  destruct (vy s) as [svy|] eqn:E4; [|now left].
  destruct (x t) as [tx|] eqn:E5; [|now left].
  destruct (y t) as [ty|] eqn:E6; [|now left].
  destruct (vx t) as [tvx|] eqn:E7; [|now left].
  destruct (vy t) as [tvy|] eqn:E8; [|now left].
  destruct (lt _ _); [now left|].
  set (i := mkCpaInput sx sy svx svy tx ty tvx tvy).
  change (- dot (mkVec (tx - sx) (ty - sy)) (mkVec (tvx - svx) (tvy - svy))
          / dot (mkVec (tvx - svx) (tvy - svy)) (mkVec (tvx - svx) (tvy - svy)))
    with (rawTcpa i).
  destruct (falsy (rawTcpa i) || lt (rawTcpa i) 0 || gt (rawTcpa i) TCPA_MAX_SECONDS)
    eqn:E; [now left|].
  apply orb_false_elim in E as [E Eg]. apply orb_false_elim in E as [Ef El].
  change (dist _ _) with (rawCpa i).
  destruct (negb (Number_isFinite (rawCpa i)) || negb (Number_isFinite (rawTcpa i)))
    eqn:F; [now left|].
  apply orb_false_elim in F as [F _]. apply negb_false_iff in F.
  right. exists i. split; [repeat split; assumption|]. auto 10.
Qed.

Lemma updateCpa_restores (s t : Target) :
  set_tcpa t.(tcpa) (set_cpa t.(cpa) (updateCpa s t)) = t.
Proof.
  destruct (updateCpa_cases s t) as [->|(i & _ & _ & _ & _ & _ & ->)];
    destruct t; reflexivity.
Qed.

(** X18: [updateCpa] writes [cpa] and [tcpa] and nothing else, and always
    as a pair: after the call both are null or both are numbers. *)
Theorem updateCpa_pairs (s t : Target) :
  let t' := updateCpa s t in
  (t'.(cpa) = None <-> t'.(tcpa) = None) /\
  set_tcpa t.(tcpa) (set_cpa t.(cpa) t') = t.
Proof.
  cbv zeta. split; [|apply updateCpa_restores].
  destruct (updateCpa_cases s t) as [->|(i & _ & _ & _ & _ & _ & ->)];
    split; intros H; first [reflexivity | discriminate].
Qed.

Lemma dot_still (a b : float) :
  let dv := mkVec (a - a) (b - b) in
  dot dv dv = 0 \/ dot dv dv = nan.
Proof.
  cbv zeta. unfold dot. cbn [vec_x vec_y].
  destruct (sub_self_cases a) as [-> | ->], (sub_self_cases b) as [-> | ->];
    [left|right|right|right]; reflexivity.
Qed.

(** X19: a target with the velocity of the own vessel has no CPA: when the
    planar velocities agree, [updateCpa] stores null for [cpa] and [tcpa],
    wherever the two vessels are. *)
Theorem same_velocity_no_cpa (s t : Target) :
  s.(vx) = t.(vx) -> s.(vy) = t.(vy) ->
  (updateCpa s t).(cpa) = None /\ (updateCpa s t).(tcpa) = None.
Proof.
  intros Hx Hy. unfold updateCpa. rewrite Hx, Hy.
  destruct (x s) as [sx|]; [|now split].
  destruct (y s) as [sy|]; [|now split].
  destruct (vx t) as [tvx|]; [|now split].
  destruct (vy t) as [tvy|]; [|now split].
  destruct (x t) as [tx|]; [|now split].
  destruct (y t) as [ty|]; [|now split].
  destruct (dot_still tvx tvy) as [E|E]; cbv zeta in E; rewrite E.
  - change (lt 0 0x1.5798ee2308c3ap-27) with true. now split.
  - change (lt nan 0x1.5798ee2308c3ap-27) with false. cbv iota.
    rewrite div_nan_r. change (falsy nan) with true. now split.
Qed.

Lemma same_velocity_no_cpa_witness :
  (updateCpa (moving "000000001" 0 0 3 4) (moving "123456789" 100 50 3 4)).(cpa)
  = None /\
  (updateCpa (moving "000000001" 0 0 3 4) (moving "123456789" 100 50 3 4)).(tcpa)
  = None.
Proof. apply same_velocity_no_cpa; reflexivity. Defined.

(** X30: two vessels at the same planar position have no CPA: the time
    of closest approach is then zero (or NaN), which [updateCpa] rejects,
    so it stores null for [cpa] and [tcpa] whatever the two velocities
    are. *)
Theorem same_position_no_cpa (s t : Target) :
  s.(x) = t.(x) -> s.(y) = t.(y) ->
  (updateCpa s t).(cpa) = None /\ (updateCpa s t).(tcpa) = None.
Proof.
  intros Hx Hy. unfold updateCpa. rewrite Hx, Hy.
  destruct (x t) as [tx|]; [|now split].
  destruct (y t) as [ty|]; [|now split].
  destruct (vx s) as [svx|]; [|now split].
  destruct (vy s) as [svy|]; [|now split].
  destruct (vx t) as [tvx|]; [|now split].
  destruct (vy t) as [tvy|]; [|now split].
  destruct (lt _ _); [now split|].
  match goal with |- context [falsy ?tc] =>
    assert (F : falsy tc = true) end.
  { apply zeroish_falsy. apply div_zeroish_l. apply opp_zeroish.
    unfold dot. cbn [vec_x vec_y].
    apply add_zeroish; apply mul_zeroish_l; apply sub_self_zeroish. }
  rewrite F. now split.
Qed.

Lemma same_position_no_cpa_witness :
  (updateCpa (moving "000000001" 100 50 0 0) (moving "123456789" 100 50 3 4)).(cpa)
  = None /\
  (updateCpa (moving "000000001" 100 50 0 0) (moving "123456789" 100 50 3 4)).(tcpa)
  = None.
Proof. apply same_position_no_cpa; reflexivity. Defined.

Lemma MAX_is_10800 : TCPA_MAX_SECONDS = of_Z 10800.
Proof. vm_compute. reflexivity. Qed.

Lemma accepted_tcpa_signed (tc : float) :
  falsy tc = false -> lt tc 0 = false -> signed false (Prim2SF tc).
Proof.
  unfold falsy, is_zero_num, lt. rewrite is_nan_spec, eqb_spec, ltb_spec.
  change (Prim2SF 0) with (S754_zero false).
  destruct (Prim2SF tc) as [[]|[]| |[] m e]; cbn; intros H1 H2;
    try discriminate; constructor.
Qed.

Lemma dist_unsigned (u v : vec) : unsigned (Prim2SF (dist u v)).
Proof.
  unfold dist, norm, dot. cbn [vec_x vec_y].
  apply sqrt_unsigned. apply add_unsigned; apply square_unsigned.
Qed.

(** X20: what [updateCpa] stores is whole and in range: a stored [tcpa]
    is an integer number of seconds between 0 and 10800, and a stored
    [cpa] is a finite integer number of metres that is not negative. *)
Theorem stored_cpa_in_range (s t : Target) :
  let t' := updateCpa s t in
  (forall tc, t'.(tcpa) = Some tc ->
     exists n, (0 <= n <= 10800)%Z /\ tc = of_Z n) /\
  (forall c, t'.(cpa) = Some c ->
     (0 <=? c) = true /\ is_integer c = true).
Proof.
  cbv zeta.
  destruct (updateCpa_cases s t) as [->|(i & _ & Hf & Hl & Hg & Hfin & ->)];
    [split; intros ? H; discriminate|].
  cbn [tcpa cpa set_tcpa set_cpa]. split.
  - intros tc [= <-]. apply round_upto.
    + split; [lia | reflexivity].
    + now apply accepted_tcpa_signed.
    + rewrite <- MAX_is_10800. exact Hg.
  - intros c [= <-]. apply round_whole; [|exact Hfin].
    unfold rawCpa. cbv zeta.
    match goal with |- signed false (Prim2SF (dist ?u ?v)) =>
      destruct (dist_unsigned u v) as [E|E]; [|exact E];
      unfold Number_isFinite, rawCpa in Hfin; cbv zeta in Hfin;
      rewrite is_finite_spec, E in Hfin; discriminate end.
Qed.

End CpaFacts.

(** ** The recompute, target by target and tick by tick *)

Module RecomputeFacts.
Import FloatSpec FloatFacts.
Import Num Const Kinematics Classifier Recompute.
Import ClassifierSpec ClassifierProofs RecomputeSpec RecomputeProofs.
Import VerdictSpec StoreSpec Samples Fleet FloatMore CpaFacts.
Local Open Scope float_scope.

Section WithMath.
Context {M : MathLib}.

(** X21: the own vessel is never ranged or classified: for a target with
    the MMSI of the self target, [updateSingleTargetDerivedData] leaves
    range, bearing, CPA, TCPA, the six alarm flags, the alarm state, the
    alarm type and the order as they were. *)
Theorem own_vessel_not_classified target selfTarget cp maxAge now :
  target.(mmsi) = selfTarget.(mmsi) ->
  let t' := updateSingleTargetDerivedData target selfTarget cp maxAge now in
  sameVerdict target t' /\
  t'.(range) = target.(range) /\ t'.(bearing) = target.(bearing) /\
  t'.(cpa) = target.(cpa) /\ t'.(tcpa) = target.(tcpa).
Proof.
  intros Hm t'. subst t'. unfold updateSingleTargetDerivedData.
  cbn [mmsi set_x set_y set_vx set_vy]. rewrite Hm, String.eqb_refl. cbn [negb].
  unfold sameVerdict. split_all; reflexivity.
Qed.






Lemma sameReport_refl t : sameReport t t.
Proof. unfold sameReport. split_all; reflexivity. Qed.

Lemma updateSingle_report target selfTarget cp maxAge now :
  sameReport target
    (updateSingleTargetDerivedData target selfTarget cp maxAge now).
Proof. apply (updateSingle_age target selfTarget cp maxAge now). Qed.

Lemma forEachTarget_report es self cp maxAge clock i h r :
  sameReport (h r) (forEachTarget es self cp maxAge clock i h r).
Proof.
  revert i h. induction es as [|[k r0] es IH]; intros i h; [apply sameReport_refl|].
  cbn [forEachTarget].
  destruct (negb (String.eqb k (mmsi (h self)))); [|apply IH].
  eapply sameReport_trans; [|apply IH].
  unfold heap_set. destruct (Nat.eqb r r0) eqn:E; [|apply sameReport_refl].
  apply Nat.eqb_eq in E. subst r0. apply updateSingle_report.
Qed.

(** X23: the recompute adds and removes no target and never rewrites what
    was reported: after [updateDerivedData], however it ends, the map has
    the entries it had, and the MMSI, latitude, longitude, speed, course
    and time of the last report of every target object are as before. *)
Theorem updateDerivedData_keeps_reports st selfTarget cp maxAge clock :
  let st' := snd (updateDerivedData st selfTarget cp maxAge clock) in
  st'.(entries) = st.(entries) /\ st'.(next) = st.(next) /\
  forall r, sameReport (st.(heap) r) (st'.(heap) r).
Proof.
  cbv zeta. unfold updateDerivedData.
  destruct selfTarget as [self|];
    [|split_all; try reflexivity; intros r; apply sameReport_refl].
  cbv zeta.
  assert (H1 : forall r,
             sameReport (st.(heap) r)
               (heap_set st.(heap) self
                  (updateSingleTargetDerivedData (st.(heap) self) (st.(heap) self)
                     cp maxAge (clock 0%nat)) r)).
  { intros r. unfold heap_set. destruct (Nat.eqb r self) eqn:E;
      [|apply sameReport_refl].
    apply Nat.eqb_eq in E. subst r. apply updateSingle_report. }
  match goal with |- context [if ?c then _ else _] => destruct c end;
    cbn [snd with_heap entries next heap]; split_all; try reflexivity;
    intros r; [apply H1|].
  eapply sameReport_trans; [apply H1 | apply forEachTarget_report].
Qed.




(** X25: a target that is invalid through its age alone is also marked
    lost, as long as the maximum age is not below the 600 s after which a
    target counts as lost. *)
Theorem stale_is_lost target selfTarget cp maxAge now :
  (LOST_TARGET_WARNING_AGE <=? maxAge) = true ->
  target.(latitude) <> None -> target.(longitude) <> None ->
  let t' := updateSingleTargetDerivedData target selfTarget cp maxAge now in
  t'.(isValid) = Some false -> t'.(isLost) = Some true.
Proof.
  intros Hmax Hlat Hlon t' Hv. subst t'.
  destruct (updateSingle_age target selfTarget cp maxAge now) as (_ & Hv' & _).
  rewrite Hv' in Hv.
  destruct (latitude target); [|contradiction].
  destruct (longitude target); [|contradiction].
  cbn [is_null orb] in Hv.
  destruct (gt (ageSeconds now (lastSeenDate target)) maxAge) eqn:G;
    [|discriminate].
  rewrite updateSingle_unfold. cbv zeta. cbn [isLost set_isValid set_isLost].
  destruct (classified_report target selfTarget cp) as (_ & _ & _ & _ & _ & ->).
  f_equal. unfold gt in *. now apply (leb_ltb_trans _ maxAge).
Qed.

(** ** One tick *)





End WithMath.

Lemma stale_is_lost_witness :
  (updateSingleTargetDerivedData (M := linearMath) equator ownFix
     harborProfiles TARGET_MAX_AGE 3600000).(isLost) = Some true.
Proof.
  apply (stale_is_lost (M := linearMath) equator ownFix harborProfiles
           TARGET_MAX_AGE 3600000);
    [reflexivity | discriminate | discriminate | vm_compute; reflexivity].
Defined.




Lemma own_vessel_not_classified_witness :
  let t' := updateSingleTargetDerivedData (M := linearMath) ownFix ownFix
              harborProfiles TARGET_MAX_AGE 1000 in
  sameVerdict ownFix t' /\
  t'.(range) = ownFix.(range) /\ t'.(bearing) = ownFix.(bearing) /\
  t'.(cpa) = ownFix.(cpa) /\ t'.(tcpa) = ownFix.(tcpa).
Proof.
  apply (own_vessel_not_classified (M := linearMath) ownFix ownFix). reflexivity.
Defined.


End RecomputeFacts.

(** ** The stored bearing *)

Module BearingFacts.
Import Num Const Kinematics BearingSpec BearingProofs Samples.
Local Open Scope string_scope.
Local Open Scope float_scope.

Section WithMath.
Context {M : MathLib}.

(** X27: the bearing stored by [calculateRangeAndBearing] is never 360,
    for any two targets and any values the host's [Math] returns. *)
Theorem bearing_never_360 (selfTarget target : Target) :
  (calculateRangeAndBearing selfTarget target).(bearing) <> Some 360.
Proof.
  unfold calculateRangeAndBearing.
  destruct (latitude selfTarget), (longitude selfTarget), (latitude target),
    (longitude target); cbn [bearing set_bearing set_range]; try discriminate.
  intros [= H]. now apply foldBearing_never_360 in H.
Qed.

End WithMath.

(** The own vessel at 39 N 75 W and a target on the equator at the prime
    meridian. *)
Lemma bearing_whole_in_range_witness :
  exists b,
    (calculateRangeAndBearing (M := linearMath) ownFix equator).(bearing) = Some b
    /\ wholeDegrees b.
Proof.
  apply (bearing_whole_in_range (M := linearMath) ownFix equator
           39 (-75) 0 0); reflexivity.
Defined.

End BearingFacts.
